(** * Agreement negotiation core of the agreement bot

    A shallow embedding of [BaseAgreementWorker] (package [agreementbot]):
    the workload-selection loop of [InitiateNewAgreement], the reply handler
    [HandleAgreementReply], [HandleDataReceivedAck], [HandleWorkloadUpgrade]
    and the cancellation path ([CancelAgreementWithLock], [CancelAgreement],
    [ExternalCancel], [DoAsyncCancel]).

    The worker is a sequence of calls on its collaborators (the agreement
    store, the exchange, the policy package, the consumer protocol handler
    and the agreement lock manager).  A handler is modelled as a state
    transformer on a [World]: the two tables of the store and the list of
    the effectful calls made so far, in order. *)

From Stdlib Require Import ZArith String List Bool Lia.
From stdpp Require Import base option list gmap strings.

Local Open Scope string_scope.
Local Open Scope list_scope.

(** ** Go integers *)

(** Go's [int] is 64 bits wide on the platforms the agbot runs on; addition
    wraps around. *)
Definition wrap_int (z : Z) : Z := ((z + 2 ^ 63) mod 2 ^ 64 - 2 ^ 63)%Z.
Definition int_add (a b : Z) : Z := wrap_int (a + b).

(** ** Data of the policy package, as the worker reads it *)

Record WorkloadPriority := mkWorkloadPriority {
  PriorityValue : Z;
  Retries : Z;
  RetryDurationS : Z;
  VerifiedDurationS : Z
}.

Record Torrent := mkTorrent {
  Url : string;
  Signature : string
}.

Record Workload := mkWorkload {
  Deployment : string;
  DeploymentSignature : string;
  WTorrent : Torrent;
  Priority : WorkloadPriority;
  WorkloadURL : string;
  WOrg : string;
  WVersion : string;
  WArch : string
}.

Record APISpecification := mkAPISpecification {
  SpecRef : string;
  SOrg : string;
  SVersion : string;
  ExclusiveAccess : bool;
  SArch : string
}.

Definition APISpecList := list APISpecification.

Record Property := mkProperty {
  PName : string;
  PValue : string
}.

Record Policy := mkPolicy {
  HeaderName : string;
  PatternId : string;
  APISpecs : APISpecList;
  Workloads : list Workload;
  Partners : list string;
  Properties : list Property;
  NodeH : string
}.

(** ** Data of the exchange *)

Record SearchResultDevice := mkSearchResultDevice {
  Id : string;
  PublicKey : string;
  MsgEndPoint : string
}.

Record Microservice := mkMicroservice {
  MUrl : string;
  MPolicy : string
}.

Record Device := mkDevice {
  RegisteredMicroservices : list Microservice
}.

Record APISpec := mkAPISpec {
  ASpecRef : string;
  AOrg : string;
  AVersion : string;
  AArch : string
}.

Record WorkloadDeployment := mkWorkloadDeployment {
  DDeployment : string;
  DDeploymentSignature : string;
  DTorrent : string
}.

Record WorkloadDefinition := mkWorkloadDefinition {
  DAPISpecs : list APISpec;
  DWorkloads : list WorkloadDeployment
}.

Record ExchangeMessageTarget := mkExchangeMessageTarget {
  ReceiverExchangeId : string;
  ReceiverPublicKeyBytes : string;
  ReceiverMsgEndPoint : string
}.

(** ** Data of the abstract protocol *)

Record Proposal := mkProposal {
  PAgreementId : string;
  TsAndCs : string;
  PVersion : Z
}.

Record ProposalReply := mkProposalReply {
  ProposalAccepted : bool;
  AgreementId : string;
  RAddress : string;
  RVersion : Z
}.

(** ** Event bodies that flow from the processor to the agreement workers *)

Record InitiateAgreement := mkInitiateAgreement {
  ProducerPolicy : Policy;
  OriginalProducerPolicy : string;
  ConsumerPolicy : Policy;
  IOrg : string;
  IDevice : SearchResultDevice
}.

Record HandleReply := mkHandleReply {
  Reply : ProposalReply;
  From : string;
  SenderId : string;
  SenderPubKey : string;
  MessageId : Z
}.

Record HandleDataReceivedAckWork := mkHandleDataReceivedAckWork {
  Ack : string;
  AFrom : string;
  ASenderId : string;
  ASenderPubKey : string;
  AMessageId : Z
}.

Record HandleWorkloadUpgradeWork := mkHandleWorkloadUpgradeWork {
  UAgreementId : string;
  UProtocol : string;
  UDevice : string;
  UPolicyName : string
}.

Record AsyncCancelAgreement := mkAsyncCancelAgreement {
  workType : string;
  CAgreementId : string;
  CProtocol : string;
  CReason : N
}.

Definition ASYNC_CANCEL : string := "ASYNC_CANCEL".

(** Modelled from the spec: the semantic termination reasons that the core
    requires ([NEGATIVE_REPLY], [CANCEL_BC_WRITE_FAILED],
    [CANCEL_FORCED_UPGRADE]); the constants are declared outside the
    worker, and the protocol driver translates them to codes. *)
Definition TERM_REASON_NEGATIVE_REPLY : string := "NegativeReply".
Definition TERM_REASON_CANCEL_BC_WRITE_FAILED : string := "WriteFailed".
Definition TERM_REASON_CANCEL_FORCED_UPGRADE : string := "ForceUpgrade".

(** ** Records of the agreement store *)

Inductive AgState :=
  Pending | Proposed | Replied | DataReceived | TimedOut | ArchivedState.

Record Agreement := mkAgreement {
  CurrentAgreementId : string;
  Org : string;
  DeviceId : string;
  PolicyName : string;
  AgPolicy : string;
  AgProposal : string;
  AgreementProtocol : string;
  AgreementProtocolVersion : Z;
  Pattern : string;
  BlockchainType : string;
  BlockchainName : string;
  BlockchainOrg : string;
  CounterPartyAddress : string;
  State : AgState;
  created : Z;
  proposed : Z;
  replied : Z;
  data_received : Z;
  terminated : Z;
  Archived : bool;
  TerminatedReason : N;
  TerminatedDescription : string
}.

Record WorkloadUsage := mkWorkloadUsage {
  UsDeviceId : string;
  HAPartners : list string;
  UsPolicy : string;
  UsPolicyName : string;
  UsPriority : Z;
  RetryCount : Z;
  UsRetryDurationS : Z;
  UsVerifiedDurationS : Z;
  FirstTryTime : Z;
  DisableRetry : bool;
  ReqsNotMet : bool;
  UsCurrentAgreementId : string
}.

#[global] Instance WorkloadPriority_eq_dec : EqDecision WorkloadPriority.
Proof. solve_decision. Defined.
#[global] Instance Torrent_eq_dec : EqDecision Torrent.
Proof. solve_decision. Defined.
#[global] Instance Workload_eq_dec : EqDecision Workload.
Proof. solve_decision. Defined.
#[global] Instance ExchangeMessageTarget_eq_dec : EqDecision ExchangeMessageTarget.
Proof. solve_decision. Defined.
#[global] Instance AsyncCancelAgreement_eq_dec : EqDecision AsyncCancelAgreement.
Proof. solve_decision. Defined.

(** ** Calls on the collaborators *)

(** Outcome of a Go call that returns an [error] next to its value. *)
Inductive result (A : Type) :=
| Good (a : A)
| Err.
Arguments Good {A} a.
Arguments Err {A}.

(** The operations of the agreement store ([agreementbot] database
    functions), with their arguments. *)
Inductive StoreOp :=
| OpFindSingleAgreementByAgreementId (id protocol : string) (unarchived : bool)
| OpFindAgreements (device policyName protocol : string)
| OpAgreementAttempt (id org device policyName bcType bcName bcOrg protocol pattern nodeH : string)
| OpDeleteAgreement (id protocol : string)
| OpPersistAgreement (id protocol : string)
| OpPersistReply (id protocol address : string) (version : Z)
| OpDataNotification (id protocol : string)
| OpAgreementTimedout (id protocol : string)
| OpArchiveAgreement (id protocol : string) (reason : N) (text : string)
| OpFindSingleWorkloadUsageByDeviceAndPolicyName (device policyName : string)
| OpNewWorkloadUsage (device : string) (partners : list string) (policy policyName : string)
    (priority retryDurationS verifiedDurationS : Z) (reqsNotMet : bool) (agid : string)
| OpUpdatePriority (device policyName : string) (priority retryDurationS verifiedDurationS : Z) (agid : string)
| OpUpdateRetryCount (device policyName : string) (retryCount : Z) (agid : string)
| OpUpdatePolicy (device policyName policy : string)
| OpUpdateWUAgreementId (device policyName agid : string)
| OpDeleteWorkloadUsage (device policyName : string).

(** The effectful calls a handler makes, in the order it makes them.
    Queries (store lookups, exchange GETs, policy functions) are not
    recorded. *)
Inductive Call :=
| Lock (id : string)
| Unlock (id : string)
| DeleteAgreementLock (id : string)
| Confirm (accepted : bool) (id : string) (mt : ExchangeMessageTarget)
| DeleteMessage (msgId : Z)
| PostReply (id : string)
| RecordConsumerAgreementState (id status : string)
| DeleteConsumerAgreement (id : string)
| TerminateAgreement (id : string) (reason : N)
| DeferCommand (cmd : AsyncCancelAgreement)
| ProtocolInitiate (id : string) (workload : option nat)
| Store (op : StoreOp).

#[global] Instance StoreOp_eq_dec : EqDecision StoreOp.
Proof. solve_decision. Defined.
#[global] Instance Call_eq_dec : EqDecision Call.
Proof. solve_decision. Defined.

(** ** The collaborators of the worker

    None of these is implemented by the worker: the policy package, the
    exchange client, the consumer protocol handler and the configuration are
    taken as they answer.  A pointer to a workload of a policy is the index
    of that workload in the policy's [Workloads]; [None] is the nil
    pointer. *)
Record Collaborators := mkCollaborators {
  (* cutil *)
  GenerateAgreementId : result string;
  now : Z;
  (* policy *)
  RequiresKnownBC : Policy -> string -> string * string * string;
  NextHighestPriorityWorkload : Policy -> Z -> Z -> Z -> option nat;
  HasEmptyPriority : Workload -> bool;
  IsSame : WorkloadPriority -> WorkloadPriority -> bool;
  Supports : APISpecList -> APISpecList -> bool;
  DemarshalPolicy : string -> result Policy;
  Are_Compatible_Producers : Policy -> Policy -> Z -> result Policy;
  UnmarshalTorrent : string -> result Torrent;
  APISpecification_Factory : string -> string -> string -> string -> APISpecification;
  (* exchange *)
  GetDevice : string -> result Device;
  GetWorkload : string -> string -> string -> string -> result (option WorkloadDefinition);
  CreateMessageTarget : string -> string -> string -> result ExchangeMessageTarget;
  (* consumer protocol handler *)
  Name : string;
  ExchangeId : string;
  AgreementProtocolHandler : string -> string -> string -> bool;
  ProtocolInitiateAgreement : string -> Policy -> Policy -> option nat -> result Proposal;
  DemarshalProposal : string -> result Proposal;
  PostReplyResult : string -> result unit;
  RecordConsumerAgreementStateResult : string -> string -> result unit;
  CanCancelNow : Agreement -> bool;
  IsBlockchainWritable : string -> string -> string -> bool;
  GetKnownBlockchain : Agreement -> string * string * string;
  GetTerminationCode : string -> N;
  GetTerminationReason : N -> string;
  ValidateDataReceivedAck : string -> result (option string);
  MarshalPolicy : Policy -> string;
  MarshalProposal : Proposal -> string;
  (* configuration *)
  NoDataIntervalS : Z;
  DefaultWorkloadPW : string;
  IgnoreContractWithAttribs : string;
  listContains : string -> string -> bool;
  (* transient failure of a store operation *)
  storeFault : StoreOp -> bool
}.

(** ** The world a handler runs in *)

Record World := mkWorld {
  agreements : gmap string Agreement;
  usages : gmap (string * string) WorkloadUsage;
  trace : list Call
}.

Definition log (c : Call) (w : World) : World :=
  mkWorld (agreements w) (usages w) (trace w ++ [c]).

Definition setAgreements (m : gmap string Agreement) (w : World) : World :=
  mkWorld m (usages w) (trace w).

Definition setUsages (m : gmap (string * string) WorkloadUsage) (w : World) : World :=
  mkWorld (agreements w) m (trace w).

(** How a piece of a handler ends: it falls through with a value, it leaves
    the enclosing function with [return], the Go runtime panics (nil
    dereference, index out of range), or a loop is still running when the
    fuel of the model is used up. *)
Inductive Outcome (A : Type) :=
| Ok (a : A)
| Exit
| Panic
| OutOfFuel.
Arguments Ok {A} a.
Arguments Exit {A}.
Arguments Panic {A}.
Arguments OutOfFuel {A}.

Definition M (A : Type) : Type := World -> Outcome A * World.

Definition ret {A} (a : A) : M A := fun w => (Ok a, w).
Definition exit {A} : M A := fun w => (Exit, w).
Definition panic {A} : M A := fun w => (Panic, w).
Definition outOfFuel {A} : M A := fun w => (OutOfFuel, w).

Definition bind {A B} (m : M A) (k : A -> M B) : M B :=
  fun w =>
    match m w with
    | (Ok a, w') => k a w'
    | (Exit, w') => (Exit, w')
    | (Panic, w') => (Panic, w')
    | (OutOfFuel, w') => (OutOfFuel, w')
    end.

Notation "x <- m ;; k" := (bind m (fun x => k))
  (at level 100, m at next level, right associativity).
Notation "m ;;; k" := (bind m (fun _ => k))
  (at level 100, right associativity).

Definition call (c : Call) : M unit := fun w => (Ok tt, log c w).

Definition when (b : bool) (m : M unit) : M unit :=
  if b then m else ret tt.

(** Runs [m] as the body of a function with a deferred call [d]: [d] runs
    when the body falls through, returns or panics. *)
Definition defer {A} (d : Call) (m : M A) : M A :=
  fun w =>
    match m w with
    | (o, w') => (o, log d w')
    end.

(** A function call: a [return] inside the callee ends the callee only. *)
Definition callee (m : M unit) : M unit :=
  fun w =>
    match m w with
    | (Exit, w') => (Ok tt, w')
    | r => r
    end.

Section Worker.

Context (E : Collaborators).

(** ** The agreement store

    The database functions are not part of the worker.  Each one is a
    single-record operation on one of the two tables; a call that changes a
    table is recorded in the trace, and any call can fail transiently
    ([storeFault]). *)

Definition storeRead {A} (op : StoreOp) (f : World -> A) : M (result A) :=
  fun w => if storeFault E op then (Ok Err, w) else (Ok (Good (f w)), w).

Definition writeAgreements {A} (op : StoreOp)
    (f : gmap string Agreement -> option (A * gmap string Agreement)) : M (result A) :=
  fun w =>
    let w1 := log (Store op) w in
    if storeFault E op then (Ok Err, w1)
    else match f (agreements w) with
         | Some (a, m) => (Ok (Good a), setAgreements m w1)
         | None => (Ok Err, w1)
         end.

Definition writeUsages {A} (op : StoreOp)
    (f : gmap (string * string) WorkloadUsage -> option (A * gmap (string * string) WorkloadUsage))
  : M (result A) :=
  fun w =>
    let w1 := log (Store op) w in
    if storeFault E op then (Ok Err, w1)
    else match f (usages w) with
         | Some (a, m) => (Ok (Good a), setUsages m w1)
         | None => (Ok Err, w1)
         end.

Definition visible (protocol : string) (unarchived : bool) (a : Agreement) : bool :=
  bool_decide (AgreementProtocol a = protocol) && (negb unarchived || negb (Archived a)).

Definition lookupAgreement (id protocol : string) (unarchived : bool)
    (m : gmap string Agreement) : option Agreement :=
  match m !! id with
  | Some a => if visible protocol unarchived a then Some a else None
  | None => None
  end.

(** Modelled from the spec: [FindSingleByAgreementId(id, protocol, filters)],
    where the filters include [Unarchived]. *)
Definition FindSingleAgreementByAgreementId (id protocol : string) (unarchived : bool)
  : M (result (option Agreement)) :=
  storeRead (OpFindSingleAgreementByAgreementId id protocol unarchived)
    (fun w => lookupAgreement id protocol unarchived (agreements w)).

(** Modelled from the spec: [FindAgreements(filters, protocol)] with the
    predicate on [(device, policy_name)] that the upgrade handler passes. *)
Definition DevPolAFilter (device policyName : string) (a : Agreement) : bool :=
  bool_decide (DeviceId a = device) && bool_decide (PolicyName a = policyName).

Definition FindAgreements (device policyName protocol : string) : M (result (list Agreement)) :=
  storeRead (OpFindAgreements device policyName protocol)
    (fun w => List.filter
                (fun a => DevPolAFilter device policyName a && visible protocol false a)
                (map snd (map_to_list (agreements w)))).

Definition pendingAgreement (id org device policyName bcType bcName bcOrg protocol pattern : string)
  : Agreement :=
  mkAgreement id org device policyName "" "" protocol 0 pattern bcType bcName bcOrg ""
    Pending (now E) 0 0 0 0 false 0%N "".

(** Modelled from the spec: [AgreementAttempt] inserts a Pending record and
    fails if the id exists unarchived. *)
Definition AgreementAttempt (id org device policyName bcType bcName bcOrg protocol pattern nodeH : string)
  : M (result unit) :=
  writeAgreements (OpAgreementAttempt id org device policyName bcType bcName bcOrg protocol pattern nodeH)
    (fun m =>
       let m' := <[id := pendingAgreement id org device policyName bcType bcName bcOrg protocol pattern]> m in
       match m !! id with
       | Some a => if Archived a then Some (tt, m') else None
       | None => Some (tt, m')
       end).

(** Modelled from the spec: [DeleteAgreement] removes an unarchived
    record. *)
Definition DeleteAgreement (id protocol : string) : M (result unit) :=
  writeAgreements (OpDeleteAgreement id protocol)
    (fun m =>
       match lookupAgreement id protocol true m with
       | Some _ => Some (tt, delete id m)
       | None => None
       end).

(** An update of the one unarchived record of an agreement id. *)
Definition updateAgreement (op : StoreOp) (id protocol : string) (f : Agreement -> option Agreement)
  : M (result Agreement) :=
  writeAgreements op
    (fun m =>
       match lookupAgreement id protocol true m with
       | Some a =>
           match f a with
           | Some a' => Some (a', <[id := a']> m)
           | None => None
           end
       | None => None
       end).

Definition withProposal (proposal policy : string) (version : Z) (a : Agreement) : Agreement :=
  mkAgreement (CurrentAgreementId a) (Org a) (DeviceId a) (PolicyName a) policy proposal
    (AgreementProtocol a) version (Pattern a) (BlockchainType a)
    (BlockchainName a) (BlockchainOrg a) (CounterPartyAddress a)
    Proposed (created a) (now E) (replied a) (data_received a) (terminated a)
    (Archived a) (TerminatedReason a) (TerminatedDescription a).

Definition withReply (address : string) (version : Z) (a : Agreement) : Agreement :=
  mkAgreement (CurrentAgreementId a) (Org a) (DeviceId a) (PolicyName a) (AgPolicy a) (AgProposal a)
    (AgreementProtocol a) version (Pattern a) (BlockchainType a)
    (BlockchainName a) (BlockchainOrg a) address
    Replied (created a) (proposed a) (now E) (data_received a) (terminated a)
    (Archived a) (TerminatedReason a) (TerminatedDescription a).

Definition withData (a : Agreement) : Agreement :=
  mkAgreement (CurrentAgreementId a) (Org a) (DeviceId a) (PolicyName a) (AgPolicy a) (AgProposal a)
    (AgreementProtocol a) (AgreementProtocolVersion a) (Pattern a) (BlockchainType a)
    (BlockchainName a) (BlockchainOrg a) (CounterPartyAddress a)
    DataReceived (created a) (proposed a) (replied a) (now E) (terminated a)
    (Archived a) (TerminatedReason a) (TerminatedDescription a).

Definition withTimeout (a : Agreement) : Agreement :=
  mkAgreement (CurrentAgreementId a) (Org a) (DeviceId a) (PolicyName a) (AgPolicy a) (AgProposal a)
    (AgreementProtocol a) (AgreementProtocolVersion a) (Pattern a) (BlockchainType a)
    (BlockchainName a) (BlockchainOrg a) (CounterPartyAddress a)
    TimedOut (created a) (proposed a) (replied a) (data_received a) (now E)
    (Archived a) (TerminatedReason a) (TerminatedDescription a).

Definition withArchive (reason : N) (text : string) (a : Agreement) : Agreement :=
  mkAgreement (CurrentAgreementId a) (Org a) (DeviceId a) (PolicyName a) (AgPolicy a) (AgProposal a)
    (AgreementProtocol a) (AgreementProtocolVersion a) (Pattern a) (BlockchainType a)
    (BlockchainName a) (BlockchainOrg a) (CounterPartyAddress a)
    ArchivedState (created a) (proposed a) (replied a) (data_received a) (terminated a)
    true reason text.

(** Modelled from the spec: [AlreadyReceivedReply(agreement)] is true iff
    the [replied] timestamp is nonzero. *)
Definition AlreadyReceivedReply (a : Agreement) : bool :=
  negb (replied a =? 0)%Z.

(** Modelled from the spec: the agreement is updated with the proposal and
    the policy text captured at initiation, and becomes Proposed. *)
Definition PersistAgreement (wi : InitiateAgreement) (proposal : Proposal) : M (result Agreement) :=
  updateAgreement (OpPersistAgreement (PAgreementId proposal) (Name E)) (PAgreementId proposal) (Name E)
    (fun a => Some (withProposal (MarshalProposal E proposal) (MarshalPolicy E (ConsumerPolicy wi))
                      (PVersion proposal) a)).

(** Modelled from the spec: [PersistReply] records the counterparty address
    and the protocol version, moves the agreement to Replied, and rejects a
    second reply. *)
Definition PersistReply (reply : ProposalReply) : M (result Agreement) :=
  updateAgreement (OpPersistReply (AgreementId reply) (Name E) (RAddress reply) (RVersion reply))
    (AgreementId reply) (Name E)
    (fun a => if AlreadyReceivedReply a then None
              else Some (withReply (RAddress reply) (RVersion reply) a)).

(** Modelled from the spec: [DataNotification] records data receipt. *)
Definition DataNotification (id protocol : string) : M (result Agreement) :=
  updateAgreement (OpDataNotification id protocol) id protocol (fun a => Some (withData a)).

(** Modelled from the spec: [AgreementTimedout] sets [state = TimedOut] and
    [terminated = now]. *)
Definition AgreementTimedout (id protocol : string) : M (result Agreement) :=
  updateAgreement (OpAgreementTimedout id protocol) id protocol (fun a => Some (withTimeout a)).

(** Modelled from the spec: [ArchiveAgreement] sets [archived = true] and
    fills the termination reason. *)
Definition ArchiveAgreement (id protocol : string) (reason : N) (text : string) : M (result Agreement) :=
  updateAgreement (OpArchiveAgreement id protocol reason text) id protocol
    (fun a => Some (withArchive reason text a)).

(** Modelled from the spec: lookup of the one usage record of a composite
    key [(device, policy_name)]. *)
Definition FindSingleWorkloadUsageByDeviceAndPolicyName (device policyName : string)
  : M (result (option WorkloadUsage)) :=
  storeRead (OpFindSingleWorkloadUsageByDeviceAndPolicyName device policyName)
    (fun w => usages w !! (device, policyName)).

Definition newUsage (device : string) (partners : list string) (policy policyName : string)
    (priority retryDurationS verifiedDurationS : Z) (reqsNotMet : bool) (agid : string)
  : WorkloadUsage :=
  mkWorkloadUsage device partners policy policyName priority 0 retryDurationS verifiedDurationS
    (now E) false reqsNotMet agid.

(** Modelled from the spec: [NewWorkloadUsage] inserts the record of a
    composite key; there is at most one record per key, so it fails when
    one exists (as [AgreementAttempt] does for an agreement id). *)
Definition NewWorkloadUsage (device : string) (partners : list string) (policy policyName : string)
    (priority retryDurationS verifiedDurationS : Z) (reqsNotMet : bool) (agid : string)
  : M (result unit) :=
  writeUsages (OpNewWorkloadUsage device partners policy policyName priority retryDurationS
                 verifiedDurationS reqsNotMet agid)
    (fun m =>
       match m !! (device, policyName) with
       | Some _ => None
       | None =>
           Some (tt, <[(device, policyName) :=
                         newUsage device partners policy policyName priority retryDurationS
                           verifiedDurationS reqsNotMet agid]> m)
       end).

(** An update of the one usage record of a composite key; the updated
    record is returned. *)
Definition updateUsage (op : StoreOp) (device policyName : string) (f : WorkloadUsage -> WorkloadUsage)
  : M (result (option WorkloadUsage)) :=
  writeUsages op
    (fun m =>
       match m !! (device, policyName) with
       | Some u => Some (Some (f u), <[(device, policyName) := f u]> m)
       | None => None
       end).

Definition withPriority (priority retryDurationS verifiedDurationS : Z) (agid : string)
    (u : WorkloadUsage) : WorkloadUsage :=
  mkWorkloadUsage (UsDeviceId u) (HAPartners u) (UsPolicy u) (UsPolicyName u)
    priority 0 retryDurationS verifiedDurationS (now E)
    (DisableRetry u) (ReqsNotMet u) agid.

Definition withRetryCount (retryCount : Z) (agid : string) (u : WorkloadUsage) : WorkloadUsage :=
  mkWorkloadUsage (UsDeviceId u) (HAPartners u) (UsPolicy u) (UsPolicyName u)
    (UsPriority u) retryCount (UsRetryDurationS u) (UsVerifiedDurationS u) (FirstTryTime u)
    (DisableRetry u) (ReqsNotMet u) agid.

Definition withPolicy (policy : string) (u : WorkloadUsage) : WorkloadUsage :=
  mkWorkloadUsage (UsDeviceId u) (HAPartners u) policy (UsPolicyName u)
    (UsPriority u) (RetryCount u) (UsRetryDurationS u) (UsVerifiedDurationS u) (FirstTryTime u)
    (DisableRetry u) (ReqsNotMet u) (UsCurrentAgreementId u).

Definition withAgreementId (agid : string) (u : WorkloadUsage) : WorkloadUsage :=
  mkWorkloadUsage (UsDeviceId u) (HAPartners u) (UsPolicy u) (UsPolicyName u)
    (UsPriority u) (RetryCount u) (UsRetryDurationS u) (UsVerifiedDurationS u) (FirstTryTime u)
    (DisableRetry u) (ReqsNotMet u) agid.

(** Modelled from the spec: [UpdatePriority] updates the record's priority
    and timings and resets the retry accounting. *)
Definition UpdatePriority (device policyName : string) (priority retryDurationS verifiedDurationS : Z)
    (agid : string) : M (result (option WorkloadUsage)) :=
  updateUsage (OpUpdatePriority device policyName priority retryDurationS verifiedDurationS agid)
    device policyName (withPriority priority retryDurationS verifiedDurationS agid).

(** Modelled from the spec: [UpdateRetryCount] sets the retry count and the
    in-flight agreement id. *)
Definition UpdateRetryCount (device policyName : string) (retryCount : Z) (agid : string)
  : M (result (option WorkloadUsage)) :=
  updateUsage (OpUpdateRetryCount device policyName retryCount agid)
    device policyName (withRetryCount retryCount agid).

(** Modelled from the spec: [UpdatePolicy] fills the policy text. *)
Definition UpdatePolicy (device policyName policy : string) : M (result (option WorkloadUsage)) :=
  updateUsage (OpUpdatePolicy device policyName policy) device policyName (withPolicy policy).

(** Modelled from the spec: [UpdateWUAgreementId] sets the in-flight
    agreement id. *)
Definition UpdateWUAgreementId (device policyName agid : string) : M (result (option WorkloadUsage)) :=
  updateUsage (OpUpdateWUAgreementId device policyName agid) device policyName (withAgreementId agid).

(** Modelled from the spec: [DeleteWorkloadUsage] removes the record of the
    composite key, if there is one. *)
Definition DeleteWorkloadUsage (device policyName : string) : M (result unit) :=
  writeUsages (OpDeleteWorkloadUsage device policyName)
    (fun m => Some (tt, delete (device, policyName) m)).

(** ** Cancellation *)

Definition DoAsyncCancel (ag : Agreement) (reason : N) : M unit :=
  call (TerminateAgreement (CurrentAgreementId ag) reason).

Definition deferred (agreementId : string) (reason : N) : AsyncCancelAgreement :=
  mkAsyncCancelAgreement ASYNC_CANCEL agreementId (Name E) reason.

(** The condition under which [CancelAgreement] queues the deferred
    termination command. *)
Definition mustDefer (ag : Agreement) : bool :=
  (AgreementProtocolVersion ag <? 2)%Z
  || (negb (bool_decide (BlockchainType ag = ""))
      && negb (IsBlockchainWritable E (BlockchainType ag) (BlockchainName ag) (BlockchainOrg ag))).

(** The update of the workload usage record that clears the agreement
    (lines 604-616). *)
Definition detachUsage (ag : Agreement) : M unit :=
  u <- UpdateWUAgreementId (DeviceId ag) (PolicyName ag) "" ;;
  match u with
  | Err => ret tt
  | Good wlUsage =>
      if match wlUsage with Some wu => ReqsNotMet wu | None => false end
      then _ <- DeleteWorkloadUsage (DeviceId ag) (PolicyName ag) ;; ret tt
      else ret tt
  end.

(** The termination of an agreement that has a record (lines 603-641). *)
Definition terminateFound (agreementId : string) (reason : N) (ag : Agreement) : M unit :=
  detachUsage ag ;;;
  when (CanCancelNow E ag || bool_decide (CounterPartyAddress ag = ""))
    (DoAsyncCancel ag reason) ;;;
  when (mustDefer ag) (call (DeferCommand (deferred agreementId reason))) ;;;
  (* Archive the record *)
  _ <- ArchiveAgreement (CurrentAgreementId ag) (Name E) reason (GetTerminationReason E reason) ;;
  ret tt.

Definition CancelAgreement (agreementId : string) (reason : N) : M unit :=
  (* Update the database *)
  _ <- AgreementTimedout agreementId (Name E) ;;
  (* Update state in exchange *)
  call (DeleteConsumerAgreement agreementId) ;;;
  (* Find the agreement record *)
  r <- FindSingleAgreementByAgreementId agreementId (Name E) true ;;
  match r with
  | Err => ret tt
  | Good None => ret tt
  | Good (Some ag) => terminateFound agreementId reason ag
  end.

Definition CancelAgreementWithLock (agreementId : string) (reason : N) : M unit :=
  call (Lock agreementId) ;;;
  CancelAgreement agreementId reason ;;;
  call (Unlock agreementId) ;;;
  call (DeleteAgreementLock agreementId).

Definition ExternalCancel (agreementId : string) (reason : N) : M unit :=
  r <- FindSingleAgreementByAgreementId agreementId (Name E) false ;;
  match r with
  | Err => ret tt
  | Good None => ret tt
  | Good (Some ag) =>
      let '(bcType, bcName, bcOrg) := GetKnownBlockchain E ag in
      if IsBlockchainWritable E bcType bcName bcOrg
      then DoAsyncCancel ag reason
      else call (DeferCommand (deferred agreementId reason))
  end.

(** ** Reply handling *)

(** The local variables of [HandleAgreementReply]. *)
Record ReplyLocals := mkReplyLocals {
  deletedMessage : bool;
  droppedLock : bool;
  ackReplyAsValid : bool;
  sendReply : bool
}.

Definition replyLocals0 : ReplyLocals := mkReplyLocals false false false true.

(** Creation of the message target and the reply ack (lines 435-439 and
    463-467): nothing is sent when the target cannot be created. *)
Definition sendAck (wi : HandleReply) (accepted : bool) : M unit :=
  match CreateMessageTarget E (SenderId wi) (SenderPubKey wi) (From wi) with
  | Err => ret tt
  | Good mt => call (Confirm accepted (AgreementId (Reply wi)) mt)
  end.

(** Workload usage reconciliation (lines 397-431); the value is
    [ackReplyAsValid]. *)
Definition reconcileUsage (wi : HandleReply) (agreement : Agreement) (pol consumerPolicy : Policy)
  : M bool :=
  r <- FindSingleWorkloadUsageByDeviceAndPolicyName (SenderId wi) (HeaderName consumerPolicy) ;;
  match r with
  | Err => ret true
  | Good None =>
      match NextHighestPriorityWorkload E consumerPolicy 0 0 0 with
      | None => panic
      | Some i =>
          match Workloads consumerPolicy !! i, Workloads pol with
          | Some workload, w0 :: _ =>
              if negb (IsSame E (Priority workload) (Priority w0)) then ret false
              else if negb (HasEmptyPriority E w0) then
                _ <- NewWorkloadUsage (SenderId wi) (Partners pol) (AgPolicy agreement)
                       (HeaderName consumerPolicy) (PriorityValue (Priority w0))
                       (RetryDurationS (Priority w0)) (VerifiedDurationS (Priority w0))
                       false (AgreementId (Reply wi)) ;;
                ret true
              else ret true
          | _, _ => panic
          end
      end
  | Good (Some wlUsage) =>
      when (bool_decide (UsPolicy wlUsage = ""))
        (_ <- UpdatePolicy (SenderId wi) (HeaderName consumerPolicy) (AgPolicy agreement) ;; ret tt) ;;;
      (if negb (DisableRetry wlUsage) then
         match Workloads pol with
         | w0 :: _ =>
             if negb (bool_decide (PriorityValue (Priority w0) = UsPriority wlUsage)) then
               _ <- UpdatePriority (SenderId wi) (HeaderName consumerPolicy)
                      (PriorityValue (Priority w0)) (RetryDurationS (Priority w0))
                      (VerifiedDurationS (Priority w0)) (AgreementId (Reply wi)) ;;
               ret tt
             else
               _ <- UpdateRetryCount (SenderId wi) (HeaderName consumerPolicy)
                      (int_add (RetryCount wlUsage) 1) (AgreementId (Reply wi)) ;;
               ret tt
         | [] => panic
         end
       else
         _ <- UpdateWUAgreementId (SenderId wi) (HeaderName consumerPolicy) (AgreementId (Reply wi)) ;;
         ret tt) ;;;
      ret true
  end.

(** The lookup and validation of a reply with a positive decision, with the
    updates of the store (lines 365-431); the value is the pair of
    [ackReplyAsValid] and [sendReply]. *)
Definition validateReply (wi : HandleReply) : M (bool * bool) :=
  let reply := Reply wi in
  r <- FindSingleAgreementByAgreementId (AgreementId reply) (Name E) true ;;
  match r with
  | Err => ret (false, true)
  | Good None => ret (false, true)
  | Good (Some agreement) =>
      if AlreadyReceivedReply agreement then
        (* this will cause us to not send a reply ack *)
        ret (false, false)
      else
        match DemarshalProposal E (AgProposal agreement) with
        | Err => ret (false, true)
        | Good proposal =>
            match DemarshalPolicy E (TsAndCs proposal) with
            | Err => ret (false, true)
            | Good pol =>
                p <- PersistReply reply ;;
                match p with
                | Err => ret (false, true)
                | Good _ =>
                    call (RecordConsumerAgreementState (AgreementId reply) "Producer agreed") ;;;
                    match RecordConsumerAgreementStateResult E (AgreementId reply) "Producer agreed" with
                    | Err => ret (false, true)
                    | Good _ =>
                        match DemarshalPolicy E (AgPolicy agreement) with
                        | Err => ret (false, true)
                        | Good consumerPolicy =>
                            valid <- reconcileUsage wi agreement pol consumerPolicy ;;
                            ret (valid, true)
                        end
                    end
                end
            end
        end
  end.

(** The ack of a reply that is still valid, the deletion of the message, the
    release of the lock and the blockchain write (lines 434-458). *)
Definition ackAndCommit (wi : HandleReply) : M ReplyLocals :=
  let id := AgreementId (Reply wi) in
  sendAck wi true ;;;
  (* Delete the original reply message *)
  when (negb (MessageId wi =? 0)%Z) (call (DeleteMessage (MessageId wi))) ;;;
  call (Unlock id) ;;;
  call (PostReply id) ;;;
  match PostReplyResult E id with
  | Err =>
      CancelAgreementWithLock id (GetTerminationCode E TERM_REASON_CANCEL_BC_WRITE_FAILED) ;;;
      ret (mkReplyLocals true true false true)
  | Good _ => ret (mkReplyLocals true true true true)
  end.

(** The handling of a reply with a positive decision, up to the ack for a
    reply that is not valid (lines 365-459). *)
Definition positiveReply (wi : HandleReply) : M ReplyLocals :=
  v <- validateReply wi ;;
  if fst v then ackAndCommit wi
  else ret (mkReplyLocals false false false (snd v)).

Definition HandleAgreementReply (wi : HandleReply) : M bool :=
  let reply := Reply wi in
  call (Lock (AgreementId reply)) ;;;
  l <- (if ProposalAccepted reply then
          l <- positiveReply wi ;;
          (* Always send an ack for a reply with a positive decision in it *)
          when (negb (ackReplyAsValid l) && sendReply l) (sendAck wi false) ;;;
          ret l
        else
          CancelAgreement (AgreementId reply) (GetTerminationCode E TERM_REASON_NEGATIVE_REPLY) ;;;
          ret replyLocals0) ;;
  (* Get rid of the lock *)
  when (negb (droppedLock l)) (call (Unlock (AgreementId reply))) ;;;
  (* Get rid of the exchange message if there is one *)
  when (negb (MessageId wi =? 0)%Z && negb (deletedMessage l)) (call (DeleteMessage (MessageId wi))) ;;;
  ret (ackReplyAsValid l).

(** ** Data received ack and workload upgrade *)

Definition HandleDataReceivedAck (wi : HandleDataReceivedAckWork) : M unit :=
  match ValidateDataReceivedAck E (Ack wi) with
  | Err => ret tt
  | Good None => ret tt
  | Good (Some agid) =>
      call (Lock agid) ;;;
      r <- FindSingleAgreementByAgreementId agid (Name E) true ;;
      match r with
      | Err => ret tt
      | Good None => ret tt
      | Good (Some ag) => _ <- DataNotification (CurrentAgreementId ag) (Name E) ;; ret tt
      end ;;;
      call (Unlock agid)
  end ;;;
  when (negb (AMessageId wi =? 0)%Z) (call (DeleteMessage (AMessageId wi))).

Fixpoint forEach {A} (l : list A) (f : A -> M unit) : M unit :=
  match l with
  | [] => ret tt
  | a :: l' => f a ;;; forEach l' f
  end.

Definition HandleWorkloadUpgrade (wi : HandleWorkloadUpgradeWork) : M unit :=
  (if bool_decide (UAgreementId wi = "") then
     r <- FindAgreements (UDevice wi) (UPolicyName wi) (Name E) ;;
     match r with
     | Err => ret tt
     | Good ags =>
         (* Cancel all agreements *)
         forEach ags (fun ag =>
           CancelAgreementWithLock (CurrentAgreementId ag)
             (GetTerminationCode E TERM_REASON_CANCEL_FORCED_UPGRADE))
     end
   else
     CancelAgreementWithLock (UAgreementId wi)
       (GetTerminationCode E TERM_REASON_CANCEL_FORCED_UPGRADE)) ;;;
  (* Find the workload usage record and delete it. *)
  _ <- DeleteWorkloadUsage (UDevice wi) (UPolicyName wi) ;;
  ret tt.

(** ** Initiation of an agreement *)

(** The [workload] the loop works on next (lines 183-192). *)
Definition chooseWorkload (wi : InitiateAgreement) : M (option nat) :=
  r <- FindSingleWorkloadUsageByDeviceAndPolicyName (Id (IDevice wi)) (HeaderName (ConsumerPolicy wi)) ;;
  match r with
  | Err => exit
  | Good None => ret (NextHighestPriorityWorkload E (ConsumerPolicy wi) 0 0 0)
  | Good (Some wlUsage) =>
      if DisableRetry wlUsage
      then ret (NextHighestPriorityWorkload E (ConsumerPolicy wi)
                  (UsPriority wlUsage) 0 (FirstTryTime wlUsage))
      else ret (NextHighestPriorityWorkload E (ConsumerPolicy wi)
                  (UsPriority wlUsage) (int_add (RetryCount wlUsage) 1) (FirstTryTime wlUsage))
  end.

(** The device's microservice definition for an API spec of the workload:
    the first one whose url is the spec reference. *)
Fixpoint findMicroservice (ms : list Microservice) (specRef : string) : option Microservice :=
  match ms with
  | [] => None
  | devMS :: ms' => if bool_decide (MUrl devMS = specRef) then Some devMS else findMicroservice ms' specRef
  end.

(** The loop over the API specs of the workload details (lines 219-242):
    the list of specs in policy form and the merged producer policy. *)
Fixpoint mergeProducers (patterned : bool) (ms : list Microservice) (specs : list APISpec)
    (asl : APISpecList) (mergedProducer : option Policy) : M (APISpecList * option Policy) :=
  match specs with
  | [] => ret (asl, mergedProducer)
  | apiSpec :: specs' =>
      let asl' := asl ++ [APISpecification_Factory E (ASpecRef apiSpec) (AOrg apiSpec)
                            (AVersion apiSpec) (AArch apiSpec)] in
      if patterned then
        match findMicroservice ms (ASpecRef apiSpec) with
        | None => mergeProducers patterned ms specs' asl' mergedProducer
        | Some devMS =>
            match DemarshalPolicy E (MPolicy devMS) with
            | Err => exit
            | Good pol =>
                match mergedProducer with
                | None => mergeProducers patterned ms specs' asl' (Some pol)
                | Some merged =>
                    match Are_Compatible_Producers E merged pol (NoDataIntervalS E) with
                    | Err => exit
                    | Good newPolicy => mergeProducers patterned ms specs' asl' (Some newPolicy)
                    end
                end
            end
        end
      else mergeProducers patterned ms specs' asl' mergedProducer
  end.

Definition withProducerPolicy (p : Policy) (wi : InitiateAgreement) : InitiateAgreement :=
  mkInitiateAgreement p (OriginalProducerPolicy wi) (ConsumerPolicy wi) (IOrg wi) (IDevice wi).

Definition withConsumerPolicy (p : Policy) (wi : InitiateAgreement) : InitiateAgreement :=
  mkInitiateAgreement (ProducerPolicy wi) (OriginalProducerPolicy wi) p (IOrg wi) (IDevice wi).

Definition withDeployment (d : WorkloadDeployment) (torr : Torrent) (wl : Workload) : Workload :=
  mkWorkload (DDeployment d) (DDeploymentSignature d) torr (Priority wl)
    (WorkloadURL wl) (WOrg wl) (WVersion wl) (WArch wl).

(** The consumer policy augmented with the workload details: the API specs
    and, in place, the chosen workload. *)
Definition augmented (asl : APISpecList) (i : nat) (wl : Workload) (p : Policy) : Policy :=
  mkPolicy (HeaderName p) (PatternId p) asl (<[i := wl]> (Workloads p))
    (Partners p) (Properties p) (NodeH p).

Definition emptyTorrent : Torrent := mkTorrent "" "".

(** The work item once the producer policy is replaced by the merged
    policy of the microservices (lines 244-247). *)
Definition withMerged (patterned : bool) (mergedProducer : option Policy) (wi : InitiateAgreement)
  : InitiateAgreement :=
  match mergedProducer with
  | Some merged => if patterned then withProducerPolicy merged wi else wi
  | None => wi
  end.

(** The variables of the selection loop. *)
Record Selection := mkSelection {
  item : InitiateAgreement;
  foundWorkload : bool;
  workload : option nat;
  lastWorkload : option nat
}.

(** One iteration of the loop [for !foundWorkload] (lines 183-298). *)
Definition selectStep (agreementIdString : string) (ms : list Microservice) (s : Selection)
  : M Selection :=
  let wi := item s in
  let device := Id (IDevice wi) in
  let policyName := HeaderName (ConsumerPolicy wi) in
  let patterned := negb (bool_decide (PatternId (ConsumerPolicy wi) = "")) in
  chosen <- chooseWorkload wi ;;
  (* If we chose the same workload 2 times in a row through this loop, then
     we need to exit out of here *)
  if bool_decide (lastWorkload s = chosen) then
    _ <- DeleteWorkloadUsage device policyName ;;
    exit
  else
    match chosen with
    | None => panic
    | Some i =>
        match Workloads (ConsumerPolicy wi) !! i with
        | None => panic
        | Some wl =>
            match GetWorkload E (WorkloadURL wl) (WOrg wl) (WVersion wl) (WArch wl) with
            | Err => exit
            | Good None => exit
            | Good (Some workloadDetails) =>
                r <- mergeProducers patterned ms (DAPISpecs workloadDetails) [] None ;;
                let '(asl, mergedProducer) := r in
                (* Update the producer policy with a real merged policy *)
                let wi1 := withMerged patterned mergedProducer wi in
                if negb (Supports E (APISpecs (ProducerPolicy wi1)) asl) then
                  (if negb (HasEmptyPriority E wl) then
                     (* If this is not the first time through the loop, update
                        the workload usage record, otherwise create it. *)
                     match lastWorkload s with
                     | Some _ =>
                         u <- UpdatePriority device policyName (PriorityValue (Priority wl))
                                (RetryDurationS (Priority wl)) (VerifiedDurationS (Priority wl))
                                agreementIdString ;;
                         match u with Err => exit | Good _ => ret tt end
                     | None =>
                         u <- NewWorkloadUsage device (Partners (ProducerPolicy wi1)) "" policyName
                                (PriorityValue (Priority wl)) (RetryDurationS (Priority wl))
                                (VerifiedDurationS (Priority wl)) true agreementIdString ;;
                         match u with Err => exit | Good _ => ret tt end
                     end ;;;
                     (* Artificially bump up the retry count so that the loop
                        will choose the next workload *)
                     u <- UpdateRetryCount device policyName (int_add (Retries (Priority wl)) 1)
                            agreementIdString ;;
                     match u with Err => exit | Good _ => ret tt end
                   else ret tt) ;;;
                  ret (mkSelection wi1 false chosen chosen)
                else
                  match DWorkloads workloadDetails with
                  | [] => panic
                  | d0 :: _ =>
                      torr <- (if negb (bool_decide (DTorrent d0 = "")) then
                                 match UnmarshalTorrent E (DTorrent d0) with
                                 | Err => exit
                                 | Good t => ret t
                                 end
                               else ret emptyTorrent) ;;
                      ret (mkSelection
                             (withConsumerPolicy
                                (augmented asl i (withDeployment d0 torr wl) (ConsumerPolicy wi1)) wi1)
                             true chosen chosen)
                  end
            end
        end
    end.

(** The loop [for !foundWorkload]. *)
Fixpoint selectLoop (fuel : nat) (agreementIdString : string) (ms : list Microservice)
    (s : Selection) : M Selection :=
  if foundWorkload s then ret s
  else
    match fuel with
    | O => outOfFuel
    | S fuel' =>
        s' <- selectStep agreementIdString ms s ;;
        selectLoop fuel' agreementIdString ms s'
    end.

Definition isErr {A} (r : result A) : bool :=
  match r with Err => true | Good _ => false end.

(** Whether some declared HA partner is not registered in the exchange. *)
Definition incompleteHAGroup (producerPolicy : Policy) : bool :=
  existsb (fun partnerId => isErr (GetDevice E partnerId)) (Partners producerPolicy).

(** Legacy function. Ignore devices that export specificly known configured
    properties. *)
Definition ignoreDevice (pol : Policy) : bool :=
  existsb (fun prop => listContains E (IgnoreContractWithAttribs E) (PName prop)) (Properties pol).

(** The end of [InitiateNewAgreement], once a workload is found (lines
    301-339). *)
Definition proposeAgreement (agreementIdString bcType bcName bcOrg : string) (s : Selection)
  : M unit :=
  let wi := item s in
  if incompleteHAGroup (ProducerPolicy wi) then exit
  else if ignoreDevice (ProducerPolicy wi) then exit
  else
    (* Create pending agreement in database *)
    a <- AgreementAttempt agreementIdString (IOrg wi) (Id (IDevice wi))
           (HeaderName (ConsumerPolicy wi)) bcType bcName bcOrg (Name E)
           (PatternId (ConsumerPolicy wi)) (NodeH (ConsumerPolicy wi)) ;;
    match a with
    | Err => ret tt
    | Good _ =>
        (* Create message target for protocol message *)
        match CreateMessageTarget E (Id (IDevice wi)) (PublicKey (IDevice wi))
                (MsgEndPoint (IDevice wi)) with
        | Err => ret tt
        | Good mt =>
            (* Initiate the protocol *)
            call (ProtocolInitiate agreementIdString (workload s)) ;;;
            match ProtocolInitiateAgreement E agreementIdString (ProducerPolicy wi)
                    (ConsumerPolicy wi) (workload s) with
            | Err =>
                (* Remove pending agreement from database *)
                _ <- DeleteAgreement agreementIdString (Name E) ;;
                ret tt
            | Good proposal =>
                (* Update the agreement in the DB with the proposal and policy *)
                _ <- PersistAgreement wi proposal ;;
                ret tt
            end
        end
    end.

(** The policies of the microservices of the device, which the exchange is
    asked for when the consumer policy belongs to a pattern (lines
    161-172). *)
Definition deviceMicroservices (wi : InitiateAgreement) : M (list Microservice) :=
  if negb (bool_decide (PatternId (ConsumerPolicy wi) = "")) then
    match GetDevice E (Id (IDevice wi)) with
    | Err => exit
    | Good theDev => ret (RegisteredMicroservices theDev)
    end
  else ret [].

(** The choice of a workload that the device supports (lines 161-299). *)
Definition selectWorkload (fuel : nat) (agreementIdString : string) (wi : InitiateAgreement)
  : M Selection :=
  ms <- deviceMicroservices wi ;;
  selectLoop fuel agreementIdString ms (mkSelection wi false None None).

Definition InitiateNewAgreement (fuel : nat) (wi : InitiateAgreement) : M unit :=
  (* Generate an agreement ID *)
  match GenerateAgreementId E with
  | Err => ret tt
  | Good agreementIdString =>
      let '(bcType, bcName, bcOrg) := RequiresKnownBC E (ProducerPolicy wi) (Name E) in
      (* Use the blockchain name to choose the handler *)
      if negb (AgreementProtocolHandler E bcType bcName bcOrg) then ret tt
      else
        call (Lock agreementIdString) ;;;
        defer (Unlock agreementIdString)
          (callee
             (s <- selectWorkload fuel agreementIdString wi ;;
              proposeAgreement agreementIdString bcType bcName bcOrg s))
  end.

End Worker.

(** * The workload resource of the command line

    The two pure methods of [WorkloadInput] in package [cli/exchange]
    ([workload.go]): the defaults of the user inputs of a workload
    definition, added to the environment of a container, and the lookup of
    the type of a variable. *)

Module cliexchange.

(** A user input of a workload definition ([exchange.UserInput]), with the
    fields that the two methods read.  [Type_] is the field [Type]. *)
Record UserInput := mkUserInput {
  Name : string;
  Type_ : string;
  DefaultValue : string
}.

(** This is used as the input to the exchange to create the workload. *)
Record WorkloadInput := mkWorkloadInput {
  Label : string;
  Description : string;
  Public : bool;
  WorkloadURL : string;
  Version : string;
  Arch : string;
  DownloadURL : string;
  APISpecs : list APISpec;
  UserInputs : list UserInput;
  Workloads : list WorkloadDeployment
}.

(** The body of the loop of [AddDefaultUserInputs]: the map is a Go map,
    changed in place; here the changed map is the result. *)
Definition addDefault (envmap : gmap string string) (ui : UserInput) : gmap string string :=
  if negb (bool_decide (Name ui = "")) && negb (bool_decide (DefaultValue ui = "")) then
    match envmap !! Name ui with
    | Some _ => envmap
    | None => <[Name ui := DefaultValue ui]> envmap
    end
  else envmap.

(** Convert default user inputs to environment variables in a map. The
    input map is modified by this function. If a variable is already in the
    input map, it is not modified. *)
Definition AddDefaultUserInputs (w : WorkloadInput) (envmap : gmap string string)
  : gmap string string :=
  foldl addDefault envmap (UserInputs w).

(** The user inputs that give the variable [k] a default: those named [k]
    with a default, where neither the name nor the default is empty. *)
Definition givesDefault (k : string) (ui : UserInput) : bool :=
  bool_decide (Name ui = k) && negb (bool_decide (Name ui = ""))
  && negb (bool_decide (DefaultValue ui = "")).

(** The user inputs that define the type of the variable [name]. *)
Definition givesType (name : string) (ui : UserInput) : bool :=
  bool_decide (Name ui = name) && negb (bool_decide (Type_ ui = "")).

(** The loop of [DefinesVariable], which returns from inside the loop. *)
Fixpoint definedType (uis : list UserInput) (name : string) : string :=
  match uis with
  | [] => ""
  | ui :: uis' =>
      if bool_decide (Name ui = name) && negb (bool_decide (Type_ ui = "")) then Type_ ui
      else definedType uis' name
  end.

(** Returns true if the workload definition userinputs define the
    variable. *)
Definition DefinesVariable (w : WorkloadInput) (name : string) : string :=
  definedType (UserInputs w) name.

End cliexchange.

(** * The registry of the ethereum blockchain worker

    The functions of [EthBlockchainWorker] (package [ethblockchain],
    [blockchainworker.go]) that keep the two maps of the worker: the state
    of the blockchain instances it manages, and the blockchains that were
    reported as needed.  The worker is single threaded; its fields are
    changed in place, here the changed worker is the result.  A send on a
    channel appends to the queue of the channel. *)

Module ethblockchain.

(** Go's [uint64] addition wraps around. *)
Definition uint64_add (a b : Z) : Z := ((a + b) mod 2 ^ 64)%Z.

(** This object holds the state of all BC instances that this worker is
    managing.  The two pointers [bc] and [el] are modelled by whether they
    are set. *)
Record BCInstanceState := mkBCInstanceState {
  bc : bool;
  el : bool;
  started : bool;
  needsRestart : bool;
  notifiedReady : bool;
  notifiedFunded : bool;
  name : string;
  org : string;
  serviceName : string;
  servicePort : string;
  colonusDir : string;
  metadataHash : list Z
}.

(** The value of [new(BCInstanceState)] with its name and org set. *)
Definition newInstance (name org : string) : BCInstanceState :=
  mkBCInstanceState false false false false false false name org "" "" "" [].

(** The command that [NewNewClientCommand] makes from the message of
    [events.NewNewBCContainerMessage]: the package [events] is outside
    these sources, so the command is kept as the arguments that the worker
    passes after the event [NEW_BC_CLIENT] and the type [policy.Ethereum_bc]. *)
Record NewClientCommand := mkNewClientCommand {
  Instance : string;
  CmdOrg : string;
  ExchangeURL : string;
  ExchangeId : string;
  ExchangeToken : string
}.

(** The arguments that the worker passes to
    [events.NewContainerStopMessage] after the event [CONTAINER_STOPPING]. *)
Record ContainerStopMessage := mkContainerStopMessage {
  StopContainerName : string;
  StopOrg : string
}.

(** The fields of the message of a [ContainerShutdownCommand] that the
    worker reads. *)
Record ContainerShutdownCommand := mkContainerShutdownCommand {
  ContainerName : string;
  Org : string
}.

Record EthBlockchainWorker := mkEthBlockchainWorker {
  exchangeURL : string;
  exchangeId : string;
  exchangeToken : string;
  horizonPubKeyFile : string;
  instances : gmap string BCInstanceState;
  neededBCs : gmap string (gmap string Z);
  Commands : list NewClientCommand;
  Messages : list ContainerStopMessage
}.

Definition setInstances (m : gmap string BCInstanceState) (w : EthBlockchainWorker)
  : EthBlockchainWorker :=
  mkEthBlockchainWorker (exchangeURL w) (exchangeId w) (exchangeToken w) (horizonPubKeyFile w)
    m (neededBCs w) (Commands w) (Messages w).

Definition setNeededBCs (m : gmap string (gmap string Z)) (w : EthBlockchainWorker)
  : EthBlockchainWorker :=
  mkEthBlockchainWorker (exchangeURL w) (exchangeId w) (exchangeToken w) (horizonPubKeyFile w)
    (instances w) m (Commands w) (Messages w).

Definition sendCommand (c : NewClientCommand) (w : EthBlockchainWorker) : EthBlockchainWorker :=
  mkEthBlockchainWorker (exchangeURL w) (exchangeId w) (exchangeToken w) (horizonPubKeyFile w)
    (instances w) (neededBCs w) (Commands w ++ [c]) (Messages w).

Definition sendMessage (m : ContainerStopMessage) (w : EthBlockchainWorker) : EthBlockchainWorker :=
  mkEthBlockchainWorker (exchangeURL w) (exchangeId w) (exchangeToken w) (horizonPubKeyFile w)
    (instances w) (neededBCs w) (Commands w) (Messages w ++ [m]).

(** The new state is returned and kept in the map; [None] is the nil
    pointer, returned when the instance is already there. *)
Definition NewBCInstanceState (name org : string) (w : EthBlockchainWorker)
  : option BCInstanceState * EthBlockchainWorker :=
  match instances w !! name with
  | Some _ => (None, w)
  | None =>
      let i := newInstance name org in
      (Some i, setInstances (<[name := i]> (instances w)) w)
  end.

Definition SetInstanceNotStarted (name : string) (w : EthBlockchainWorker) : EthBlockchainWorker :=
  match instances w !! name with
  | Some i =>
      setInstances
        (<[name := mkBCInstanceState (bc i) (el i) false false (notifiedReady i) (notifiedFunded i)
                     (ethblockchain.name i) (org i) (serviceName i) (servicePort i)
                     (colonusDir i) (metadataHash i)]> (instances w)) w
  | None => w
  end.

Definition SetServiceStarted (name serviceName servicePort : string) (w : EthBlockchainWorker)
  : EthBlockchainWorker :=
  match instances w !! name with
  | Some i =>
      setInstances
        (<[name := mkBCInstanceState (bc i) (el i) (started i) (needsRestart i) (notifiedReady i)
                     (notifiedFunded i) (ethblockchain.name i) (org i) serviceName servicePort
                     (colonusDir i) (metadataHash i)]> (instances w)) w
  | None => w
  end.

Definition SetColonusDir (name dir : string) (w : EthBlockchainWorker) : EthBlockchainWorker :=
  match instances w !! name with
  | Some i =>
      setInstances
        (<[name := mkBCInstanceState (bc i) (el i) (started i) (needsRestart i) (notifiedReady i)
                     (notifiedFunded i) (ethblockchain.name i) (org i) (ethblockchain.serviceName i)
                     (ethblockchain.servicePort i) dir (metadataHash i)]> (instances w)) w
  | None => w
  end.

Definition DeleteBCInstance (name : string) (w : EthBlockchainWorker) : EthBlockchainWorker :=
  match instances w !! name with
  | Some _ => setInstances (delete name (instances w)) w
  | None => w
  end.

(** [now] is the value of [uint64(time.Now().Unix())] if the function
    reads the clock, which it does at most once. *)
Definition NeedContainer (now : Z) (org name : string) (w : EthBlockchainWorker) : bool :=
  match neededBCs w !! org with
  | None => false
  | Some names =>
      match names !! name with
      | Some ts => (ts =? 0)%Z || (now <=? uint64_add ts 300)%Z
      | None => true
      end
  end.

Definition RestartContainer (now : Z) (cmd : ContainerShutdownCommand) (w : EthBlockchainWorker)
  : EthBlockchainWorker :=
  if negb (NeedContainer now (ContainerName cmd) (Org cmd) w) then w
  else
    match instances w !! ContainerName cmd with
    | Some _ =>
        (* Remove the old state from the last instance of the container *)
        let w1 :=
          setInstances
            (<[ContainerName cmd := newInstance (ContainerName cmd) (Org cmd)]> (instances w)) w in
        (* Create a new eth container message to begin the process of
           loading the eth container *)
        sendCommand
          (mkNewClientCommand (ContainerName cmd) (Org cmd) (exchangeURL w) (exchangeId w)
             (exchangeToken w)) w1
    | None => w
    end.

(** The body of the inner loop of [UpdatedNeededBlockchains]. *)
Definition markNeeded (ts : Z) (org name : string) (m : gmap string (gmap string Z))
  : gmap string (gmap string Z) :=
  let m1 := match m !! org with
            | Some _ => m
            | None => <[org := ∅]> m
            end in
  <[org := <[name := ts]> (default ∅ (m1 !! org))]> m1.

(** The two loops of [UpdatedNeededBlockchains] over the map of the
    message, in the order in which Go happens to range over it ([now org
    name] is the clock at the iteration for that blockchain; the values of
    the inner maps are not read). *)
Definition markAll {V} (now : string -> string -> Z) (needed : list (string * list (string * V)))
    (m : gmap string (gmap string Z)) : gmap string (gmap string Z) :=
  foldl (fun m '(org, nameMap) =>
           foldl (fun m '(name, _) => markNeeded (now org name) org name m) m nameMap)
    m needed.

Definition UpdatedNeededBlockchains {V} (now : string -> string -> Z)
    (needed : gmap string (gmap string V)) (w : EthBlockchainWorker) : EthBlockchainWorker :=
  setNeededBCs
    (markAll now (map_to_list (map_to_list <$> needed)) (neededBCs w)) w.

(** This function stops all running blockchain containers.  The messages
    are sent in the order in which Go happens to range over the map. *)
Definition StopAllBlockchains (w : EthBlockchainWorker) : EthBlockchainWorker :=
  (* Clear out the list of needed containers. *)
  let w1 := setNeededBCs ∅ w in
  (* For each container, tell the container worker to get rid of it. *)
  foldl (fun w '(name, i) => sendMessage (mkContainerStopMessage name (org i)) w)
    w1 (map_to_list (instances w1)).

(** Verify that all the containers are stopped. *)
Definition AllBlockchainContainersStopped (w : EthBlockchainWorker) : bool :=
  bool_decide (size (instances w) = 0%nat).

(** Every instance is kept under its own name. *)
Definition keyedByName (w : EthBlockchainWorker) : Prop :=
  forall k i, instances w !! k = Some i -> name i = k.

(** The blockchains of a report. *)
Definition reported {V} (needed : gmap string (gmap string V)) (org name : string) : Prop :=
  exists names, needed !! org = Some names /\ is_Some (names !! name).

(** The instances are the same ones: the same names are registered, each
    with its name and org as before. *)
Definition sameInstances (w w' : EthBlockchainWorker) : Prop :=
  forall k, option_Forall2 (fun i i' => name i' = name i /\ org i' = org i)
              (instances w !! k) (instances w' !! k).

(** The timestamp of the last report of a blockchain as needed. *)
Definition neededSince (w : EthBlockchainWorker) (org name : string) : option Z :=
  neededBCs w !! org ≫= (.!! name).

End ethblockchain.

(** * The pull of the images of a deployment

    [pullImageFromRepos] of package [torrent] ([imagepull.go]).  What the
    function reads from outside is an argument: whether the default
    credentials file is there, what the reading of a credentials file
    gives, and the docker client, whose answer to a pull may depend on all
    that happened before.  The pulls and the sleeps are recorded in order. *)

Module torrent.
Import Stdlib.Strings.Ascii.

Definition pullAttemptDelayS : Z := 15.
Definition maxPullAttempts : Z := 3.

(** Go's [strings.Split(s, sep)] for a separator of one character: the
    pieces of [s] between the separators, at least one piece. *)
Fixpoint Split (s : string) (sep : ascii) : list string :=
  match s with
  | EmptyString => [EmptyString]
  | String c s' =>
      if Ascii.eqb c sep then EmptyString :: Split s' sep
      else
        match Split s' sep with
        | piece :: pieces => String c piece :: pieces
        | [] => [String c EmptyString]
        end
  end.

(** Go's [strings.Contains(s, substr)]. *)
Definition Contains (s substr : string) : bool :=
  match String.index 0 substr s with
  | Some _ => true
  | None => false
  end.

(** The fields of [docker.PullImageOptions] that the function sets. *)
Record PullImageOptions := mkPullImageOptions {
  Repository : string;
  Tag : string
}.

(** The errors by their dynamic type: [*docker.Error], the
    [fetcherrors.PkgSourceFetchAuthError] that the function makes, and any
    other type. *)
Inductive error :=
| DockerError (Status : Z) (Message : string)
| PkgSourceFetchAuthError (Msg : string) (InternalError : error)
| OtherError (text : string).

(** The field of a service of the deployment description that the function
    reads. *)
Record Service := mkService {
  Image : string
}.

(** How the function ends: it returns an error or nil, or it panics on an
    index out of range; [NoFuel] is not an end of the function but of the
    fuel of the model. *)
Inductive Result :=
| Returns (err : option error)
| IndexOutOfRange
| NoFuel.

Section Pull.

(** [docker.AuthConfiguration] and its zero value. *)
Context {AuthConfiguration : Type} (noAuth : AuthConfiguration).

Inductive Event :=
| PullImage (opts : PullImageOptions) (auth : AuthConfiguration) (err : option error)
| Sleep (seconds : Z).

(** The answer of [client.PullImage], given what happened so far. *)
Definition Client : Type :=
  list Event -> PullImageOptions -> AuthConfiguration -> option error.

Record PullRun := mkPullRun {
  result : Result;
  Configs : gmap string AuthConfiguration;
  trace : list Event
}.

(** The error that the function returns after the last attempt;
    [pullAttempts] is [maxPullAttempts] there, which [%d] prints as 3. *)
Definition lastError (image : string) (err : error) : error :=
  let msg := "Max pull attempts reached (3). Aborting fetch of Docker image " +:+ image in
  match err with
  | DockerError status message =>
      if (status =? 500)%Z && Contains message "cred" then PkgSourceFetchAuthError msg err
      else err
  | _ => err
  end.

(** The loop [for pullAttempts <= maxPullAttempts]: [None] when the loop is
    left, [Some r] when the function returns from inside the loop. *)
Fixpoint pullLoop (fuel : nat) (client : Client) (image : string) (opts : PullImageOptions)
    (auth : AuthConfiguration) (pullAttempts : Z) (trace : list Event)
  : option Result * list Event :=
  match fuel with
  | O => (Some NoFuel, trace)
  | S fuel =>
      if (pullAttempts <=? maxPullAttempts)%Z then
        match client trace opts auth with
        | None => (None, trace ++ [PullImage opts auth None])
        | Some err =>
            let trace := trace ++ [PullImage opts auth (Some err)] in
            let pullAttempts := int_add pullAttempts 1 in
            if negb (pullAttempts =? maxPullAttempts)%Z then
              pullLoop fuel client image opts auth pullAttempts
                (trace ++ [Sleep pullAttemptDelayS])
            else (Some (Returns (Some (lastError image err))), trace)
        end
      else (None, trace)
  end.

(** The loop over the credentials that chooses the ones of a pull. *)
Definition chooseAuth (configs : gmap string AuthConfiguration) (repository : string)
  : AuthConfiguration :=
  foldl (fun auth '(domainName, creds) =>
           match Split repository "/"%char with
           | repName0 :: _ => if bool_decide (repName0 = domainName) then creds else auth
           | [] => auth
           end)
    noAuth (map_to_list configs).

(** The loop over the services, in the order in which Go happens to range
    over them. *)
Fixpoint pullServices (fuel : nat) (client : Client) (configs : gmap string AuthConfiguration)
    (services : list (string * Service)) (trace : list Event) : Result * list Event :=
  match services with
  | [] => (Returns None, trace)
  | (name, service) :: services =>
      match Split (Image service) ":"%char with
      | repository :: tag :: _ =>
          let opts := mkPullImageOptions repository tag in
          let auth := chooseAuth configs repository in
          match pullLoop fuel client (Image service) opts auth 0 trace with
          | (None, trace) => pullServices fuel client configs services trace
          | (Some r, trace) => (r, trace)
          end
      | _ => (IndexOutOfRange, trace)
      end
  end.

(** do not overwrite incoming authconfigs entries, only augment them *)
Definition augment (authFromFile configs : gmap string AuthConfiguration)
  : gmap string AuthConfiguration :=
  foldl (fun configs '(k, v) =>
           match configs !! k with
           | Some _ => configs
           | None => <[k := v]> configs
           end)
    configs (map_to_list authFromFile).

(** [authConfigs] is changed in place: the run gives its last value.  The
    pointers that the function is given, and the map of [authConfigs], are
    taken to be set. *)
Definition pullImageFromRepos (fuel : nat) (DockerCredFilePath : string)
    (defaultCredsThere : bool)
    (dockerCredsFromConfigFile : string -> option (gmap string AuthConfiguration))
    (client : Client) (authConfigs : gmap string AuthConfiguration)
    (services : list (string * Service)) : PullRun :=
  (* auth from creds file *)
  let file_name :=
    if negb (bool_decide (DockerCredFilePath = "")) then DockerCredFilePath
    else if defaultCredsThere then "/root/.docker/config.json"
    else "" in
  let authConfigs :=
    if negb (bool_decide (file_name = "")) then
      match dockerCredsFromConfigFile file_name with
      | None => authConfigs
      | Some authFromFile => augment authFromFile authConfigs
      end
    else authConfigs in
  let '(r, trace) := pullServices fuel client authConfigs services [] in
  mkPullRun r authConfigs trace.

End Pull.

(** Whether the character is in the string. *)
Fixpoint occurs (c : ascii) (s : string) : bool :=
  match s with
  | EmptyString => false
  | String c' s' => Ascii.eqb c' c || occurs c s'
  end.

Definition isPull {A} (e : Event (AuthConfiguration := A)) : bool :=
  match e with
  | PullImage _ _ _ => true
  | Sleep _ => false
  end.

(** Pulls that failed, each with the sleep after it. *)
Definition retries {A} (opts : PullImageOptions) (auth : A) (errs : list error)
  : list (Event (AuthConfiguration := A)) :=
  flat_map (fun err => [PullImage opts auth (Some err); Sleep pullAttemptDelayS]) errs.

(** A pull of the image of the service that came back without an error. *)
Definition fetched {A} (trace : list (Event (AuthConfiguration := A))) (service : Service) : Prop :=
  exists repository tag rest auth,
    Split (Image service) ":"%char = repository :: tag :: rest /\
    PullImage (mkPullImageOptions repository tag) auth None ∈ trace.

(** How the loop over the services ends, and with which events: all the
    services are fetched; or the three attempts on one service fail, after
    the services before it are fetched; or the image of one service has no
    colon, after the services before it are fetched. *)
Definition servicesEnd {A} (noAuth : A) (configs : gmap string A)
    (services : list (string * Service)) (r : Result)
    (added : list (Event (AuthConfiguration := A))) : Prop :=
  match r with
  | Returns None => Forall (fetched added) services.*2
  | Returns (Some e) =>
      exists before name service after repository tag rest e1 e2 e3 tr,
        services = before ++ (name, service) :: after /\
        Forall (fetched tr) before.*2 /\
        Split (Image service) ":"%char = repository :: tag :: rest /\
        added = tr ++ retries (mkPullImageOptions repository tag)
                        (chooseAuth noAuth configs repository) [e1; e2]
                   ++ [PullImage (mkPullImageOptions repository tag)
                         (chooseAuth noAuth configs repository) (Some e3)] /\
        e = lastError (Image service) e3
  | IndexOutOfRange =>
      exists before name service after,
        services = before ++ (name, service) :: after /\
        Forall (fetched added) before.*2 /\
        occurs ":"%char (Image service) = false
  | NoFuel => False
  end.

End torrent.

(** * Predicates on runs *)

(** The calls made between two worlds of one run. *)
Definition since (w w' : World) : list Call := drop (length (trace w)) (trace w').

(** The run from [w] to [w'] only added calls, each of them in [P]. *)
Definition emitting (P : Call -> Prop) (w w' : World) : Prop :=
  exists evs, trace w' = trace w ++ evs /\ Forall P evs.

(** Every run of [m] relates the world it starts in to the world it ends
    in, however it ends. *)
Definition preserves {A} (R : World -> World -> Prop) (m : M A) : Prop :=
  forall w, R w (m w).2.

(** Every run of [m] falls through, and relates the two worlds. *)
Definition runs {A} (R : World -> World -> Prop) (m : M A) : Prop :=
  forall w, exists a w', m w = (Ok a, w') /\ R w w'.

(** The calls of the selection loop: changes of the workload usage table. *)
Definition usageCall (c : Call) : Prop :=
  match c with
  | Store (OpNewWorkloadUsage _ _ _ _ _ _ _ _ _)
  | Store (OpUpdatePriority _ _ _ _ _ _)
  | Store (OpUpdateRetryCount _ _ _ _)
  | Store (OpDeleteWorkloadUsage _ _) => True
  | _ => False
  end.

(** The run only changed the workload usage table. *)
Definition usageOnly (w w' : World) : Prop :=
  emitting usageCall w w' /\ agreements w' = agreements w.



(** The calls of the cancellation path. *)
Definition cancelCall (c : Call) : Prop :=
  match c with
  | Store (OpAgreementTimedout _ _)
  | Store (OpUpdateWUAgreementId _ _ _)
  | Store (OpDeleteWorkloadUsage _ _)
  | Store (OpArchiveAgreement _ _ _ _)
  | DeleteConsumerAgreement _ | TerminateAgreement _ _ | DeferCommand _ => True
  | _ => False
  end.

(** The calls that carry a termination reason carry [reason]. *)
Definition reasonIs (reason : N) (c : Call) : Prop :=
  match c with
  | TerminateAgreement _ r => r = reason
  | DeferCommand cmd => CReason cmd = reason
  | Store (OpArchiveAgreement _ _ r _) => r = reason
  | _ => True
  end.



(** Every value that [m] falls through with is in [Q]. *)
Definition yields {A} (Q : A -> Prop) (m : M A) : Prop :=
  forall w a w', m w = (Ok a, w') -> Q a.

(** A creation of a workload usage record carries the priority of one of
    the workloads [wls], and the priority of that workload is not empty. *)
Definition createsFor (E : Collaborators) (wls : list Workload) (c : Call) : Prop :=
  match c with
  | Store (OpNewWorkloadUsage _ _ _ _ priority retryDurationS verifiedDurationS _ _) =>
      exists wl, wl ∈ wls /\ HasEmptyPriority E wl = false /\
        priority = PriorityValue (Priority wl) /\
        retryDurationS = RetryDurationS (Priority wl) /\
        verifiedDurationS = VerifiedDurationS (Priority wl)
  | _ => True
  end.

(** A creation of a workload usage record in reply handling carries the
    priority of the first workload of a demarshalled policy, and that
    priority is not empty. *)
Definition createsForReply (E : Collaborators) (c : Call) : Prop :=
  match c with
  | Store (OpNewWorkloadUsage _ _ _ _ priority retryDurationS verifiedDurationS _ _) =>
      exists text pol w0 rest, DemarshalPolicy E text = Good pol /\
        Workloads pol = w0 :: rest /\ HasEmptyPriority E w0 = false /\
        priority = PriorityValue (Priority w0) /\
        retryDurationS = RetryDurationS (Priority w0) /\
        verifiedDurationS = VerifiedDurationS (Priority w0)
  | _ => True
  end.

Definition isNewWorkloadUsage (c : Call) : bool :=
  match c with Store (OpNewWorkloadUsage _ _ _ _ _ _ _ _ _) => true | _ => false end.

Definition isConfirm (c : Call) : bool :=
  match c with Confirm _ _ _ => true | _ => false end.

Definition isDeleteMessage (c : Call) : bool :=
  match c with DeleteMessage _ => true | _ => false end.

(** The deletion of the inbound message, when there is one. *)
Definition deletion (wi : HandleReply) : list Call :=
  if (MessageId wi =? 0)%Z then [] else [DeleteMessage (MessageId wi)].

Definition notDelete (c : Call) : Prop := isDeleteMessage c = false.

Definition always (w w' : World) : Prop := True.

(** The reply ack that [sendAck] sends: none when the message target
    cannot be created. *)
Definition acks (E : Collaborators) (wi : HandleReply) (accepted : bool) : list Call :=
  match CreateMessageTarget E (SenderId wi) (SenderPubKey wi) (From wi) with
  | Good mt => [Confirm accepted (AgreementId (Reply wi)) mt]
  | Err => []
  end.

(** The calls that the reply handler makes while it holds the lock of the
    agreement id, up to the release before the ledger commit. *)
Definition underLock (c : Call) : Prop :=
  match c with
  | Store _ | RecordConsumerAgreementState _ _ | Confirm true _ _ | DeleteMessage _ => True
  | _ => False
  end.

Definition isPostReply (c : Call) : bool :=
  match c with PostReply _ => true | _ => false end.

Definition isDefer (c : Call) : bool :=
  match c with DeferCommand _ => true | _ => false end.

(** The policies that the collaborators hand out can be used without a
    panic: each has a workload, and the workload chosen from scratch is one
    of the policy. *)
Definition usablePolicies (E : Collaborators) : Prop :=
  forall s p, DemarshalPolicy E s = Good p ->
    Workloads p <> [] /\
    exists i wl, NextHighestPriorityWorkload E p 0 0 0 = Some i /\ Workloads p !! i = Some wl.

(** The operations on the lock of an agreement id. *)
Definition isLockOp (c : Call) : bool :=
  match c with Lock _ | Unlock _ | DeleteAgreementLock _ => true | _ => false end.

Definition noLock (c : Call) : Prop := isLockOp c = false.

Definition isTerminate (c : Call) : bool :=
  match c with TerminateAgreement _ _ => true | _ => false end.

(** The store does not fail. *)
Definition noFaults (E : Collaborators) : Prop := forall op, storeFault E op = false.

(** The record [a'] is the record [a] at a later time: it belongs to the
    same agreement, and if [a] was archived nothing has changed. *)
Definition laterRecord (a a' : Agreement) : Prop :=
  CurrentAgreementId a' = CurrentAgreementId a /\
  AgreementProtocol a' = AgreementProtocol a /\
  Org a' = Org a /\ DeviceId a' = DeviceId a /\ PolicyName a' = PolicyName a /\
  (Archived a = true -> a' = a).

(** The agreement table of [w'] holds the records of [w], under the same
    ids: none was added, none was removed, and the archived ones are as they
    were. *)
Definition keepsRecords (w w' : World) : Prop :=
  forall id, option_Forall2 laterRecord (agreements w !! id) (agreements w' !! id).

(** The calls by which [CancelAgreement] lets the protocol handler
    terminate the agreement [ag], whose record reads [ag1] by then: at
    once, by a deferred command, or both. *)
Definition terminations (E : Collaborators) (id : string) (reason : N) (ag ag1 : Agreement)
  : list Call :=
  (if CanCancelNow E ag1 || bool_decide (CounterPartyAddress ag = "")
   then [TerminateAgreement (CurrentAgreementId ag) reason] else [])
  ++ (if mustDefer E ag then [DeferCommand (deferred E id reason)] else []).

(** The calls of the validation of a reply: the reply is persisted, the
    state of the agreement is published to the exchange, and the workload
    usage record is created or updated. *)
Definition validationCall (c : Call) : Prop :=
  match c with
  | Store (OpPersistReply _ _ _ _)
  | Store (OpNewWorkloadUsage _ _ _ _ _ _ _ _ _)
  | Store (OpUpdatePolicy _ _ _)
  | Store (OpUpdatePriority _ _ _ _ _ _)
  | Store (OpUpdateRetryCount _ _ _ _)
  | Store (OpUpdateWUAgreementId _ _ _)
  | RecordConsumerAgreementState _ _ => True
  | _ => False
  end.

(** The four ways in which [HandleAgreementReply] handles the reply [wi],
    with the value it returns and the calls it makes: the producer
    rejected the proposal; the reply is not valid; the reply is valid and
    the agreement is committed to the ledger; the reply is valid and the
    commit fails. *)
Definition replyRun (E : Collaborators) (wi : HandleReply) (b : bool) (evs : list Call) : Prop :=
  let id := AgreementId (Reply wi) in
  (ProposalAccepted (Reply wi) = false /\ b = false /\
   exists cancel,
     evs = [Lock id] ++ cancel ++ [Unlock id] ++ deletion wi /\
     Forall cancelCall cancel /\
     Forall (reasonIs (GetTerminationCode E TERM_REASON_NEGATIVE_REPLY)) cancel) \/
  (ProposalAccepted (Reply wi) = true /\ b = false /\
   exists validation nack,
     evs = [Lock id] ++ validation ++ nack ++ [Unlock id] ++ deletion wi /\
     Forall validationCall validation /\
     (nack = [] \/ nack = acks E wi false)) \/
  (ProposalAccepted (Reply wi) = true /\ b = true /\
   PostReplyResult E id = Good tt /\
   exists validation,
     evs = [Lock id] ++ validation ++ acks E wi true ++ deletion wi
             ++ [Unlock id; PostReply id] /\
     Forall validationCall validation) \/
  (ProposalAccepted (Reply wi) = true /\ b = false /\
   PostReplyResult E id = Err /\
   exists validation cancel,
     evs = [Lock id] ++ validation ++ acks E wi true ++ deletion wi
             ++ [Unlock id; PostReply id]
             ++ [Lock id] ++ cancel ++ [Unlock id; DeleteAgreementLock id]
             ++ acks E wi false /\
     Forall validationCall validation /\
     Forall cancelCall cancel /\
     Forall (reasonIs (GetTerminationCode E TERM_REASON_CANCEL_BC_WRITE_FAILED)) cancel).

(** The calls that only the cancellation of an agreement makes. *)
Definition isCancellation (c : Call) : bool :=
  match c with
  | Store (OpAgreementTimedout _ _) | Store (OpArchiveAgreement _ _ _ _)
  | DeleteConsumerAgreement _ | TerminateAgreement _ _ | DeferCommand _ => true
  | _ => false
  end.

Definition isNegativeAck (c : Call) : bool :=
  match c with Confirm false _ _ => true | _ => false end.

(** The calls of the end of [InitiateNewAgreement], once a workload is
    chosen: the pending agreement is created, the protocol is initiated,
    and the agreement is updated with the proposal or deleted. *)
Definition proposalCall (c : Call) : Prop :=
  match c with
  | Store (OpAgreementAttempt _ _ _ _ _ _ _ _ _ _)
  | Store (OpDeleteAgreement _ _)
  | Store (OpPersistAgreement _ _)
  | ProtocolInitiate _ _ => True
  | _ => False
  end.

(** The API specs of a workload definition in the form of the policy
    package. *)
Definition specList (E : Collaborators) (specs : list APISpec) : APISpecList :=
  map (fun a => APISpecification_Factory E (ASpecRef a) (AOrg a) (AVersion a) (AArch a)) specs.

(** What the selection of a workload keeps of the work item. *)
Definition sameRequest (wi wi' : InitiateAgreement) : Prop :=
  IOrg wi' = IOrg wi /\ IDevice wi' = IDevice wi /\
  HeaderName (ConsumerPolicy wi') = HeaderName (ConsumerPolicy wi) /\
  PatternId (ConsumerPolicy wi') = PatternId (ConsumerPolicy wi) /\
  OriginalProducerPolicy wi' = OriginalProducerPolicy wi.

(** * Scenarios *)

(** Concrete collaborators and worlds, on which the handlers run. *)

Definition emptyPriority : WorkloadPriority := mkWorkloadPriority 0 0 0 0.
Definition priorityOne : WorkloadPriority := mkWorkloadPriority 1 2 3600 52.
Definition priorityTwo : WorkloadPriority := mkWorkloadPriority 2 1 3600 52.

Definition workloadAt (p : WorkloadPriority) (url : string) : Workload :=
  mkWorkload "" "" emptyTorrent p url "myorg" "1.0.0" "amd64".

Definition policyOf (name : string) (wls : list Workload) : Policy :=
  mkPolicy name "" [] wls [] [] "".

(** Collaborators of a scenario: the policies behind the policy texts, the
    choice of the next workload, what the device supports, the API specs
    that the workload at a url needs, and whether the message target, the
    blockchain write and the ledger are available. *)
Definition scenario (decode : string -> result Policy)
    (next : Policy -> Z -> Z -> Z -> option nat)
    (supports : APISpecList -> APISpecList -> bool)
    (needs : string -> list APISpec)
    (targetOk commitOk writable : bool) (fault : StoreOp -> bool) : Collaborators :=
  mkCollaborators (Good "a1") 100
    (fun _ _ => ("", "", "")) next
    (fun wl => bool_decide (Priority wl = emptyPriority))
    (fun a b => bool_decide (a = b))
    supports decode (fun a _ _ => Good a) (fun _ => Good emptyTorrent)
    (fun ref org version arch => mkAPISpecification ref org version true arch)
    (fun _ => Good (mkDevice []))
    (fun url _ _ _ =>
       Good (Some (mkWorkloadDefinition (needs url) [mkWorkloadDeployment "deploy" "sig" ""])))
    (fun id key ep => if targetOk then Good (mkExchangeMessageTarget id key ep) else Err)
    "Basic" "agbot" (fun _ _ _ => true)
    (fun id _ _ _ => Good (mkProposal id "tsandcs" 2))
    (fun _ => Good (mkProposal "a1" "tsandcs" 2))
    (fun _ => if commitOk then Good tt else Err)
    (fun _ _ => Good tt)
    (fun _ => writable) (fun _ _ _ => writable) (fun _ => ("", "", ""))
    (fun r => if bool_decide (r = TERM_REASON_NEGATIVE_REPLY) then 1%N
              else if bool_decide (r = TERM_REASON_CANCEL_BC_WRITE_FAILED) then 2%N
              else 3%N)
    (fun _ => "terminated") (fun _ => Good (Some "a1"))
    (fun _ => "consumer") (fun _ => "proposal")
    900 "pw" "ethereum_account" (fun _ _ => false) fault.

Definition noFault (op : StoreOp) : bool := false.

Definition noNeeds (url : string) : list APISpec := [].

Definition world0 : World := mkWorld ∅ ∅ [].

(** An agreement of protocol version 2 without a ledger and without a
    counterparty address, and a world that holds it. *)
Definition agreementV2 : Agreement :=
  mkAgreement "a1" "myorg" "D1" "P" "consumer" "proposal" "Basic" 2 "" "" "" "" ""
    Proposed 10 11 0 0 0 false 0%N "".

Definition agreementV1 : Agreement :=
  mkAgreement "a1" "myorg" "D1" "P" "consumer" "proposal" "Basic" 1 "" "" "" "" ""
    Proposed 10 11 0 0 0 false 0%N "".

Definition worldOf (a : Agreement) : World :=
  mkWorld {[ CurrentAgreementId a := a ]} ∅ [].

Definition onePolicy : Policy := policyOf "P" [workloadAt priorityOne "http://w1"].

Definition decodeOne (s : string) : result Policy := Good onePolicy.

Definition firstWorkload (p : Policy) (priority retryCount retryStartTime : Z) : option nat :=
  Some 0%nat.

(** The ledger is not writable. *)
Definition ledgerDown : Collaborators :=
  scenario decodeOne firstWorkload (fun _ _ => true) noNeeds true true false noFault.


(** Everything is available. *)
Definition allUp : Collaborators :=
  scenario decodeOne firstWorkload (fun _ _ => true) noNeeds true true true noFault.

(** The message target of the sender cannot be created. *)
Definition noTarget : Collaborators :=
  scenario decodeOne firstWorkload (fun _ _ => true) noNeeds false true true noFault.

(** The blockchain write fails. *)
Definition commitFails : Collaborators :=
  scenario decodeOne firstWorkload (fun _ _ => true) noNeeds true false true noFault.

(** The terms and conditions carry the workload of priority 2, while the
    consumer policy now starts at priority 1. *)
Definition twoPolicy : Policy := policyOf "P" [workloadAt priorityTwo "http://w2"].

Definition decodeSplit (s : string) : result Policy :=
  if bool_decide (s = "tsandcs") then Good twoPolicy else Good onePolicy.

Definition outdated (targetOk : bool) : Collaborators :=
  scenario decodeSplit firstWorkload (fun _ _ => true) noNeeds targetOk true true noFault.

(** A positive reply to agreement a1, delivered as message 5. *)
Definition reply5 : HandleReply :=
  mkHandleReply (mkProposalReply true "a1" "0xabc" 2) "" "D1" "key" 5.

(** A negative reply to agreement a1, delivered as message 6. *)
Definition reply6 : HandleReply :=
  mkHandleReply (mkProposalReply false "a1" "0xabc" 2) "" "D1" "key" 6.

(** The agreement a1 once a reply to it was recorded. *)
Definition agreementReplied : Agreement :=
  mkAgreement "a1" "myorg" "D1" "P" "consumer" "proposal" "Basic" 2 "" "" "" "" "0xabc"
    Replied 10 11 12 0 0 false 0%N "".

(** The device supports none of the workloads. *)
Definition unsupported : Collaborators :=
  scenario decodeOne firstWorkload (fun _ _ => false) noNeeds true true true noFault.

Definition deviceD1 : SearchResultDevice := mkSearchResultDevice "D1" "key" "endpoint".

(** The initiation of an agreement with device D1 for the policy P with one
    workload of priority 1. *)
Definition requestOne : InitiateAgreement :=
  mkInitiateAgreement (policyOf "producer" []) "" onePolicy "myorg" deviceD1.

(** The same for a policy P whose only workload has an empty priority. *)
Definition emptyPolicy : Policy := policyOf "P" [workloadAt emptyPriority "http://w0"].

Definition requestEmpty : InitiateAgreement :=
  mkInitiateAgreement (policyOf "producer" []) "" emptyPolicy "myorg" deviceD1.

(** A usage record for (D1, P) left by an earlier negotiation, and a world
    that holds it. *)
Definition earlierUsage : WorkloadUsage :=
  mkWorkloadUsage "D1" [] "consumer" "P" 1 0 3600 52 50 false false "".

Definition worldWithUsage : World :=
  mkWorld ∅ {[ ("D1", "P") := earlierUsage ]} [].


(** Priority rollback: the policy has a workload of priority 1 with 2
    retries, which needs a microservice that the device does not have, and
    a workload of priority 2, which needs none. *)
Definition rollbackPolicy : Policy :=
  policyOf "P" [workloadAt priorityOne "http://w1"; workloadAt priorityTwo "http://w2"].

Definition requestRollback : InitiateAgreement :=
  mkInitiateAgreement (policyOf "producer" []) "" rollbackPolicy "myorg" deviceD1.

Definition rollbackNeeds (url : string) : list APISpec :=
  if bool_decide (url = "http://w1") then [mkAPISpec "http://ms/gps" "myorg" "1.0.0" "amd64"]
  else [].

(** The workload of priority 1 while its retries last, then the workload of
    priority 2. *)
Definition rollbackNext (p : Policy) (priority retryCount retryStartTime : Z) : option nat :=
  if (priority =? 0)%Z then Some 0%nat
  else if (priority =? 1)%Z then (if (2 <? retryCount)%Z then Some 1%nat else Some 0%nat)
  else Some 1%nat.

Definition rollback : Collaborators :=
  scenario (fun _ => Good rollbackPolicy) rollbackNext (fun _ asl => bool_decide (asl = []))
    rollbackNeeds true true true noFault.

(** The agreement a1 once it was cancelled and archived. *)
Definition agreementArchived : Agreement :=
  mkAgreement "a1" "myorg" "D1" "P" "consumer" "proposal" "Basic" 2 "" "" "" "" ""
    ArchivedState 10 11 0 0 20 true 3%N "terminated".

(** A usage record for (D1, P) at priority 2, reached because the device
    could not meet the requirements of the workload of priority 1, with the
    agreement a1 in flight; and a world that holds it and the agreement. *)
Definition usageUnmet : WorkloadUsage :=
  mkWorkloadUsage "D1" [] "consumer" "P" 2 0 3600 52 50 false true "a1".

Definition worldUnmet : World :=
  mkWorld {[ "a1" := agreementV2 ]} {[ ("D1", "P") := usageUnmet ]} [].

(** The collaborators [E] with another directory of devices in the exchange
    and another test of the ignored attributes. *)
Definition withDevices (getDevice : string -> result Device) (contains : string -> string -> bool)
    (E : Collaborators) : Collaborators :=
  mkCollaborators (GenerateAgreementId E) (now E) (RequiresKnownBC E)
    (NextHighestPriorityWorkload E) (HasEmptyPriority E) (IsSame E) (Supports E)
    (DemarshalPolicy E) (Are_Compatible_Producers E) (UnmarshalTorrent E)
    (APISpecification_Factory E) getDevice (GetWorkload E) (CreateMessageTarget E)
    (Name E) (ExchangeId E) (AgreementProtocolHandler E) (ProtocolInitiateAgreement E)
    (DemarshalProposal E) (PostReplyResult E) (RecordConsumerAgreementStateResult E)
    (CanCancelNow E) (IsBlockchainWritable E) (GetKnownBlockchain E) (GetTerminationCode E)
    (GetTerminationReason E) (ValidateDataReceivedAck E) (MarshalPolicy E) (MarshalProposal E)
    (NoDataIntervalS E) (DefaultWorkloadPW E) (IgnoreContractWithAttribs E) contains
    (storeFault E).

(** The HA partner D2 of the device is not registered in the exchange. *)
Definition partnerMissing : Collaborators :=
  withDevices (fun id => if bool_decide (id = "D2") then Err else Good (mkDevice []))
    (fun _ _ => false) allUp.

(** The producer policy names the HA partner D2. *)
Definition requestHA : InitiateAgreement :=
  mkInitiateAgreement (mkPolicy "producer" "" [] [] ["D2"] [] "") "" onePolicy "myorg" deviceD1.

(** The collaborators [E] with another answer of the protocol handler to the
    initiation of an agreement. *)
Definition withInitiate (initiate : string -> Policy -> Policy -> option nat -> result Proposal)
    (E : Collaborators) : Collaborators :=
  mkCollaborators (GenerateAgreementId E) (now E) (RequiresKnownBC E)
    (NextHighestPriorityWorkload E) (HasEmptyPriority E) (IsSame E) (Supports E)
    (DemarshalPolicy E) (Are_Compatible_Producers E) (UnmarshalTorrent E)
    (APISpecification_Factory E) (GetDevice E) (GetWorkload E) (CreateMessageTarget E)
    (Name E) (ExchangeId E) (AgreementProtocolHandler E) initiate
    (DemarshalProposal E) (PostReplyResult E) (RecordConsumerAgreementStateResult E)
    (CanCancelNow E) (IsBlockchainWritable E) (GetKnownBlockchain E) (GetTerminationCode E)
    (GetTerminationReason E) (ValidateDataReceivedAck E) (MarshalPolicy E) (MarshalProposal E)
    (NoDataIntervalS E) (DefaultWorkloadPW E) (IgnoreContractWithAttribs E) (listContains E)
    (storeFault E).

(** The protocol handler refuses to initiate an agreement. *)
Definition refusing : Collaborators := withInitiate (fun _ _ _ _ => Err) allUp.

(** The selection for the request [wi] for the policy P with one workload
    of priority 1, once that workload is found and the policy is augmented
    with its details. *)
Definition selectedOne (wi : InitiateAgreement) : Selection :=
  mkSelection
    (withConsumerPolicy
       (augmented [] 0
          (withDeployment (mkWorkloadDeployment "deploy" "sig" "") emptyTorrent
             (workloadAt priorityOne "http://w1"))
          onePolicy) wi)
    true (Some 0%nat) (Some 0%nat).

(** * Properties of the runs *)
(** ** Relations that every step of a run preserves *)


Lemma since_app (w w' : World) (evs : list Call) :
  trace w' = trace w ++ evs -> since w w' = evs.
Proof. intros H. unfold since. rewrite H. apply drop_app_length. Qed.

#[global] Instance emitting_preorder (P : Call -> Prop) : PreOrder (emitting P).
Proof.
  split.
  - intros w. exists []. split; [by rewrite app_nil_r | constructor].
  - intros w1 w2 w3 (e1 & H1 & F1) (e2 & H2 & F2). exists (e1 ++ e2). split.
    + by rewrite H2, H1, app_assoc.
    + by apply Forall_app.
Qed.

#[global] Instance always_preorder : PreOrder always.
Proof. by split. Qed.

Lemma since_refl (w : World) : since w w = [].
Proof. apply since_app. by rewrite app_nil_r. Qed.

Lemma emitting_log (P : Call -> Prop) (c : Call) (w : World) : P c -> emitting P w (log c w).
Proof. intros H. exists [c]. split; [done | by constructor]. Qed.

Lemma emitting_since (P : Call -> Prop) (w w' : World) :
  emitting P w w' -> trace w' = trace w ++ since w w' /\ Forall P (since w w').
Proof. intros (evs & H & F). by rewrite (since_app _ _ _ H). Qed.

Section Preserves.

Context (E : Collaborators).
Context (R : World -> World -> Prop) `{!PreOrder R}.

Lemma preserves_ret {A} (a : A) : preserves R (ret a).
Proof. intros w. reflexivity. Qed.

Lemma preserves_exit {A} : preserves R (@exit A).
Proof. intros w. reflexivity. Qed.

Lemma preserves_panic {A} : preserves R (@panic A).
Proof. intros w. reflexivity. Qed.

Lemma preserves_outOfFuel {A} : preserves R (@outOfFuel A).
Proof. intros w. reflexivity. Qed.

Lemma preserves_bind {A B} (m : M A) (k : A -> M B) :
  preserves R m -> (forall a, preserves R (k a)) -> preserves R (bind m k).
Proof.
  intros Hm Hk w. unfold bind. specialize (Hm w).
  destruct (m w) as [[a| | |] w1]; simpl in *; try done.
  etrans; [exact Hm | apply Hk].
Qed.

Lemma preserves_call (c : Call) : (forall w, R w (log c w)) -> preserves R (call c).
Proof. intros H w. apply H. Qed.

Lemma preserves_when (b : bool) (m : M unit) : preserves R m -> preserves R (when b m).
Proof. intros H. destruct b; [done | apply preserves_ret]. Qed.

Lemma preserves_callee (m : M unit) : preserves R m -> preserves R (callee m).
Proof. intros H w. unfold callee. specialize (H w). by destruct (m w) as [[[]| | |] w1]. Qed.

Lemma preserves_defer {A} (d : Call) (m : M A) :
  (forall w, R w (log d w)) -> preserves R m -> preserves R (defer d m).
Proof.
  intros Hd H w. unfold defer. specialize (H w). destruct (m w) as [o w1]. simpl in *.
  etrans; [exact H | apply Hd].
Qed.

Lemma preserves_storeRead {A} (op : StoreOp) (f : World -> A) : preserves R (storeRead E op f).
Proof. intros w. unfold storeRead. destruct (storeFault E op); reflexivity. Qed.

Lemma preserves_writeAgreements {A} (op : StoreOp)
    (f : gmap string Agreement -> option (A * gmap string Agreement)) :
  (forall w, R w (log (Store op) w)) ->
  (forall w m, R w (setAgreements m w)) ->
  preserves R (writeAgreements E op f).
Proof.
  intros Hl Hs w. unfold writeAgreements.
  destruct (storeFault E op); [apply Hl|].
  destruct (f (agreements w)) as [[a m]|]; [|apply Hl].
  simpl. etrans; [apply Hl | apply Hs].
Qed.

Lemma preserves_writeUsages {A} (op : StoreOp)
    (f : gmap (string * string) WorkloadUsage -> option (A * gmap (string * string) WorkloadUsage)) :
  (forall w, R w (log (Store op) w)) ->
  (forall w m, R w (setUsages m w)) ->
  preserves R (writeUsages E op f).
Proof.
  intros Hl Hs w. unfold writeUsages.
  destruct (storeFault E op); [apply Hl|].
  destruct (f (usages w)) as [[a m]|]; [|apply Hl].
  simpl. etrans; [apply Hl | apply Hs].
Qed.

Lemma preserves_forEach {A} (l : list A) (f : A -> M unit) :
  (forall a, preserves R (f a)) -> preserves R (forEach l f).
Proof.
  intros H. induction l as [|a l IH]; simpl; [apply preserves_ret|].
  apply preserves_bind; [apply H | intros _; apply IH].
Qed.

Lemma runs_preserves {A} (m : M A) : runs R m -> preserves R m.
Proof. intros H w. destruct (H w) as (a & w' & -> & HR). done. Qed.

Lemma runs_ret {A} (a : A) : runs R (ret a).
Proof. intros w. exists a, w. split; [done | reflexivity]. Qed.

Lemma runs_bind {A B} (m : M A) (k : A -> M B) :
  runs R m -> (forall a, runs R (k a)) -> runs R (bind m k).
Proof.
  intros Hm Hk w. destruct (Hm w) as (a & w1 & H1 & R1).
  destruct (Hk a w1) as (b & w2 & H2 & R2).
  exists b, w2. unfold bind. rewrite H1. split; [done | by etrans].
Qed.

Lemma runs_call (c : Call) : (forall w, R w (log c w)) -> runs R (call c).
Proof. intros H w. exists tt, (log c w). split; [done | apply H]. Qed.

Lemma runs_when (b : bool) (m : M unit) : runs R m -> runs R (when b m).
Proof. intros H. destruct b; [done | apply runs_ret]. Qed.

Lemma runs_storeRead {A} (op : StoreOp) (f : World -> A) : runs R (storeRead E op f).
Proof.
  intros w. unfold storeRead. destruct (storeFault E op); eexists _, _; (split; [done | reflexivity]).
Qed.

Lemma runs_writeAgreements {A} (op : StoreOp)
    (f : gmap string Agreement -> option (A * gmap string Agreement)) :
  (forall w, R w (log (Store op) w)) ->
  (forall w m, R w (setAgreements m w)) ->
  runs R (writeAgreements E op f).
Proof.
  intros Hl Hs w. unfold writeAgreements.
  destruct (storeFault E op); [eexists _, _; split; [done | apply Hl]|].
  destruct (f (agreements w)) as [[a m]|]; eexists _, _; (split; [done|]); [|apply Hl].
  etrans; [apply Hl | apply Hs].
Qed.

Lemma runs_writeUsages {A} (op : StoreOp)
    (f : gmap (string * string) WorkloadUsage -> option (A * gmap (string * string) WorkloadUsage)) :
  (forall w, R w (log (Store op) w)) ->
  (forall w m, R w (setUsages m w)) ->
  runs R (writeUsages E op f).
Proof.
  intros Hl Hs w. unfold writeUsages.
  destruct (storeFault E op); [eexists _, _; split; [done | apply Hl]|].
  destruct (f (usages w)) as [[a m]|]; eexists _, _; (split; [done|]); [|apply Hl].
  etrans; [apply Hl | apply Hs].
Qed.

Lemma runs_forEach {A} (l : list A) (f : A -> M unit) :
  (forall a, runs R (f a)) -> runs R (forEach l f).
Proof.
  intros H. induction l as [|a l IH]; simpl; [apply runs_ret|].
  apply runs_bind; [apply H | intros _; apply IH].
Qed.

End Preserves.

Lemma runs_always {A} (R : World -> World -> Prop) (m : M A) : runs R m -> runs always m.
Proof. intros H w. destruct (H w) as (a & w' & Hm & _). by exists a, w'. Qed.

(** ** Runs of the monad *)

Lemma bind_inv {A B} (m : M A) (k : A -> M B) (w w' : World) (b : B) :
  bind m k w = (Ok b, w') -> exists a w1, m w = (Ok a, w1) /\ k a w1 = (Ok b, w').
Proof.
  unfold bind. destruct (m w) as [[a| | |] w1]; try discriminate. intros H. by exists a, w1.
Qed.

Lemma yields_ret {A} (Q : A -> Prop) (a : A) : Q a -> yields Q (ret a).
Proof. intros H w a' w' Heq. unfold ret in Heq. by simplify_eq. Qed.

Lemma yields_exit {A} (Q : A -> Prop) : yields Q exit.
Proof. intros w a' w' Heq. discriminate. Qed.

Lemma yields_panic {A} (Q : A -> Prop) : yields Q panic.
Proof. intros w a' w' Heq. discriminate. Qed.

Lemma yields_outOfFuel {A} (Q : A -> Prop) : yields Q outOfFuel.
Proof. intros w a' w' Heq. discriminate. Qed.

Lemma yields_bind {A B} (Q : B -> Prop) (m : M A) (k : A -> M B) :
  (forall a, yields Q (k a)) -> yields Q (bind m k).
Proof.
  intros Hk w b w' Heq. unfold bind in Heq.
  destruct (m w) as [[a| | |] w1]; try discriminate. by eapply Hk.
Qed.

Lemma preserves_bind_yields {A B} (R : World -> World -> Prop) `{!PreOrder R} (Q : A -> Prop)
    (m : M A) (k : A -> M B) :
  preserves R m -> yields Q m -> (forall a, Q a -> preserves R (k a)) -> preserves R (bind m k).
Proof.
  intros Hm Hq Hk w. unfold bind. specialize (Hm w). specialize (Hq w).
  destruct (m w) as [[a| | |] w1]; simpl in *; try done.
  etrans; [exact Hm | apply Hk; by eapply Hq].
Qed.

Ltac yields_step :=
  lazymatch goal with
  | |- yields _ (bind _ _) => apply yields_bind; intros ?
  | |- yields _ (ret _) => apply yields_ret
  | |- yields _ exit => apply yields_exit
  | |- yields _ panic => apply yields_panic
  | |- yields _ outOfFuel => apply yields_outOfFuel
  | |- yields _ (match ?x with _ => _ end) => destruct x eqn:?
  | |- yields _ (let _ := _ in _) => cbv zeta
  end.

Lemma bind_assoc {A B C} (m : M A) (k1 : A -> M B) (k2 : B -> M C) (w : World) :
  bind (bind m k1) k2 w = bind m (fun a => bind (k1 a) k2) w.
Proof. unfold bind. by destruct (m w) as [[a| | |] w1]. Qed.

Lemma bind_ok {A B} (m : M A) (k : A -> M B) (w w1 : World) (a : A) :
  m w = (Ok a, w1) -> bind m k w = k a w1.
Proof. intros H. unfold bind. by rewrite H. Qed.

Lemma emitting_setAgreements (P : Call -> Prop) (w : World) (m : gmap string Agreement) :
  emitting P w (setAgreements m w).
Proof. exists []. split; [by rewrite app_nil_r | constructor]. Qed.

Lemma emitting_setUsages (P : Call -> Prop) (w : World) (m : gmap (string * string) WorkloadUsage) :
  emitting P w (setUsages m w).
Proof. exists []. split; [by rewrite app_nil_r | constructor]. Qed.

(** Unfolds the operations of the store down to the two writers and the
    reader. *)
Ltac unfold_store :=
  unfold AgreementTimedout, ArchiveAgreement, DataNotification, PersistReply, PersistAgreement,
    UpdateWUAgreementId, UpdatePolicy, UpdateRetryCount, UpdatePriority, DeleteWorkloadUsage,
    NewWorkloadUsage, AgreementAttempt, DeleteAgreement,
    FindSingleAgreementByAgreementId, FindAgreements, FindSingleWorkloadUsageByDeviceAndPolicyName,
    updateAgreement, updateUsage.

Ltac solve_preorder :=
  try match goal with |- PreOrder _ => apply _ end.

(** One syntax-directed step of a proof of [preserves]. *)
Ltac preserves_step :=
  lazymatch goal with
  | |- preserves _ (bind _ _) => apply preserves_bind; solve_preorder; [|intros ?]
  | |- preserves _ (ret _) => apply preserves_ret; solve_preorder
  | |- preserves _ exit => apply preserves_exit; solve_preorder
  | |- preserves _ panic => apply preserves_panic; solve_preorder
  | |- preserves _ outOfFuel => apply preserves_outOfFuel; solve_preorder
  | |- preserves _ (when _ _) => apply preserves_when; solve_preorder
  | |- preserves _ (callee _) => apply preserves_callee; solve_preorder
  | |- preserves _ (defer _ _) => apply preserves_defer; solve_preorder; [intros ?|]
  | |- preserves _ (call _) => apply preserves_call; solve_preorder; intros ?
  | |- preserves _ (storeRead _ _ _) => apply preserves_storeRead; solve_preorder
  | |- preserves _ (writeAgreements _ _ _) =>
      apply preserves_writeAgreements; solve_preorder; intros ?; [|intros ?]
  | |- preserves _ (writeUsages _ _ _) =>
      apply preserves_writeUsages; solve_preorder; intros ?; [|intros ?]
  | |- preserves _ (forEach _ _) => apply preserves_forEach; solve_preorder; intros ?
  | |- preserves _ (match ?x with _ => _ end) => destruct x eqn:?
  | |- preserves _ (let _ := _ in _) => cbv zeta
  end.

(** One syntax-directed step of a proof of [runs]. *)
Ltac runs_step :=
  lazymatch goal with
  | |- runs _ (bind _ _) => apply runs_bind; solve_preorder; [|intros ?]
  | |- runs _ (ret _) => apply runs_ret; solve_preorder
  | |- runs _ (when _ _) => apply runs_when; solve_preorder
  | |- runs _ (call _) => apply runs_call; solve_preorder; intros ?
  | |- runs _ (storeRead _ _ _) => apply runs_storeRead; solve_preorder
  | |- runs _ (writeAgreements _ _ _) =>
      apply runs_writeAgreements; solve_preorder; intros ?; [|intros ?]
  | |- runs _ (writeUsages _ _ _) =>
      apply runs_writeUsages; solve_preorder; intros ?; [|intros ?]
  | |- runs _ (forEach _ _) => apply runs_forEach; solve_preorder; intros ?
  | |- runs _ (match ?x with _ => _ end) => destruct x eqn:?
  | |- runs _ (let _ := _ in _) => cbv zeta
  end.

Ltac solve_emitting :=
  try apply emitting_setAgreements; try apply emitting_setUsages;
  try (apply emitting_log; simpl; auto).

Ltac preserves_emitting := repeat preserves_step; solve_emitting.
Ltac runs_emitting := repeat runs_step; solve_emitting.

Section Properties.

Context (E : Collaborators).

(** ** Cancellation *)

Lemma filter_none {A} (f : A -> bool) (l : list A) :
  Forall (fun a => f a = false) l -> List.filter f l = [].
Proof. induction 1 as [|a l Ha _ IH]; simpl; [done|]. by rewrite Ha. Qed.

Lemma count_occ_filter_defer (l : list Call) (cmd : AsyncCancelAgreement) :
  count_occ Call_eq_dec (List.filter isDefer l) (DeferCommand cmd)
  = count_occ Call_eq_dec l (DeferCommand cmd).
Proof.
  induction l as [|c l IH]; [done|].
  destruct c as [| | | | | | | | |cmd0| |]; cbn [List.filter isDefer];
    try (rewrite (count_occ_cons_neq Call_eq_dec) by (intros ?; discriminate); exact IH).
  destruct (decide (DeferCommand cmd0 = DeferCommand cmd)) as [Heq|Hne].
  - rewrite !(count_occ_cons_eq Call_eq_dec) by exact Heq. by rewrite IH.
  - rewrite !(count_occ_cons_neq Call_eq_dec) by exact Hne. exact IH.
Qed.

Lemma detachUsage_runs (P : Call -> Prop) (ag : Agreement) :
  (forall op, P (Store op)) -> runs (emitting P) (detachUsage E ag).
Proof. intros HP. unfold detachUsage. unfold_store. runs_emitting. Qed.

Lemma when_call (b : bool) (c : Call) (w : World) :
  when b (call c) w = (Ok tt, if b then log c w else w).
Proof. by destruct b. Qed.

Lemma ArchiveAgreement_runs (P : Call -> Prop) (id p : string) (reason : N) (text : string) :
  (forall op, P (Store op)) -> runs (emitting P) (ArchiveAgreement E id p reason text).
Proof. intros HP. unfold_store. runs_emitting. Qed.

Lemma terminateFound_defers (id : string) (reason : N) (ag : Agreement) (w : World) :
  exists w' evs, terminateFound E id reason ag w = (Ok tt, w') /\
    trace w' = trace w ++ evs /\
    List.filter isDefer evs
    = (if mustDefer E ag then [DeferCommand (deferred E id reason)] else []).
Proof.
  destruct (detachUsage_runs (fun c => isDefer c = false) ag (fun _ => eq_refl) w)
    as ([] & w1 & H1 & e1 & T1 & F1).
  unfold terminateFound, DoAsyncCancel.
  rewrite (bind_ok _ _ _ _ _ H1).
  rewrite (bind_ok _ _ _ _ _ (when_call _ _ _)).
  rewrite (bind_ok _ _ _ _ _ (when_call _ _ _)).
  match goal with
  | |- context [bind (ArchiveAgreement E ?i ?p ?r ?t) _ ?w0] =>
      destruct (ArchiveAgreement_runs (fun c => isDefer c = false) i p r t (fun _ => eq_refl) w0)
        as (a & w4 & H4 & e4 & T4 & F4)
  end.
  rewrite (bind_ok _ _ _ _ _ H4).
  exists w4,
    (e1 ++ (if CanCancelNow E ag || bool_decide (CounterPartyAddress ag = "")
            then [TerminateAgreement (CurrentAgreementId ag) reason] else [])
        ++ (if mustDefer E ag then [DeferCommand (deferred E id reason)] else []) ++ e4).
  split; [reflexivity|]. split.
  - rewrite T4.
    destruct (CanCancelNow E ag || bool_decide (CounterPartyAddress ag = "")),
      (mustDefer E ag); simpl; rewrite T1, <- ?app_assoc; done.
  - rewrite !List.filter_app, (filter_none _ _ F1), (filter_none _ _ F4).
    destruct (CanCancelNow E ag || bool_decide (CounterPartyAddress ag = "")),
      (mustDefer E ag); done.
Qed.

Lemma lookupAgreement_visible (id p : string) (u : bool) (m : gmap string Agreement) (a : Agreement) :
  lookupAgreement id p u m = Some a -> m !! id = Some a /\ visible p u a = true.
Proof. unfold lookupAgreement. intros H. repeat case_match; by simplify_eq. Qed.

Lemma lookupAgreement_insert (id p : string) (a : Agreement) (m : gmap string Agreement) :
  lookupAgreement id p true (<[id := a]> m) = if visible p true a then Some a else None.
Proof. unfold lookupAgreement. by rewrite lookup_insert_eq. Qed.

(** Once the agreement is marked as timed out, its record is still the
    unarchived record of the id, and the fields that decide the deferral
    are the same. *)
Lemma AgreementTimedout_lookup (id : string) (w : World) (ag : Agreement) :
  lookupAgreement id (Name E) true (agreements w) = Some ag ->
  exists r w1 ag1, AgreementTimedout E id (Name E) w = (Ok r, w1) /\
    trace w1 = trace w ++ [Store (OpAgreementTimedout id (Name E))] /\
    usages w1 = usages w /\
    lookupAgreement id (Name E) true (agreements w1) = Some ag1 /\
    (ag1 = ag \/ ag1 = withTimeout E ag).
Proof.
  intros Hl. destruct (lookupAgreement_visible _ _ _ _ _ Hl) as [Hm Hv].
  unfold AgreementTimedout, updateAgreement, writeAgreements.
  destruct (storeFault E _).
  - eexists _, _, ag. simpl. repeat split; auto.
  - rewrite Hl. eexists _, _, (withTimeout E ag). split; [reflexivity|].
    cbn [trace usages agreements setAgreements log]. repeat split; auto.
    rewrite lookupAgreement_insert.
    change (visible (Name E) true (withTimeout E ag)) with (visible (Name E) true ag).
    by rewrite Hv.
Qed.

Lemma mustDefer_true (ag : Agreement) :
  mustDefer E ag = true <->
  (AgreementProtocolVersion ag < 2)%Z \/
  (BlockchainType ag <> "" /\
   IsBlockchainWritable E (BlockchainType ag) (BlockchainName ag) (BlockchainOrg ag) = false).
Proof.
  unfold mustDefer.
  rewrite orb_true_iff, andb_true_iff, !negb_true_iff, Z.ltb_lt, bool_decide_eq_false.
  done.
Qed.

Lemma CancelAgreement_deferral (id : string) (reason : N) (w : World) (ag : Agreement) :
  lookupAgreement id (Name E) true (agreements w) = Some ag ->
  storeFault E (OpFindSingleAgreementByAgreementId id (Name E) true) = false ->
  (CancelAgreement E id reason w).1 = Ok tt /\
  List.filter isDefer (since w (CancelAgreement E id reason w).2)
  = (if mustDefer E ag then [DeferCommand (deferred E id reason)] else []).
Proof.
  intros Hl Hf.
  destruct (AgreementTimedout_lookup id w ag Hl) as (r & w1 & ag1 & H1 & T1 & _ & L1 & Hag).
  unfold CancelAgreement. rewrite (bind_ok _ _ _ _ _ H1).
  unfold FindSingleAgreementByAgreementId, storeRead, call, bind. rewrite Hf. simpl. rewrite L1.
  destruct (terminateFound_defers id reason ag1 (log (DeleteConsumerAgreement id) w1))
    as (w2 & e2 & H2 & T2 & F2).
  rewrite H2. simpl. split; [done|].
  assert (Hd : mustDefer E ag1 = mustDefer E ag) by (destruct Hag; by subst).
  rewrite Hd in F2. rewrite <- F2.
  erewrite since_app; [|rewrite T2; simpl; rewrite T1, <- !app_assoc; reflexivity].
  done.
Qed.

(** C6 (amended): when [CancelAgreement] finds the unarchived record of the
    agreement, it returns, and the deferred commands it queues are exactly
    one [AsyncCancelAgreement] carrying the agreement id, the protocol and
    the reason if the protocol version is below 2 or the agreement names a
    ledger (non-empty type) that is not writable, and none otherwise; so an
    agreement of protocol version below 2 is deferred exactly once. *)
Theorem CancelAgreement_defers_command (id : string) (reason : N) (w : World) (ag : Agreement) :
  lookupAgreement id (Name E) true (agreements w) = Some ag ->
  storeFault E (OpFindSingleAgreementByAgreementId id (Name E) true) = false ->
  (CancelAgreement E id reason w).1 = Ok tt /\
  (((AgreementProtocolVersion ag < 2)%Z \/
    (BlockchainType ag <> "" /\
     IsBlockchainWritable E (BlockchainType ag) (BlockchainName ag) (BlockchainOrg ag) = false)) ->
   List.filter isDefer (since w (CancelAgreement E id reason w).2)
   = [DeferCommand (mkAsyncCancelAgreement ASYNC_CANCEL id (Name E) reason)]) /\
  (~ ((AgreementProtocolVersion ag < 2)%Z \/
      (BlockchainType ag <> "" /\
       IsBlockchainWritable E (BlockchainType ag) (BlockchainName ag) (BlockchainOrg ag) = false)) ->
   List.filter isDefer (since w (CancelAgreement E id reason w).2) = []) /\
  ((AgreementProtocolVersion ag < 2)%Z ->
   count_occ Call_eq_dec (since w (CancelAgreement E id reason w).2)
     (DeferCommand (mkAsyncCancelAgreement ASYNC_CANCEL id (Name E) reason)) = 1%nat).
Proof.
  intros Hl Hf. destruct (CancelAgreement_deferral id reason w ag Hl Hf) as [Hok Hd].
  split; [done|]. split; [|split].
  - intros H. apply mustDefer_true in H. by rewrite Hd, H.
  - intros H. rewrite Hd. destruct (mustDefer E ag) eqn:Hm; [|done].
    apply mustDefer_true in Hm. done.
  - intros H. assert (Hm : mustDefer E ag = true) by (apply mustDefer_true; by left).
    rewrite Hm in Hd. revert Hd. generalize (since w (CancelAgreement E id reason w).2).
    intros l Hl'. rewrite <- (count_occ_filter_defer l), Hl'.
    apply (count_occ_cons_eq Call_eq_dec). reflexivity.
Qed.

(** ** Reply handling *)


Ltac solve_cancelCall :=
  let c := fresh "c" in let op := fresh "op" in
  intros c; destruct c as [| | | | | | | | | | |op]; try done; destruct op; done.

Lemma preserves_run {A} (R : World -> World -> Prop) (m : M A) (w w' : World) (o : Outcome A) :
  preserves R m -> m w = (o, w') -> R w w'.
Proof. intros H Hm. specialize (H w). by rewrite Hm in H. Qed.

Lemma CancelAgreement_runs (P : Call -> Prop) (id : string) (reason : N) :
  (forall c, cancelCall c -> P c) -> runs (emitting P) (CancelAgreement E id reason).
Proof.
  intros HP. unfold CancelAgreement, terminateFound, detachUsage, DoAsyncCancel. unfold_store.
  repeat runs_step; try apply emitting_setAgreements; try apply emitting_setUsages;
    apply emitting_log, HP; exact I.
Qed.

Lemma CancelAgreementWithLock_runs (P : Call -> Prop) (id : string) (reason : N) :
  (forall c, cancelCall c -> P c) -> P (Lock id) -> P (Unlock id) -> P (DeleteAgreementLock id) ->
  runs (emitting P) (CancelAgreementWithLock E id reason).
Proof.
  intros HP H1 H2 H3. unfold CancelAgreementWithLock.
  runs_step; [runs_emitting|]. runs_step; [by apply CancelAgreement_runs|].
  runs_emitting.
Qed.

Lemma sendAck_runs (P : Call -> Prop) (wi : HandleReply) (accepted : bool) :
  (forall mt, P (Confirm accepted (AgreementId (Reply wi)) mt)) ->
  runs (emitting P) (sendAck E wi accepted).
Proof. intros HP. unfold sendAck. runs_emitting. Qed.

Lemma reconcileUsage_preserves (P : Call -> Prop) (wi : HandleReply) (agreement : Agreement)
    (pol consumerPolicy : Policy) :
  (forall op, P (Store op)) ->
  preserves (emitting P) (reconcileUsage E wi agreement pol consumerPolicy).
Proof. intros HP. unfold reconcileUsage. unfold_store. preserves_emitting. Qed.

Lemma validateReply_preserves (P : Call -> Prop) (wi : HandleReply) :
  (forall op, P (Store op)) ->
  (forall id s, P (RecordConsumerAgreementState id s)) ->
  preserves (emitting P) (validateReply E wi).
Proof.
  intros HP HR. unfold validateReply.
  repeat first [ apply reconcileUsage_preserves; exact HP
               | progress unfold_store
               | preserves_step ];
    solve_emitting.
Qed.

Lemma ackAndCommit_deletes (wi : HandleReply) (w : World) :
  exists l w' evs, ackAndCommit E wi w = (Ok l, w') /\
    deletedMessage l = true /\ droppedLock l = true /\ sendReply l = true /\
    trace w' = trace w ++ evs /\
    List.filter isDeleteMessage evs = deletion wi.
Proof.
  destruct (sendAck_runs notDelete wi true (fun _ => eq_refl) w) as ([] & w1 & H1 & e1 & T1 & F1).
  unfold ackAndCommit. rewrite (bind_ok _ _ _ _ _ H1).
  rewrite (bind_ok _ _ _ _ _ (when_call _ _ _)).
  unfold call at 1 2. unfold bind at 1 2.
  set (w3 := log (PostReply _) _).
  assert (T3 : trace w3 = trace w ++ e1 ++ deletion wi
                             ++ [Unlock (AgreementId (Reply wi)); PostReply (AgreementId (Reply wi))]).
  { unfold w3, deletion. destruct (MessageId wi =? 0)%Z; simpl; rewrite T1, <- ?app_assoc; done. }
  destruct (PostReplyResult E _).
  - eexists _, w3, _. split; [reflexivity|]. repeat split; [exact T3|].
    rewrite !List.filter_app, (filter_none _ _ F1). simpl. rewrite app_nil_r.
    unfold deletion. by destruct (MessageId wi =? 0)%Z.
  - destruct (CancelAgreementWithLock_runs notDelete (AgreementId (Reply wi))
                (GetTerminationCode E TERM_REASON_CANCEL_BC_WRITE_FAILED)
                ltac:(solve_cancelCall) eq_refl eq_refl eq_refl w3) as ([] & w4 & H4 & e4 & T4 & F4).
    rewrite (bind_ok _ _ _ _ _ H4).
    eexists _, w4, _. split; [reflexivity|]. repeat split.
    + rewrite T4, T3, <- !app_assoc. reflexivity.
    + rewrite !List.filter_app, (filter_none _ _ F1), (filter_none _ _ F4). simpl.
      rewrite app_nil_r. unfold deletion. by destruct (MessageId wi =? 0)%Z.
Qed.

Lemma positiveReply_deletes (wi : HandleReply) (w w' : World) (l : ReplyLocals) :
  positiveReply E wi w = (Ok l, w') ->
  exists evs, trace w' = trace w ++ evs /\
    List.filter isDeleteMessage evs = (if deletedMessage l then deletion wi else []) /\
    droppedLock l = deletedMessage l.
Proof.
  unfold positiveReply, bind. intros H.
  destruct (validateReply E wi w) as [o w1] eqn:Hv.
  destruct (preserves_run _ _ _ _ _
              (validateReply_preserves notDelete wi (fun _ => eq_refl) (fun _ _ => eq_refl)) Hv)
    as (e1 & T1 & F1).
  destruct o as [[valid send]| | |]; try discriminate. simpl in H.
  destruct valid.
  - destruct (ackAndCommit_deletes wi w1) as (l2 & w2 & e2 & H2 & D2 & L2 & _ & T2 & F2).
    rewrite H2 in H. simplify_eq. exists (e1 ++ e2). rewrite D2, L2. repeat split.
    + by rewrite T2, T1, app_assoc.
    + by rewrite List.filter_app, (filter_none _ _ F1), F2.
  - unfold ret in H. simplify_eq. exists e1. simpl. repeat split; [done|].
    apply filter_none, F1.
Qed.

Ltac solve_always := try exact I.

Lemma reconcileUsage_runs (wi : HandleReply) (agreement : Agreement) (pol consumerPolicy : Policy) :
  Workloads pol <> [] ->
  (exists i wl, NextHighestPriorityWorkload E consumerPolicy 0 0 0 = Some i /\
                Workloads consumerPolicy !! i = Some wl) ->
  runs always (reconcileUsage E wi agreement pol consumerPolicy).
Proof.
  intros Hp (i & wl & Hn & Hi). unfold reconcileUsage. unfold_store.
  repeat runs_step; solve_always; simplify_eq.
Qed.

Lemma validateReply_runs (wi : HandleReply) :
  usablePolicies E -> runs always (validateReply E wi).
Proof.
  intros HU. unfold validateReply.
  repeat first [ progress unfold_store
               | match goal with
                 | |- runs _ (reconcileUsage _ _ _ _ _) => apply reconcileUsage_runs
                 end
               | runs_step ];
    solve_always.
  - match goal with H : DemarshalPolicy E (TsAndCs _) = Good _ |- _ => apply HU in H as [H _]; exact H end.
  - match goal with H : DemarshalPolicy E (AgPolicy _) = Good _ |- _ => apply HU in H as [_ H]; exact H end.
Qed.

Lemma HandleAgreementReply_runs (wi : HandleReply) :
  usablePolicies E -> runs always (HandleAgreementReply E wi).
Proof.
  intros HU. unfold HandleAgreementReply, positiveReply.
  repeat first
    [ match goal with
      | |- runs _ (validateReply _ _) => by apply validateReply_runs
      | |- runs _ (ackAndCommit _ _) =>
          intros w; destruct (ackAndCommit_deletes wi w) as (l & w' & _ & H & _); by exists l, w'
      | |- runs _ (sendAck _ _ _) =>
          apply (runs_always (emitting (fun _ => True))), sendAck_runs; done
      | |- runs _ (CancelAgreement _ _ _) =>
          apply (runs_always (emitting (fun _ => True))), CancelAgreement_runs; done
      end
    | runs_step ];
    solve_always.
Qed.

(** C9: when the message id of the reply is not zero, every run of
    [HandleAgreementReply] that returns has deleted the inbound message
    exactly once, whatever path it took; and the handler returns whenever
    the policies it demarshals are usable. *)
Theorem HandleAgreementReply_deletes_message_once (wi : HandleReply) (w : World) :
  MessageId wi <> 0%Z ->
  (forall b w', HandleAgreementReply E wi w = (Ok b, w') ->
     List.filter isDeleteMessage (since w w') = [DeleteMessage (MessageId wi)]) /\
  (usablePolicies E -> exists b w', HandleAgreementReply E wi w = (Ok b, w')).
Proof.
  intros Hm. apply Z.eqb_neq in Hm.
  assert (Hdel : deletion wi = [DeleteMessage (MessageId wi)]) by (unfold deletion; by rewrite Hm).
  split.
  - intros b w' H. unfold HandleAgreementReply in H.
    apply bind_inv in H as ([] & w0 & H0 & H). unfold call in H0. simplify_eq.
    apply bind_inv in H as (l & w2 & Hl & H).
    assert (exists evs, trace w2 = trace w ++ [Lock (AgreementId (Reply wi))] ++ evs /\
              List.filter isDeleteMessage evs = (if deletedMessage l then deletion wi else []) /\
              droppedLock l = deletedMessage l) as (evs & T & F & L).
    { destruct (ProposalAccepted (Reply wi)).
      - apply bind_inv in Hl as (l1 & w1 & Hp & Hl).
        apply bind_inv in Hl as ([] & w1' & Hack & Hret). unfold ret in Hret. simplify_eq.
        destruct (positiveReply_deletes wi _ _ _ Hp) as (e1 & T1 & F1 & L1).
        destruct (runs_when (emitting notDelete) (negb (ackReplyAsValid l) && sendReply l) _
                    (sendAck_runs notDelete wi false (fun _ => eq_refl)) w1)
          as ([] & w3 & H3 & e3 & T3 & F3).
        rewrite H3 in Hack. simplify_eq.
        exists (e1 ++ e3). repeat split; [|by rewrite List.filter_app, F1, (filter_none _ _ F3), app_nil_r|done].
        rewrite T3, T1. simpl. by rewrite <- !app_assoc.
      - apply bind_inv in Hl as ([] & w1 & Hc & Hret). unfold ret in Hret. simplify_eq.
        destruct (CancelAgreement_runs notDelete (AgreementId (Reply wi))
                    (GetTerminationCode E TERM_REASON_NEGATIVE_REPLY) ltac:(solve_cancelCall)
                    (log (Lock (AgreementId (Reply wi))) w))
          as ([] & w3 & H3 & e3 & T3 & F3).
        rewrite H3 in Hc. simplify_eq.
        exists e3. simpl. repeat split; [|by apply filter_none].
        rewrite T3. simpl. by rewrite <- !app_assoc. }
    rewrite L, Hm in H. unfold when, call, bind, ret in H.
    destruct (deletedMessage l); simpl in H; simplify_eq;
      (erewrite since_app; [|simpl; rewrite T, <- ?app_assoc; reflexivity]);
      simpl; rewrite ?List.filter_app, F, ?Hdel; done.
  - intros HU. destruct (HandleAgreementReply_runs wi HU w) as (b & w' & H & _). eauto.
Qed.

Lemma call_run (c : Call) (w : World) : call c w = (Ok tt, log c w).
Proof. reflexivity. Qed.

(** The end of the reply handler, once the lock is dropped and the message
    is deleted. *)
Lemma finish_reply (wi : HandleReply) (l : ReplyLocals) (w : World) :
  droppedLock l = true -> deletedMessage l = true ->
  bind (when (negb (droppedLock l)) (call (Unlock (AgreementId (Reply wi)))))
    (fun _ => bind (when (negb (MessageId wi =? 0)%Z && negb (deletedMessage l))
                      (call (DeleteMessage (MessageId wi))))
       (fun _ => ret (ackReplyAsValid l))) w
  = (Ok (ackReplyAsValid l), w).
Proof. intros -> ->. by rewrite andb_false_r. Qed.

Lemma sendAck_run (wi : HandleReply) (accepted : bool) (w : World) :
  exists w', sendAck E wi accepted w = (Ok tt, w') /\
    trace w' = trace w ++ acks E wi accepted /\
    agreements w' = agreements w /\ usages w' = usages w.
Proof.
  unfold sendAck, acks. destruct (CreateMessageTarget E _ _ _).
  - eexists. split; [reflexivity|]. done.
  - exists w. split; [reflexivity|]. by rewrite app_nil_r.
Qed.

Lemma CancelAgreementWithLock_shape (id : string) (reason : N) (w : World) :
  exists w' cancel, CancelAgreementWithLock E id reason w = (Ok tt, w') /\
    trace w' = trace w ++ [Lock id] ++ cancel ++ [Unlock id; DeleteAgreementLock id] /\
    Forall cancelCall cancel.
Proof.
  destruct (CancelAgreement_runs cancelCall id reason (fun _ H => H) (log (Lock id) w))
    as ([] & w1 & H1 & e1 & T1 & F1).
  unfold CancelAgreementWithLock. unfold call at 1. unfold bind at 1.
  rewrite (bind_ok _ _ _ _ _ H1). unfold call, bind.
  eexists _, e1. split; [reflexivity|]. split; [|done].
  simpl. rewrite T1. simpl. by rewrite <- !app_assoc.
Qed.

(** C1 (amended): once a positive reply is validated, the handler sends the
    positive ack if the message target of the sender can be created (and
    no ack otherwise), deletes the inbound message if there is one,
    releases the lock of the agreement id, and only then invokes the ledger
    commit [PostReply], in that order and with nothing in between; from the
    lock taken at the start to that release there is no other operation on
    a lock and no commit.  If the
    commit succeeds the handler returns true.  If it fails, the handler
    runs [CancelAgreementWithLock] with the code of
    [TERM_REASON_CANCEL_BC_WRITE_FAILED]: the lock is taken again, the
    agreement is cancelled, the lock is released and deleted. *)
Theorem HandleAgreementReply_commit_order (wi : HandleReply) (w w1 : World) (send : bool) :
  ProposalAccepted (Reply wi) = true ->
  validateReply E wi (log (Lock (AgreementId (Reply wi))) w) = (Ok (true, send), w1) ->
  exists wc w',
    trace wc = trace w1 ++ acks E wi true ++ deletion wi
                 ++ [Unlock (AgreementId (Reply wi)); PostReply (AgreementId (Reply wi))] /\
    (exists middle,
       since w wc = Lock (AgreementId (Reply wi)) :: middle
                      ++ [Unlock (AgreementId (Reply wi)); PostReply (AgreementId (Reply wi))] /\
       Forall underLock middle) /\
    agreements wc = agreements w1 /\ usages wc = usages w1 /\
    match PostReplyResult E (AgreementId (Reply wi)) with
    | Good _ => HandleAgreementReply E wi w = (Ok true, wc)
    | Err =>
        HandleAgreementReply E wi w = (Ok false, w') /\
        exists w2 cancel,
          CancelAgreementWithLock E (AgreementId (Reply wi))
            (GetTerminationCode E TERM_REASON_CANCEL_BC_WRITE_FAILED) wc = (Ok tt, w2) /\
          trace w2 = trace wc ++ [Lock (AgreementId (Reply wi))] ++ cancel
                       ++ [Unlock (AgreementId (Reply wi));
                           DeleteAgreementLock (AgreementId (Reply wi))] /\
          Forall cancelCall cancel /\
          trace w' = trace w2 ++ acks E wi false /\
          agreements w' = agreements w2 /\ usages w' = usages w2
    end.
Proof.
  intros Hacc Hv.
  destruct (sendAck_run wi true w1) as (wa & Ha & Ta & Aa & Ua).
  set (id := AgreementId (Reply wi)) in *.
  set (wd := if negb (MessageId wi =? 0)%Z then log (DeleteMessage (MessageId wi)) wa else wa).
  set (wc := log (PostReply id) (log (Unlock id) wd)).
  assert (Tc : trace wc = trace w1 ++ acks E wi true ++ deletion wi ++ [Unlock id; PostReply id]).
  { unfold wc, wd, deletion. destruct (MessageId wi =? 0)%Z; simpl; rewrite Ta, <- ?app_assoc; done. }
  assert (Ac : agreements wc = agreements w1 /\ usages wc = usages w1).
  { unfold wc, wd. by destruct (MessageId wi =? 0)%Z. }
  destruct Ac as [Ac Uc].
  assert (Hmid : exists middle,
            since w wc = Lock id :: middle ++ [Unlock id; PostReply id] /\
            Forall underLock middle).
  { destruct (preserves_run _ _ _ _ _
                (validateReply_preserves underLock wi (fun _ => I) (fun _ _ => I)) Hv)
      as (e1 & T1 & F1).
    exists (e1 ++ acks E wi true ++ deletion wi). split.
    - apply since_app. rewrite Tc, T1. simpl. rewrite <- !app_assoc. reflexivity.
    - apply Forall_app. split; [exact F1|]. apply Forall_app. split.
      + unfold acks. destruct (CreateMessageTarget E _ _ _); by repeat constructor.
      + unfold deletion. destruct (MessageId wi =? 0)%Z; by repeat constructor. }
  assert (Hcommit : forall B (k : unit -> M B),
            bind (sendAck E wi true)
              (fun _ => bind (when (negb (MessageId wi =? 0)%Z) (call (DeleteMessage (MessageId wi))))
                 (fun _ => bind (call (Unlock id)) (fun _ => bind (call (PostReply id)) k))) w1
            = k tt wc).
  { intros B k. rewrite (bind_ok _ _ _ _ _ Ha), (bind_ok _ _ _ _ _ (when_call _ _ _)). done. }
  assert (Hpos : positiveReply E wi (log (Lock id) w) = ackAndCommit E wi w1).
  { unfold positiveReply. by rewrite (bind_ok _ _ _ _ _ Hv). }
  unfold HandleAgreementReply. fold id.
  rewrite (bind_ok _ _ _ _ _ (call_run _ _)), Hacc.
  destruct (PostReplyResult E id) eqn:Hpost.
  - exists wc, wc. repeat split; try done.
    assert (Hack : ackAndCommit E wi w1 = (Ok (mkReplyLocals true true true true), wc)).
    { unfold ackAndCommit. fold id. by rewrite Hcommit, Hpost. }
    rewrite Hack in Hpos.
    erewrite bind_ok; [|erewrite bind_ok; [|exact Hpos]; reflexivity].
    apply finish_reply; done.
  - destruct (CancelAgreementWithLock_shape id
                (GetTerminationCode E TERM_REASON_CANCEL_BC_WRITE_FAILED) wc)
      as (w2 & cancel & H2 & T2 & F2).
    destruct (sendAck_run wi false w2) as (w3 & H3 & T3 & A3 & U3).
    exists wc, w3. repeat split; try done.
    + assert (Hack : ackAndCommit E wi w1 = (Ok (mkReplyLocals true true false true), w2)).
      { unfold ackAndCommit. fold id. by rewrite Hcommit, Hpost, (bind_ok _ _ _ _ _ H2). }
      rewrite Hack in Hpos.
      erewrite bind_ok;
        [|erewrite bind_ok; [|exact Hpos]; cbn [ackReplyAsValid sendReply negb andb when];
          rewrite (bind_ok _ _ _ _ _ H3); reflexivity].
      apply finish_reply; done.
    + exists w2, cancel. done.
Qed.

(** The run of the reply handler up to the reconciliation of the workload
    usage, for a reply that finds its agreement, is the first reply to it,
    and can be persisted and published. *)
Lemma validateReply_reaches_reconcile (wi : HandleReply) (w : World) (agreement : Agreement)
    (proposal : Proposal) (pol consumerPolicy : Policy) (u : unit) :
  let id := AgreementId (Reply wi) in
  lookupAgreement id (Name E) true (agreements w) = Some agreement ->
  storeFault E (OpFindSingleAgreementByAgreementId id (Name E) true) = false ->
  replied agreement = 0%Z ->
  DemarshalProposal E (AgProposal agreement) = Good proposal ->
  DemarshalPolicy E (TsAndCs proposal) = Good pol ->
  storeFault E (OpPersistReply id (Name E) (RAddress (Reply wi)) (RVersion (Reply wi))) = false ->
  RecordConsumerAgreementStateResult E id "Producer agreed" = Good u ->
  DemarshalPolicy E (AgPolicy agreement) = Good consumerPolicy ->
  exists wp,
    trace wp = trace w ++ [Lock id;
                           Store (OpPersistReply id (Name E) (RAddress (Reply wi)) (RVersion (Reply wi)));
                           RecordConsumerAgreementState id "Producer agreed"] /\
    usages wp = usages w /\
    validateReply E wi (log (Lock id) w)
    = bind (reconcileUsage E wi agreement pol consumerPolicy) (fun valid => ret (valid, true)) wp.
Proof.
  intros id Hl Hf Hr Hp Ht Hpf Hs Hc.
  assert (Ha : AlreadyReceivedReply agreement = false).
  { unfold AlreadyReceivedReply. by rewrite Hr. }
  eexists. split; [|split]; cycle 2.
  - unfold validateReply. fold id.
    unfold FindSingleAgreementByAgreementId, storeRead. unfold bind at 1. rewrite Hf.
    cbn [agreements log]. rewrite Hl, Ha, Hp, Ht.
    unfold PersistReply, updateAgreement, writeAgreements. fold id. unfold bind at 1. rewrite Hpf.
    cbn [agreements log]. rewrite Hl, Ha.
    rewrite (bind_ok _ _ _ _ _ (call_run _ _)), Hs, Hc. reflexivity.
  - simpl. by rewrite <- !app_assoc.
  - done.
Qed.

(** The reconciliation when there is no workload usage record (lines
    399-412). *)
Lemma reconcileUsage_absent (wi : HandleReply) (w : World) (agreement : Agreement)
    (pol consumerPolicy : Policy) (i : nat) (workload w0 : Workload) (rest : list Workload) :
  let device := SenderId wi in
  let name := HeaderName consumerPolicy in
  let creation :=
    OpNewWorkloadUsage device (Partners pol) (AgPolicy agreement) name
      (PriorityValue (Priority w0)) (RetryDurationS (Priority w0))
      (VerifiedDurationS (Priority w0)) false (AgreementId (Reply wi)) in
  storeFault E (OpFindSingleWorkloadUsageByDeviceAndPolicyName device name) = false ->
  usages w !! (device, name) = None ->
  NextHighestPriorityWorkload E consumerPolicy 0 0 0 = Some i ->
  Workloads consumerPolicy !! i = Some workload ->
  Workloads pol = w0 :: rest ->
  reconcileUsage E wi agreement pol consumerPolicy w
  = if negb (IsSame E (Priority workload) (Priority w0)) then (Ok false, w)
    else if negb (HasEmptyPriority E w0) then
           (Ok true,
            if storeFault E creation then log (Store creation) w
            else setUsages
                   (<[(device, name) :=
                        newUsage E device (Partners pol) (AgPolicy agreement) name
                          (PriorityValue (Priority w0)) (RetryDurationS (Priority w0))
                          (VerifiedDurationS (Priority w0)) false (AgreementId (Reply wi))]>
                      (usages w))
                   (log (Store creation) w))
         else (Ok true, w).
Proof.
  intros device name creation Hf Hu Hn Hi Hw.
  unfold reconcileUsage. fold device name.
  unfold FindSingleWorkloadUsageByDeviceAndPolicyName, storeRead. unfold bind at 1.
  rewrite Hf, Hu, Hn, Hi, Hw.
  destruct (IsSame E _ _); cbn [negb]; [|done].
  destruct (HasEmptyPriority E w0); cbn [negb]; [done|].
  unfold NewWorkloadUsage, writeUsages, bind, ret. fold creation.
  destruct (storeFault E creation); [done|].
  cbn [usages log]. by rewrite Hu.
Qed.

(** C3 (amended): in reply handling, when there is no workload usage
    record for the sender and the policy name: if the priority of the
    workload in the terms-and-conditions policy differs from the priority
    of [NextHighestPriorityWorkload(0,0,0)] of the consumer policy, the ack
    is marked invalid (the handler returns false without a commit) and the
    negative ack is sent if the message target of the sender can be
    created; if the priorities are the same and the priority is not empty,
    [NewWorkloadUsage] is called with [reqsNotMet = false] and the
    agreement id of the reply, and unless the store fails the record is
    there. *)
Theorem HandleAgreementReply_without_usage (wi : HandleReply) (w : World) (agreement : Agreement)
    (proposal : Proposal) (pol consumerPolicy : Policy) (u : unit)
    (i : nat) (workload w0 : Workload) (rest : list Workload) :
  let id := AgreementId (Reply wi) in
  let device := SenderId wi in
  let name := HeaderName consumerPolicy in
  let persist := OpPersistReply id (Name E) (RAddress (Reply wi)) (RVersion (Reply wi)) in
  let creation :=
    OpNewWorkloadUsage device (Partners pol) (AgPolicy agreement) name
      (PriorityValue (Priority w0)) (RetryDurationS (Priority w0))
      (VerifiedDurationS (Priority w0)) false id in
  ProposalAccepted (Reply wi) = true ->
  lookupAgreement id (Name E) true (agreements w) = Some agreement ->
  storeFault E (OpFindSingleAgreementByAgreementId id (Name E) true) = false ->
  replied agreement = 0%Z ->
  DemarshalProposal E (AgProposal agreement) = Good proposal ->
  DemarshalPolicy E (TsAndCs proposal) = Good pol ->
  storeFault E persist = false ->
  RecordConsumerAgreementStateResult E id "Producer agreed" = Good u ->
  DemarshalPolicy E (AgPolicy agreement) = Good consumerPolicy ->
  storeFault E (OpFindSingleWorkloadUsageByDeviceAndPolicyName device name) = false ->
  usages w !! (device, name) = None ->
  NextHighestPriorityWorkload E consumerPolicy 0 0 0 = Some i ->
  Workloads consumerPolicy !! i = Some workload ->
  Workloads pol = w0 :: rest ->
  (IsSame E (Priority workload) (Priority w0) = false ->
   exists w',
     HandleAgreementReply E wi w = (Ok false, w') /\
     since w w' = [Lock id; Store persist; RecordConsumerAgreementState id "Producer agreed"]
                    ++ acks E wi false ++ [Unlock id] ++ deletion wi /\
     usages w' = usages w) /\
  (IsSame E (Priority workload) (Priority w0) = true ->
   HasEmptyPriority E w0 = false ->
   exists w2,
     validateReply E wi (log (Lock id) w) = (Ok (true, true), w2) /\
     since w w2 = [Lock id; Store persist; RecordConsumerAgreementState id "Producer agreed";
                   Store creation] /\
     (storeFault E creation = false ->
      exists r, usages w2 !! (device, name) = Some r /\
        ReqsNotMet r = false /\ UsCurrentAgreementId r = id /\
        UsPriority r = PriorityValue (Priority w0))).
Proof.
  intros id device name persist creation
    Hacc Hl Hf Hr Hp Ht Hpf Hs Hc Hfu Hu Hn Hi Hw.
  destruct (validateReply_reaches_reconcile wi w agreement proposal pol consumerPolicy u
              Hl Hf Hr Hp Ht Hpf Hs Hc) as (wp & Tp & Up & Hv).
  fold id persist in Tp, Hv.
  assert (Hup : usages wp !! (device, name) = None) by (by rewrite Up).
  pose proof (reconcileUsage_absent wi wp agreement pol consumerPolicy i workload w0 rest
                Hfu Hup Hn Hi Hw) as Hrec.
  fold id device name creation in Hrec.
  split.
  - intros Hsame. rewrite Hsame in Hrec. cbn [negb] in Hrec.
    rewrite (bind_ok _ _ _ _ _ Hrec) in Hv.
    destruct (sendAck_run wi false wp) as (wa & Ha & Ta & Aa & Ua).
    exists (if negb (MessageId wi =? 0)%Z
            then log (DeleteMessage (MessageId wi)) (log (Unlock id) wa)
            else log (Unlock id) wa).
    split; [|split].
    + unfold HandleAgreementReply. fold id.
      rewrite (bind_ok _ _ _ _ _ (call_run _ _)), Hacc.
      erewrite bind_ok; cycle 1.
      { unfold positiveReply. fold id. rewrite bind_assoc, (bind_ok _ _ _ _ _ Hv). cbn [fst snd].
        unfold ret at 1. unfold bind at 1. cbn [ackReplyAsValid sendReply negb andb when].
        rewrite (bind_ok _ _ _ _ _ Ha). reflexivity. }
      cbn [droppedLock deletedMessage ackReplyAsValid negb when].
      rewrite (bind_ok _ _ _ _ _ (call_run _ _)), andb_true_r.
      rewrite (bind_ok _ _ _ _ _ (when_call _ _ _)). reflexivity.
    + apply since_app. unfold deletion.
      destruct (MessageId wi =? 0)%Z; simpl; rewrite Ta, Tp, <- ?app_assoc; done.
    + destruct (MessageId wi =? 0)%Z; simpl; by rewrite Ua.
  - intros Hsame Hne. rewrite Hsame, Hne in Hrec. cbn [negb] in Hrec.
    rewrite (bind_ok _ _ _ _ _ Hrec) in Hv.
    eexists. split; [exact Hv|]. split.
    + apply since_app. destruct (storeFault E creation); simpl; rewrite Tp, <- !app_assoc; done.
    + intros Hfc. rewrite Hfc. cbn [usages setUsages].
      eexists. split; [apply lookup_insert_eq|]. done.
Qed.

(** ** The selection loop *)

#[local] Instance usageOnly_preorder : PreOrder usageOnly.
Proof.
  split.
  - intros w. split; [reflexivity | done].
  - intros w1 w2 w3 [H1 A1] [H2 A2]. split; [by etrans | congruence].
Qed.

Lemma usageOnly_log (c : Call) (w : World) : usageCall c -> usageOnly w (log c w).
Proof. intros H. split; [by apply emitting_log | done]. Qed.

Lemma usageOnly_setUsages (m : gmap (string * string) WorkloadUsage) (w : World) :
  usageOnly w (setUsages m w).
Proof. split; [apply emitting_setUsages | done]. Qed.

Ltac solve_usageOnly :=
  try apply usageOnly_setUsages; try (apply usageOnly_log; exact I).

Lemma mergeProducers_pure (patterned : bool) (ms : list Microservice) (specs : list APISpec)
    (asl : APISpecList) (merged : option Policy) (w : World) :
  (mergeProducers E patterned ms specs asl merged w).2 = w.
Proof.
  revert asl merged. induction specs as [|apiSpec specs IH]; intros asl merged; simpl; [done|].
  repeat case_match; try apply IH; done.
Qed.

Lemma mergeProducers_preserves (R : World -> World -> Prop) `{!PreOrder R}
    (patterned : bool) (ms : list Microservice) (specs : list APISpec)
    (asl : APISpecList) (merged : option Policy) :
  preserves R (mergeProducers E patterned ms specs asl merged).
Proof. intros w. rewrite mergeProducers_pure. reflexivity. Qed.

Lemma selectStep_usageOnly (agid : string) (ms : list Microservice) (s : Selection) :
  preserves usageOnly (selectStep E agid ms s).
Proof.
  unfold selectStep, chooseWorkload. unfold_store.
  repeat first [ apply mergeProducers_preserves; apply _ | preserves_step ];
    solve_usageOnly.
Qed.

Lemma selectLoop_usageOnly (fuel : nat) (agid : string) (ms : list Microservice) (s : Selection) :
  preserves usageOnly (selectLoop E fuel agid ms s).
Proof.
  revert s. induction fuel as [|fuel IH]; intros s; simpl.
  - destruct (foundWorkload s); [apply preserves_ret | apply preserves_outOfFuel]; apply _.
  - destruct (foundWorkload s); [apply preserves_ret; apply _|].
    apply preserves_bind; [apply _ | apply selectStep_usageOnly | intros s'; apply IH].
Qed.

Lemma selectWorkload_usageOnly (fuel : nat) (agid : string) (wi : InitiateAgreement) :
  preserves usageOnly (selectWorkload E fuel agid wi).
Proof.
  unfold selectWorkload, deviceMicroservices.
  repeat first [ apply selectLoop_usageOnly | preserves_step ].
Qed.

(** While no workload is found, an iteration leaves the consumer policy
    and the device of the work item as they are. *)
Lemma selectStep_keeps (agid : string) (ms : list Microservice) (s : Selection) :
  yields (fun s' => foundWorkload s' = false ->
                    ConsumerPolicy (item s') = ConsumerPolicy (item s) /\
                    IDevice (item s') = IDevice (item s))
    (selectStep E agid ms s).
Proof.
  unfold selectStep, withMerged. repeat yields_step; cbn [foundWorkload item]; try done;
    intros _; repeat case_match; done.
Qed.

Lemma selectStep_createsFor (agid : string) (ms : list Microservice) (s : Selection) :
  preserves (emitting (createsFor E (Workloads (ConsumerPolicy (item s)))))
    (selectStep E agid ms s).
Proof.
  unfold selectStep, chooseWorkload. unfold_store.
  repeat first [ apply mergeProducers_preserves; apply _ | preserves_step ];
    try apply emitting_setUsages; apply emitting_log; try exact I.
  cbn [createsFor].
  match goal with
  | Hl : Workloads _ !! _ = Some ?wl, Hn : negb (HasEmptyPriority E ?wl) = true |- _ =>
      exists wl; split; [by eapply list_elem_of_lookup_2 | split; [by apply negb_true_iff | done]]
  end.
Qed.

Lemma selectLoop_createsFor (fuel : nat) (agid : string) (ms : list Microservice)
    (wls : list Workload) (s : Selection) :
  (foundWorkload s = false -> Workloads (ConsumerPolicy (item s)) = wls) ->
  preserves (emitting (createsFor E wls)) (selectLoop E fuel agid ms s).
Proof.
  revert s. induction fuel as [|fuel IH]; intros s Hs; simpl.
  - destruct (foundWorkload s); [apply preserves_ret | apply preserves_outOfFuel]; apply _.
  - destruct (foundWorkload s) eqn:Hf; [apply preserves_ret; apply _|].
    eapply preserves_bind_yields; [apply _ | | apply selectStep_keeps |].
    + rewrite <- (Hs eq_refl). apply selectStep_createsFor.
    + intros s' Hk. apply IH. intros Hf'. destruct (Hk Hf') as [-> _]. by apply Hs.
Qed.

Lemma withMerged_consumer (patterned : bool) (merged : option Policy) (wi : InitiateAgreement) :
  ConsumerPolicy (withMerged patterned merged wi) = ConsumerPolicy wi.
Proof. unfold withMerged. by repeat case_match. Qed.

Lemma withMerged_device (patterned : bool) (merged : option Policy) (wi : InitiateAgreement) :
  IDevice (withMerged patterned merged wi) = IDevice wi.
Proof. unfold withMerged. by repeat case_match. Qed.




(** When the loop chooses the workload it tried in the previous iteration,
    it calls [DeleteWorkloadUsage] for the device and the policy name,
    whether or not the record was created in this loop, and leaves the
    function; no agreement is created. *)
Lemma selectStep_same_workload (agid : string) (ms : list Microservice) (s : Selection) (w : World) :
  let device := Id (IDevice (item s)) in
  let name := HeaderName (ConsumerPolicy (item s)) in
  let del := OpDeleteWorkloadUsage device name in
  chooseWorkload E (item s) w = (Ok (lastWorkload s), w) ->
  exists w', selectStep E agid ms s w = (Exit, w') /\
    trace w' = trace w ++ [Store del] /\
    agreements w' = agreements w /\
    (storeFault E del = false -> usages w' = delete (device, name) (usages w)).
Proof.
  intros device name del Hchoose.
  unfold selectStep. rewrite (bind_ok _ _ _ _ _ Hchoose).
  rewrite bool_decide_eq_true_2 by done.
  unfold DeleteWorkloadUsage, writeUsages, bind, exit. fold device name del.
  destruct (storeFault E del); eexists; (split; [reflexivity|]); done.
Qed.

(** More fuel does not change a run of the loop that ended. *)
Lemma selectLoop_more_fuel (fuel extra : nat) (agid : string) (ms : list Microservice)
    (s : Selection) (w : World) :
  (selectLoop E fuel agid ms s w).1 <> OutOfFuel ->
  selectLoop E (fuel + extra) agid ms s w = selectLoop E fuel agid ms s w.
Proof.
  revert s w. induction fuel as [|fuel IH]; intros s w; simpl.
  - destruct (foundWorkload s) eqn:Hf; [intros _|done].
    destruct extra; simpl; by rewrite Hf.
  - destruct (foundWorkload s); [done|].
    unfold bind. destruct (selectStep E agid ms s w) as [[s'| | |] w1]; try done.
    apply IH.
Qed.

(** ** The proposal *)






Lemma selectWorkload_run (fuel : nat) (agid : string) (wi : InitiateAgreement)
    (w w1 : World) (o : Outcome Selection) :
  selectWorkload E fuel agid wi w = (o, w1) ->
  exists evs, trace w1 = trace w ++ evs /\ Forall usageCall evs /\ agreements w1 = agreements w.
Proof.
  intros H. destruct (preserves_run _ _ _ _ _ (selectWorkload_usageOnly fuel agid wi) H)
    as [(evs & T & F) A]. by exists evs.
Qed.

Lemma InitiateNewAgreement_selection_fails (fuel : nat) (wi : InitiateAgreement) (w w1 : World)
    (agid bcType bcName bcOrg : string) :
  GenerateAgreementId E = Good agid ->
  RequiresKnownBC E (ProducerPolicy wi) (Name E) = (bcType, bcName, bcOrg) ->
  AgreementProtocolHandler E bcType bcName bcOrg = true ->
  selectWorkload E fuel agid wi (log (Lock agid) w) = (Exit, w1) ->
  InitiateNewAgreement E fuel wi w = (Ok tt, log (Unlock agid) w1) /\
  agreements (log (Unlock agid) w1) = agreements w.
Proof.
  intros Hg Hbc Hph Hs.
  destruct (selectWorkload_run _ _ _ _ _ _ Hs) as (e1 & T1 & F1 & A1).
  split; [|exact A1].
  unfold InitiateNewAgreement. rewrite Hg, Hbc, Hph. cbn [negb].
  rewrite (bind_ok _ _ _ _ _ (call_run _ _)).
  unfold defer, callee, bind. by rewrite Hs.
Qed.


(** ** Creation of workload usage records *)

Lemma proposeAgreement_emits (P : Call -> Prop) (agid bcType bcName bcOrg : string) (s : Selection) :
  (forall c, isNewWorkloadUsage c = false -> P c) ->
  preserves (emitting P) (proposeAgreement E agid bcType bcName bcOrg s).
Proof.
  intros HP. unfold proposeAgreement. unfold_store.
  repeat preserves_step; try apply emitting_setAgreements; apply emitting_log, HP; done.
Qed.

Lemma InitiateNewAgreement_createsFor (fuel : nat) (wi : InitiateAgreement) :
  preserves (emitting (createsFor E (Workloads (ConsumerPolicy wi))))
    (InitiateNewAgreement E fuel wi).
Proof.
  unfold InitiateNewAgreement, selectWorkload, deviceMicroservices.
  repeat first
    [ match goal with
      | |- preserves _ (selectLoop _ _ _ _ _) => by apply selectLoop_createsFor
      | |- preserves _ (proposeAgreement _ _ _ _ _ _) =>
          apply proposeAgreement_emits; intros [| | | | | | | | | | |[]]; done
      end
    | preserves_step ];
    apply emitting_log; exact I.
Qed.

Lemma CancelAgreementWithLock_preserves (P : Call -> Prop) (id : string) (reason : N) :
  (forall c, isNewWorkloadUsage c = false -> P c) ->
  preserves (emitting P) (CancelAgreementWithLock E id reason).
Proof.
  intros HP. apply runs_preserves, CancelAgreementWithLock_runs; try (apply HP; done).
  intros c Hc. apply HP. revert Hc. destruct c as [| | | | | | | | | | |[]]; done.
Qed.

Lemma CancelAgreement_preserves (P : Call -> Prop) (id : string) (reason : N) :
  (forall c, isNewWorkloadUsage c = false -> P c) ->
  preserves (emitting P) (CancelAgreement E id reason).
Proof.
  intros HP. apply runs_preserves, CancelAgreement_runs.
  intros c Hc. apply HP. revert Hc. destruct c as [| | | | | | | | | | |[]]; done.
Qed.

Lemma HandleAgreementReply_createsForReply (wi : HandleReply) :
  preserves (emitting (createsForReply E)) (HandleAgreementReply E wi).
Proof.
  unfold HandleAgreementReply, positiveReply, validateReply, reconcileUsage, ackAndCommit, sendAck.
  unfold_store.
  repeat first
    [ match goal with
      | |- preserves _ (CancelAgreementWithLock _ _ _) =>
          apply CancelAgreementWithLock_preserves; intros [| | | | | | | | | | |[]]; done
      | |- preserves _ (CancelAgreement _ _ _) =>
          apply CancelAgreement_preserves; intros [| | | | | | | | | | |[]]; done
      end
    | preserves_step ];
    try apply emitting_setAgreements; try apply emitting_setUsages;
    apply emitting_log; try exact I.
  cbn [createsForReply].
  match goal with
  | Hd : DemarshalPolicy E ?text = Good ?pol, Hw : Workloads ?pol = ?w0 :: ?rest,
    Hn : negb (HasEmptyPriority E ?w0) = true |- _ =>
      exists text, pol, w0, rest; repeat split; [exact Hd | exact Hw | by apply negb_true_iff]
  end.
Qed.

Lemma others_create_nothing :
  (forall wi, preserves (emitting (fun c => isNewWorkloadUsage c = false)) (HandleDataReceivedAck E wi)) /\
  (forall wi, preserves (emitting (fun c => isNewWorkloadUsage c = false)) (HandleWorkloadUpgrade E wi)) /\
  (forall id reason,
     preserves (emitting (fun c => isNewWorkloadUsage c = false)) (CancelAgreementWithLock E id reason)) /\
  (forall id reason,
     preserves (emitting (fun c => isNewWorkloadUsage c = false)) (ExternalCancel E id reason)).
Proof.
  split; [|split; [|split]].
  - intros wi. unfold HandleDataReceivedAck. unfold_store. preserves_emitting.
  - intros wi. unfold HandleWorkloadUpgrade. unfold_store.
    repeat first
      [ match goal with
        | |- preserves _ (CancelAgreementWithLock _ _ _) =>
            by apply CancelAgreementWithLock_preserves
        end
      | preserves_step ];
      solve_emitting.
  - intros id reason. by apply CancelAgreementWithLock_preserves.
  - intros id reason. unfold ExternalCancel, DoAsyncCancel. unfold_store. preserves_emitting.
Qed.

(** C8: no handler of the core creates a workload usage record for a
    workload whose priority is empty.  Every [NewWorkloadUsage] call of
    [InitiateNewAgreement] carries the priority of a workload of the
    consumer policy whose priority is not empty; every one of
    [HandleAgreementReply] carries the priority of the first workload of a
    demarshalled policy, and that priority is not empty; the other handlers
    never call [NewWorkloadUsage]. *)
Theorem no_usage_for_empty_priority :
  (forall fuel wi w,
     Forall (createsFor E (Workloads (ConsumerPolicy wi)))
       (since w (InitiateNewAgreement E fuel wi w).2)) /\
  (forall wi w,
     Forall (createsForReply E) (since w (HandleAgreementReply E wi w).2)) /\
  (forall wi w,
     List.filter isNewWorkloadUsage (since w (HandleDataReceivedAck E wi w).2) = []) /\
  (forall wi w,
     List.filter isNewWorkloadUsage (since w (HandleWorkloadUpgrade E wi w).2) = []) /\
  (forall id reason w,
     List.filter isNewWorkloadUsage (since w (CancelAgreementWithLock E id reason w).2) = []) /\
  (forall id reason w,
     List.filter isNewWorkloadUsage (since w (ExternalCancel E id reason w).2) = []).
Proof.
  destruct others_create_nothing as (H1 & H2 & H3 & H4).
  repeat split.
  - intros fuel wi w. apply emitting_since, InitiateNewAgreement_createsFor.
  - intros wi w. apply emitting_since, HandleAgreementReply_createsForReply.
  - intros wi w. apply filter_none, emitting_since, H1.
  - intros wi w. apply filter_none, emitting_since, H2.
  - intros id reason w. apply filter_none, emitting_since, H3.
  - intros id reason w. apply filter_none, emitting_since, H4.
Qed.

(** ** Workload upgrade *)

Lemma AgreementTimedout_run (id protocol : string) (w : World) :
  exists r w', AgreementTimedout E id protocol w = (Ok r, w') /\
    trace w' = trace w ++ [Store (OpAgreementTimedout id protocol)].
Proof.
  unfold AgreementTimedout, updateAgreement, writeAgreements.
  destruct (storeFault E _); [by eexists _, _|].
  destruct (lookupAgreement _ _ _ _); by eexists _, _.
Qed.

Lemma CancelAgreement_starts (id : string) (reason : N) (w : World) :
  exists w' rest, CancelAgreement E id reason w = (Ok tt, w') /\
    trace w' = trace w ++ Store (OpAgreementTimedout id (Name E))
                 :: DeleteConsumerAgreement id :: rest /\
    Forall (reasonIs reason) rest.
Proof.
  destruct (AgreementTimedout_run id (Name E) w) as (r & w1 & H1 & T1).
  unfold CancelAgreement. rewrite (bind_ok _ _ _ _ _ H1), (bind_ok _ _ _ _ _ (call_run _ _)).
  match goal with
  | |- context [bind ?m ?k (log ?c w1)] =>
      assert (Hr : runs (emitting (reasonIs reason)) (bind m k))
  end.
  { unfold terminateFound, detachUsage, DoAsyncCancel, deferred. unfold_store. runs_emitting. }
  destruct (Hr (log (DeleteConsumerAgreement id) w1)) as ([] & w2 & H2 & e2 & T2 & F2).
  exists w2, e2. split; [exact H2|]. split; [|exact F2].
  rewrite T2. simpl. rewrite T1, <- !app_assoc. reflexivity.
Qed.





(** ** Cancellation: the runs of [CancelAgreement] *)

(** A store that does not fail did not fail. *)
Ltac no_fault :=
  match goal with
  | HN : noFaults _, Hf : storeFault _ _ = true |- _ => rewrite HN in Hf; discriminate
  end.

Lemma detachUsage_run (ag : Agreement) (w : World) :
  let key := (DeviceId ag, PolicyName ag) in
  let update := Store (OpUpdateWUAgreementId (DeviceId ag) (PolicyName ag) "") in
  let del := Store (OpDeleteWorkloadUsage (DeviceId ag) (PolicyName ag)) in
  exists w' rest, detachUsage E ag w = (Ok tt, w') /\
    trace w' = trace w ++ update :: rest /\
    (rest = [] \/ rest = [del]) /\
    agreements w' = agreements w /\
    (noFaults E ->
     rest = match usages w !! key with
            | Some u => if ReqsNotMet u then [del] else []
            | None => []
            end /\
     usages w' = match usages w !! key with
                 | Some u => if ReqsNotMet u then delete key (usages w)
                             else <[key := withAgreementId "" u]> (usages w)
                 | None => usages w
                 end).
Proof.
  intros key update del.
  unfold detachUsage, UpdateWUAgreementId, DeleteWorkloadUsage, updateUsage, writeUsages.
  fold key. unfold bind, ret.
  destruct (storeFault E (OpUpdateWUAgreementId _ _ _)) eqn:Hf1.
  { eexists _, []. split; [reflexivity|]. repeat split; auto; no_fault. }
  destruct (usages w !! key) as [u|] eqn:Hu; cbn [usages log setUsages].
  - change (ReqsNotMet (withAgreementId "" u)) with (ReqsNotMet u).
    destruct (ReqsNotMet u).
    + destruct (storeFault E (OpDeleteWorkloadUsage _ _)) eqn:Hf2.
      * eexists _, [del]. split; [reflexivity|]. cbn [trace log setUsages agreements].
        rewrite <- app_assoc. repeat split; auto; no_fault.
      * eexists _, [del]. split; [reflexivity|]. cbn [trace log setUsages agreements usages].
        rewrite <- app_assoc. repeat split; auto.
        apply delete_insert_eq.
    + eexists _, []. split; [reflexivity|]. repeat split; auto.
  - eexists _, []. split; [reflexivity|]. repeat split; auto.
Qed.

Lemma AgreementTimedout_found (id : string) (w : World) (ag : Agreement) :
  lookupAgreement id (Name E) true (agreements w) = Some ag ->
  exists r w1 ag1, AgreementTimedout E id (Name E) w = (Ok r, w1) /\
    trace w1 = trace w ++ [Store (OpAgreementTimedout id (Name E))] /\
    usages w1 = usages w /\
    lookupAgreement id (Name E) true (agreements w1) = Some ag1 /\
    (ag1 = ag \/ ag1 = withTimeout E ag) /\
    (noFaults E -> ag1 = withTimeout E ag /\
                   agreements w1 = <[id := withTimeout E ag]> (agreements w)).
Proof.
  intros Hl. destruct (lookupAgreement_visible _ _ _ _ _ Hl) as [Hm Hv].
  unfold AgreementTimedout, updateAgreement, writeAgreements.
  destruct (storeFault E _) eqn:Hf.
  - eexists _, _, ag. simpl. repeat split; auto; no_fault.
  - rewrite Hl. eexists _, _, (withTimeout E ag). split; [reflexivity|].
    cbn [trace usages agreements setAgreements log]. repeat split; auto.
    rewrite lookupAgreement_insert.
    change (visible (Name E) true (withTimeout E ag)) with (visible (Name E) true ag).
    by rewrite Hv.
Qed.

Lemma ArchiveAgreement_run (id p : string) (reason : N) (text : string) (w : World) :
  exists r w', ArchiveAgreement E id p reason text w = (Ok r, w') /\
    trace w' = trace w ++ [Store (OpArchiveAgreement id p reason text)] /\
    usages w' = usages w /\
    (noFaults E -> forall a, lookupAgreement id p true (agreements w) = Some a ->
       agreements w' = <[id := withArchive reason text a]> (agreements w)).
Proof.
  unfold ArchiveAgreement, updateAgreement, writeAgreements.
  destruct (storeFault E _) eqn:Hf.
  - eexists _, _. split; [reflexivity|]. repeat split; auto. intros; no_fault.
  - destruct (lookupAgreement id p true (agreements w)) as [a|] eqn:Hl;
      eexists _, _; (split; [reflexivity|]); repeat split; auto.
    + intros _ a' Ha. by simplify_eq.
    + intros _ a' Ha. discriminate.
Qed.

(** The run of [CancelAgreement] for an agreement that has an unarchived
    record. *)
Lemma CancelAgreement_found (id : string) (reason : N) (w : World) (ag : Agreement) :
  let key := (DeviceId ag, PolicyName ag) in
  let timedout := Store (OpAgreementTimedout id (Name E)) in
  let update := Store (OpUpdateWUAgreementId (DeviceId ag) (PolicyName ag) "") in
  let del := Store (OpDeleteWorkloadUsage (DeviceId ag) (PolicyName ag)) in
  let archive :=
    Store (OpArchiveAgreement (CurrentAgreementId ag) (Name E) reason (GetTerminationReason E reason)) in
  lookupAgreement id (Name E) true (agreements w) = Some ag ->
  storeFault E (OpFindSingleAgreementByAgreementId id (Name E) true) = false ->
  exists w' ag1 rest,
    CancelAgreement E id reason w = (Ok tt, w') /\
    (ag1 = ag \/ ag1 = withTimeout E ag) /\
    trace w' = trace w ++ [timedout; DeleteConsumerAgreement id; update] ++ rest
                 ++ terminations E id reason ag ag1 ++ [archive] /\
    (rest = [] \/ rest = [del]) /\
    (noFaults E ->
     ag1 = withTimeout E ag /\
     rest = match usages w !! key with
            | Some u => if ReqsNotMet u then [del] else []
            | None => []
            end /\
     usages w' = match usages w !! key with
                 | Some u => if ReqsNotMet u then delete key (usages w)
                             else <[key := withAgreementId "" u]> (usages w)
                 | None => usages w
                 end /\
     (CurrentAgreementId ag = id ->
      agreements w'
      = <[id := withArchive reason (GetTerminationReason E reason) (withTimeout E ag)]>
          (agreements w))).
Proof.
  intros key timedout update del archive Hl Hf.
  destruct (AgreementTimedout_found id w ag Hl) as (r & w1 & ag1 & H1 & T1 & U1 & L1 & Hag & N1).
  unfold CancelAgreement. rewrite (bind_ok _ _ _ _ _ H1), (bind_ok _ _ _ _ _ (call_run _ _)).
  unfold FindSingleAgreementByAgreementId, storeRead. unfold bind at 1.
  rewrite Hf. cbn [agreements log]. rewrite L1.
  assert (Hsame : DeviceId ag1 = DeviceId ag /\ PolicyName ag1 = PolicyName ag /\
                  CurrentAgreementId ag1 = CurrentAgreementId ag /\
                  CounterPartyAddress ag1 = CounterPartyAddress ag /\
                  mustDefer E ag1 = mustDefer E ag)
    by (destruct Hag; subst; done).
  destruct Hsame as (Hd & Hp & Hc & Ha & Hm).
  set (w2 := log (DeleteConsumerAgreement id) w1).
  destruct (detachUsage_run ag1 w2) as (w3 & rest & H3 & T3 & R3 & A3 & N3).
  rewrite Hd, Hp in T3, R3, N3. fold key update del in T3, R3, N3.
  unfold terminateFound, DoAsyncCancel.
  rewrite (bind_ok _ _ _ _ _ H3), (bind_ok _ _ _ _ _ (when_call _ _ _)),
    (bind_ok _ _ _ _ _ (when_call _ _ _)).
  rewrite Hc, Ha, Hm.
  match goal with
  | |- context [bind (ArchiveAgreement E ?i ?p ?r ?t) _ ?w0] =>
      destruct (ArchiveAgreement_run i p r t w0) as (a & w5 & H5 & T5 & U5 & N5);
      set (w4 := w0) in *
  end.
  rewrite (bind_ok _ _ _ _ _ H5).
  exists w5, ag1, rest. split; [reflexivity|]. split; [exact Hag|]. split; [|split; [exact R3|]].
  - rewrite T5. unfold w4, terminations.
    destruct (CanCancelNow E ag1 || bool_decide (CounterPartyAddress ag = "")),
      (mustDefer E ag); cbn [trace log]; rewrite T3; unfold w2; cbn [trace log];
      rewrite T1, <- ?app_assoc; reflexivity.
  - intros HN. destruct (N1 HN) as [-> A1]. destruct (N3 HN) as [Hrest U3].
    unfold w2 in Hrest, U3. cbn [usages log] in Hrest, U3. rewrite U1 in Hrest, U3.
    split; [done|]. split; [exact Hrest|]. split.
    + rewrite U5. unfold w4.
      destruct (CanCancelNow E _ || bool_decide (CounterPartyAddress ag = "")),
        (mustDefer E ag); exact U3.
    + intros Hid.
      assert (A4 : agreements w4 = <[id := withTimeout E ag]> (agreements w)).
      { unfold w4.
        destruct (CanCancelNow E _ || bool_decide (CounterPartyAddress ag = "")),
          (mustDefer E ag); cbn [agreements log]; rewrite A3; exact A1. }
      rewrite (N5 HN (withTimeout E ag)).
      * rewrite A4, Hid. apply insert_insert_eq.
      * rewrite A4, Hid, lookupAgreement_insert.
        destruct (lookupAgreement_visible _ _ _ _ _ Hl) as [_ Hv].
        change (visible (Name E) true (withTimeout E ag)) with (visible (Name E) true ag).
        by rewrite Hv.
Qed.

(** The run of [CancelAgreement] for an agreement that has no unarchived
    record. *)
Lemma CancelAgreement_absent (id : string) (reason : N) (w : World) :
  lookupAgreement id (Name E) true (agreements w) = None ->
  exists w', CancelAgreement E id reason w = (Ok tt, w') /\
    trace w' = trace w ++ [Store (OpAgreementTimedout id (Name E)); DeleteConsumerAgreement id] /\
    agreements w' = agreements w /\ usages w' = usages w.
Proof.
  intros Hl.
  unfold CancelAgreement, AgreementTimedout, updateAgreement, writeAgreements,
    FindSingleAgreementByAgreementId, storeRead, bind, call, ret.
  rewrite Hl.
  destruct (storeFault E (OpAgreementTimedout _ _)),
    (storeFault E (OpFindSingleAgreementByAgreementId _ _ _));
    cbn [agreements log]; rewrite ?Hl;
    eexists; (split; [reflexivity|]); cbn [trace log agreements usages];
    rewrite <- ?app_assoc; done.
Qed.

Lemma lookupAgreement_None (id p : string) (m : gmap string Agreement) :
  (forall a, m !! id = Some a -> Archived a = true \/ AgreementProtocol a <> p) ->
  lookupAgreement id p true m = None.
Proof.
  intros H. unfold lookupAgreement, visible. destruct (m !! id) as [a|]; [|done].
  destruct (H a eq_refl) as [-> | Hp].
  - by rewrite andb_false_r.
  - by rewrite (bool_decide_eq_false_2 _ Hp).
Qed.

(** X1: when the store has no live record of the agreement id (no record at
    all, an archived one, or one of another protocol), [CancelAgreement]
    marks nothing, still asks the exchange to delete the agreement, and
    stops there: no termination, no deferred command, no change of either
    table. *)
Theorem CancelAgreement_unknown_agreement (id : string) (reason : N) (w : World) :
  (forall a, agreements w !! id = Some a -> Archived a = true \/ AgreementProtocol a <> Name E) ->
  exists w', CancelAgreement E id reason w = (Ok tt, w') /\
    since w w' = [Store (OpAgreementTimedout id (Name E)); DeleteConsumerAgreement id] /\
    agreements w' = agreements w /\ usages w' = usages w.
Proof.
  intros H. destruct (CancelAgreement_absent id reason w (lookupAgreement_None _ _ _ H))
    as (w' & Hrun & T & A & U).
  exists w'. repeat split; try done. by apply since_app.
Qed.

(** X2: the order of the calls of [CancelAgreement] for an agreement with a
    live record: the record is marked as timed out, the exchange is told to
    delete the agreement, the agreement id of the workload usage record is
    cleared (and the record deleted, at most once), the protocol handler is
    asked to terminate the agreement if it can cancel now or there is no
    counterparty address, the deferred command is queued if it must be, and
    the last call archives the record.  The termination is never skipped
    for an archive, and nothing follows the archive. *)
Theorem CancelAgreement_call_order (id : string) (reason : N) (w : World) (ag : Agreement) :
  lookupAgreement id (Name E) true (agreements w) = Some ag ->
  storeFault E (OpFindSingleAgreementByAgreementId id (Name E) true) = false ->
  exists w' ag1 rest,
    CancelAgreement E id reason w = (Ok tt, w') /\
    (ag1 = ag \/ ag1 = withTimeout E ag) /\
    (rest = [] \/ rest = [Store (OpDeleteWorkloadUsage (DeviceId ag) (PolicyName ag))]) /\
    since w w'
    = [Store (OpAgreementTimedout id (Name E));
       DeleteConsumerAgreement id;
       Store (OpUpdateWUAgreementId (DeviceId ag) (PolicyName ag) "")]
      ++ rest
      ++ (if CanCancelNow E ag1 || bool_decide (CounterPartyAddress ag = "")
          then [TerminateAgreement (CurrentAgreementId ag) reason] else [])
      ++ (if (AgreementProtocolVersion ag <? 2)%Z
             || (negb (bool_decide (BlockchainType ag = ""))
                 && negb (IsBlockchainWritable E (BlockchainType ag) (BlockchainName ag)
                            (BlockchainOrg ag)))
          then [DeferCommand (mkAsyncCancelAgreement ASYNC_CANCEL id (Name E) reason)] else [])
      ++ [Store (OpArchiveAgreement (CurrentAgreementId ag) (Name E) reason
                   (GetTerminationReason E reason))].
Proof.
  intros Hl Hf.
  destruct (CancelAgreement_found id reason w ag Hl Hf) as (w' & ag1 & rest & Hrun & Hag & T & R & _).
  exists w', ag1, rest. repeat split; try done.
  apply since_app. rewrite T. unfold terminations, mustDefer, deferred.
  rewrite <- !app_assoc. reflexivity.
Qed.

(** X3: when the store does not fail, [CancelAgreement] leaves the record of
    the agreement archived, in the state Archived, with the termination
    reason and its description, and timed out now; every other record of
    the agreement table is as it was.  The record is not live any more, so
    a second [CancelAgreement] of the same agreement only repeats the first
    two calls and changes nothing. *)
Theorem CancelAgreement_archives (id : string) (reason : N) (w : World) (ag : Agreement) :
  noFaults E ->
  lookupAgreement id (Name E) true (agreements w) = Some ag ->
  CurrentAgreementId ag = id ->
  exists w' a',
    CancelAgreement E id reason w = (Ok tt, w') /\
    agreements w' !! id = Some a' /\
    Archived a' = true /\ State a' = ArchivedState /\
    TerminatedReason a' = reason /\ TerminatedDescription a' = GetTerminationReason E reason /\
    terminated a' = now E /\
    CurrentAgreementId a' = id /\ AgreementProtocol a' = Name E /\
    DeviceId a' = DeviceId ag /\ PolicyName a' = PolicyName ag /\
    (forall id', id' <> id -> agreements w' !! id' = agreements w !! id') /\
    (forall reason', exists w'',
       CancelAgreement E id reason' w' = (Ok tt, w'') /\
       since w' w'' = [Store (OpAgreementTimedout id (Name E)); DeleteConsumerAgreement id] /\
       agreements w'' = agreements w' /\ usages w'' = usages w').
Proof.
  intros HN Hl Hid.
  destruct (CancelAgreement_found id reason w ag Hl (HN _))
    as (w' & ag1 & rest & Hrun & _ & _ & _ & Hstate).
  destruct (Hstate HN) as (_ & _ & _ & HA). specialize (HA Hid).
  destruct (lookupAgreement_visible _ _ _ _ _ Hl) as [_ Hv].
  unfold visible in Hv. apply andb_true_iff in Hv as [Hp _]. apply bool_decide_eq_true in Hp.
  exists w', (withArchive reason (GetTerminationReason E reason) (withTimeout E ag)).
  split; [exact Hrun|]. rewrite HA. split; [apply lookup_insert_eq|].
  repeat split; try done.
  - intros id' Hne. by rewrite lookup_insert_ne.
  - intros reason'.
    destruct (CancelAgreement_absent id reason' w') as (w'' & Hrun' & T' & A' & U').
    { rewrite HA. rewrite lookupAgreement_insert. unfold visible. cbn [Archived negb orb].
      by rewrite andb_false_r. }
    exists w''. repeat split; try done; [by apply since_app | by rewrite A'].
Qed.

(** X4: when the store does not fail, [CancelAgreement] releases the
    workload usage record of the device and the policy of the agreement: a
    record with [reqs_not_met] is deleted, so that the next negotiation
    starts from the highest priority again, and any other record only
    loses its agreement id; [DeleteWorkloadUsage] is called exactly in the
    first case, and no other usage record changes. *)
Theorem CancelAgreement_releases_usage (id : string) (reason : N) (w : World) (ag : Agreement) :
  let key := (DeviceId ag, PolicyName ag) in
  noFaults E ->
  lookupAgreement id (Name E) true (agreements w) = Some ag ->
  exists w',
    CancelAgreement E id reason w = (Ok tt, w') /\
    usages w' !! key
    = match usages w !! key with
      | Some u => if ReqsNotMet u then None else Some (withAgreementId "" u)
      | None => None
      end /\
    (forall k, k <> key -> usages w' !! k = usages w !! k) /\
    (In (Store (OpDeleteWorkloadUsage (DeviceId ag) (PolicyName ag))) (since w w') <->
     exists u, usages w !! key = Some u /\ ReqsNotMet u = true).
Proof.
  intros key HN Hl.
  destruct (CancelAgreement_found id reason w ag Hl (HN _))
    as (w' & ag1 & rest & Hrun & _ & T & _ & Hstate).
  destruct (Hstate HN) as (_ & Hrest & HU & _). fold key in Hrest, HU.
  exists w'. split; [exact Hrun|]. rewrite HU. split; [|split].
  - destruct (usages w !! key) as [u|] eqn:Hu; [|exact Hu].
    destruct (ReqsNotMet u); [apply lookup_delete_eq | apply lookup_insert_eq].
  - intros k Hk. destruct (usages w !! key) as [u|]; [|done].
    destruct (ReqsNotMet u); [by rewrite lookup_delete_ne | by rewrite lookup_insert_ne].
  - rewrite (since_app _ _ _ T).
    assert (Hin : forall l l3 l1, In (Store (OpDeleteWorkloadUsage (DeviceId ag) (PolicyName ag)))
                    (l3 ++ l ++ terminations E id reason ag ag1 ++ l1) <->
                  In (Store (OpDeleteWorkloadUsage (DeviceId ag) (PolicyName ag))) l3 \/
                  In (Store (OpDeleteWorkloadUsage (DeviceId ag) (PolicyName ag))) l \/
                  In (Store (OpDeleteWorkloadUsage (DeviceId ag) (PolicyName ag))) l1).
    { intros l l3 l1. unfold terminations. rewrite !in_app_iff.
      destruct (CanCancelNow E ag1 || bool_decide (CounterPartyAddress ag = "")),
        (mustDefer E ag); simpl; intuition discriminate. }
    rewrite Hin, Hrest.
    destruct (usages w !! key) as [u|]; [destruct (ReqsNotMet u) eqn:Hr|]; simpl.
    + split; [intros _; by exists u | auto].
    + split; [intuition discriminate | intros (u' & Hu' & Hr'); simplify_eq; congruence].
    + split; [intuition discriminate | intros (u' & Hu' & _); discriminate].
Qed.

(** ** What the handlers keep of the agreement table *)

Lemma laterRecord_refl (a : Agreement) : laterRecord a a.
Proof. by repeat split. Qed.

Lemma laterRecord_trans (a b c : Agreement) : laterRecord a b -> laterRecord b c -> laterRecord a c.
Proof.
  intros (H1 & H2 & H3 & H4 & H5 & H6) (K1 & K2 & K3 & K4 & K5 & K6).
  repeat split; try congruence.
  intros Ha. specialize (H6 Ha). subst b. by apply K6.
Qed.

#[local] Instance keepsRecords_preorder : PreOrder keepsRecords.
Proof.
  split.
  - intros w id. destruct (agreements w !! id); constructor. apply laterRecord_refl.
  - intros w1 w2 w3 H1 H2 id. specialize (H1 id). specialize (H2 id).
    destruct H1 as [a b Hab|]; inversion H2; subst; constructor.
    by eapply laterRecord_trans.
Qed.

Lemma keepsRecords_same (w w' : World) : agreements w' = agreements w -> keepsRecords w w'.
Proof. intros H id. rewrite H. destruct (agreements w !! id); constructor. apply laterRecord_refl. Qed.

(** An update of a live record that keeps the identity of the agreement
    keeps the records. *)
Lemma updateAgreement_keepsRecords (op : StoreOp) (id p : string) (f : Agreement -> option Agreement) :
  (forall a a', f a = Some a' ->
     CurrentAgreementId a' = CurrentAgreementId a /\ AgreementProtocol a' = AgreementProtocol a /\
     Org a' = Org a /\ DeviceId a' = DeviceId a /\ PolicyName a' = PolicyName a) ->
  preserves keepsRecords (updateAgreement E op id p f).
Proof.
  intros Hf w. unfold updateAgreement, writeAgreements.
  destruct (storeFault E op); [by apply keepsRecords_same|].
  destruct (lookupAgreement id p true (agreements w)) as [a|] eqn:Hl; [|by apply keepsRecords_same].
  destruct (f a) as [a'|] eqn:Hfa; [|by apply keepsRecords_same].
  destruct (lookupAgreement_visible _ _ _ _ _ Hl) as [Hm Hv].
  intros id'. cbn [snd agreements setAgreements log].
  destruct (decide (id' = id)) as [->|Hne].
  - rewrite Hm, lookup_insert_eq. constructor.
    destruct (Hf a a' Hfa) as (H1 & H2 & H3 & H4 & H5). repeat split; try done.
    intros Ha. unfold visible in Hv. rewrite Ha in Hv. by rewrite andb_false_r in Hv.
  - rewrite lookup_insert_ne by done.
    destruct (agreements w !! id'); constructor. apply laterRecord_refl.
Qed.

(** One step of a proof that a handler keeps the records: the updates of
    the agreement table are those of [updateAgreement]. *)
Ltac keeps_step :=
  first
    [ apply updateAgreement_keepsRecords;
      let a := fresh "a" in let a' := fresh "a'" in let H := fresh "H" in
      intros a a' H; repeat case_match; simplify_eq; done
    | preserves_step ].

Ltac solve_keeps :=
  try (apply keepsRecords_same; reflexivity).

Ltac unfold_usage_store :=
  unfold AgreementTimedout, ArchiveAgreement, DataNotification, PersistReply,
    UpdateWUAgreementId, UpdatePolicy, UpdateRetryCount, UpdatePriority, DeleteWorkloadUsage,
    NewWorkloadUsage, FindSingleAgreementByAgreementId, FindAgreements,
    FindSingleWorkloadUsageByDeviceAndPolicyName, updateUsage.

Lemma CancelAgreement_keepsRecords (id : string) (reason : N) :
  preserves keepsRecords (CancelAgreement E id reason).
Proof.
  unfold CancelAgreement, terminateFound, detachUsage, DoAsyncCancel. unfold_usage_store.
  repeat keeps_step; solve_keeps.
Qed.

Lemma CancelAgreementWithLock_keepsRecords (id : string) (reason : N) :
  preserves keepsRecords (CancelAgreementWithLock E id reason).
Proof.
  unfold CancelAgreementWithLock.
  repeat first [ apply CancelAgreement_keepsRecords | keeps_step ]; solve_keeps.
Qed.

Lemma HandleAgreementReply_keepsRecords (wi : HandleReply) :
  preserves keepsRecords (HandleAgreementReply E wi).
Proof.
  unfold HandleAgreementReply, positiveReply, validateReply, reconcileUsage, ackAndCommit, sendAck.
  unfold_usage_store.
  repeat first [ apply CancelAgreement_keepsRecords | apply CancelAgreementWithLock_keepsRecords
               | keeps_step ];
    solve_keeps.
Qed.

(** X5: no handler but [InitiateNewAgreement] adds a record to the agreement
    table or removes one: after [HandleAgreementReply],
    [HandleDataReceivedAck], [HandleWorkloadUpgrade],
    [CancelAgreementWithLock], [CancelAgreement] and [ExternalCancel],
    however they end, the table holds a record under exactly the ids it
    held before, each for the same agreement id, protocol, organisation,
    device and policy name, and every record that was archived is as it
    was. *)
Theorem handlers_keep_records :
  (forall wi w, keepsRecords w (HandleAgreementReply E wi w).2) /\
  (forall wi w, keepsRecords w (HandleDataReceivedAck E wi w).2) /\
  (forall wi w, keepsRecords w (HandleWorkloadUpgrade E wi w).2) /\
  (forall id reason w, keepsRecords w (CancelAgreementWithLock E id reason w).2) /\
  (forall id reason w, keepsRecords w (CancelAgreement E id reason w).2) /\
  (forall id reason w, keepsRecords w (ExternalCancel E id reason w).2).
Proof.
  split; [|split; [|split; [|split; [|split]]]].
  - intros wi. apply HandleAgreementReply_keepsRecords.
  - intros wi. change (preserves keepsRecords (HandleDataReceivedAck E wi)).
    unfold HandleDataReceivedAck. unfold_usage_store.
    repeat keeps_step; solve_keeps.
  - intros wi. change (preserves keepsRecords (HandleWorkloadUpgrade E wi)).
    unfold HandleWorkloadUpgrade. unfold_usage_store.
    repeat first [ apply CancelAgreementWithLock_keepsRecords | keeps_step ]; solve_keeps.
  - intros id reason. apply CancelAgreementWithLock_keepsRecords.
  - intros id reason. apply CancelAgreement_keepsRecords.
  - intros id reason. change (preserves keepsRecords (ExternalCancel E id reason)).
    unfold ExternalCancel, DoAsyncCancel. unfold_usage_store.
    repeat keeps_step; solve_keeps.
Qed.

(** ** The deferred cancellation *)


(** X7: a cancellation that [CancelAgreement] could not complete at once is
    not lost.  After [CancelAgreement] ran for an agreement with a live
    record, the record is still in the store under the agreement id
    (archived, when the store did not fail), and [ExternalCancel], which
    looks the record up without the filter for unarchived records, finds
    it: it asks the protocol handler to terminate the agreement when the
    ledger is writable, and queues the deferred command again when it is
    not. *)
Theorem deferred_cancel_finds_record (id : string) (reason : N) (w : World) (ag : Agreement) :
  lookupAgreement id (Name E) true (agreements w) = Some ag ->
  storeFault E (OpFindSingleAgreementByAgreementId id (Name E) false) = false ->
  exists w1 ag' w2,
    CancelAgreement E id reason w = (Ok tt, w1) /\
    agreements w1 !! id = Some ag' /\
    CurrentAgreementId ag' = CurrentAgreementId ag /\ AgreementProtocol ag' = Name E /\
    (noFaults E -> CurrentAgreementId ag = id -> Archived ag' = true) /\
    ExternalCancel E id reason w1 = (Ok tt, w2) /\
    since w1 w2
    = (let '(bcType, bcName, bcOrg) := GetKnownBlockchain E ag' in
       if IsBlockchainWritable E bcType bcName bcOrg
       then [TerminateAgreement (CurrentAgreementId ag) reason]
       else [DeferCommand (mkAsyncCancelAgreement ASYNC_CANCEL id (Name E) reason)]).
Proof.
  intros Hl Hf.
  destruct (lookupAgreement_visible _ _ _ _ _ Hl) as [Hm Hv].
  unfold visible in Hv. apply andb_true_iff in Hv as [Hp _]. apply bool_decide_eq_true in Hp.
  destruct (CancelAgreement_runs (fun _ => True) id reason (fun _ _ => I) w)
    as ([] & w1 & Hrun & _).
  pose proof (CancelAgreement_keepsRecords id reason w id) as Hk.
  rewrite Hrun, Hm in Hk. cbn [snd] in Hk.
  inversion Hk as [a ag' (K1 & K2 & _) Ha Hag'|]; subst.
  symmetry in Hag'.
  assert (Hl' : lookupAgreement id (Name E) false (agreements w1) = Some ag').
  { unfold lookupAgreement, visible. rewrite Hag', K2, Hp.
    by rewrite bool_decide_eq_true_2. }
  exists w1, ag'.
  unfold ExternalCancel, FindSingleAgreementByAgreementId, storeRead, DoAsyncCancel, deferred.
  unfold bind, call, ret. rewrite Hf, Hl', K1.
  destruct (GetKnownBlockchain E ag') as [[t n] o].
  destruct (IsBlockchainWritable E t n o); eexists;
    (split; [exact Hrun|]); (split; [done|]); (split; [done|]); (split; [congruence|]);
    (split; [|split; [reflexivity | by apply since_app]]).
  all: intros HN Hid;
    destruct (CancelAgreement_found id reason w ag Hl (HN _))
      as (w1' & ag1 & rest & Hrun' & _ & _ & _ & Hstate);
    destruct (Hstate HN) as (_ & _ & _ & HA); specialize (HA Hid);
    rewrite Hrun in Hrun'; simplify_eq;
    rewrite HA, lookup_insert_eq in Hag'; by simplify_eq.
Qed.

(** ** The data received ack *)

(** X8: [HandleDataReceivedAck] always returns, and it deletes the inbound
    message (when its id is not zero) as its last call, also when the ack
    cannot be validated or is not a data received ack.  Before that it
    either does nothing, or takes the lock of the agreement id of the ack
    and releases it again, with at most one call in between: the data
    notification for the live record of that agreement.  It never changes
    the workload usage table, and without the data notification it changes
    no agreement. *)
Theorem HandleDataReceivedAck_deletes_message (wi : HandleDataReceivedAckWork) (w : World) :
  exists w' locked,
    HandleDataReceivedAck E wi w = (Ok tt, w') /\
    since w w'
    = locked ++ (if (AMessageId wi =? 0)%Z then [] else [DeleteMessage (AMessageId wi)]) /\
    usages w' = usages w /\
    ((locked = [] /\ agreements w' = agreements w) \/
     exists agid,
       ValidateDataReceivedAck E (Ack wi) = Good (Some agid) /\
       ((locked = [Lock agid; Unlock agid] /\ agreements w' = agreements w) \/
        exists ag,
          lookupAgreement agid (Name E) true (agreements w) = Some ag /\
          locked = [Lock agid; Store (OpDataNotification (CurrentAgreementId ag) (Name E));
                    Unlock agid])).
Proof.
  unfold HandleDataReceivedAck.
  destruct (ValidateDataReceivedAck E (Ack wi)) as [[agid|]|] eqn:Hv.
  - unfold FindSingleAgreementByAgreementId, storeRead, DataNotification, updateAgreement,
      writeAgreements, bind, call, ret, when.
    destruct (storeFault E (OpFindSingleAgreementByAgreementId _ _ _)); cbn [agreements log].
    + destruct (AMessageId wi =? 0)%Z; cbn [negb]; eexists _, [Lock agid; Unlock agid];
        (split; [reflexivity|]); (split; [apply since_app; simpl; by rewrite <- ?app_assoc|]);
        (split; [done|]); right; exists agid; (split; [done|]); by left.
    + destruct (lookupAgreement agid (Name E) true (agreements w)) as [ag|] eqn:Hl.
      * destruct (storeFault E (OpDataNotification _ _));
          [|destruct (lookupAgreement (CurrentAgreementId ag) (Name E) true _)];
          destruct (AMessageId wi =? 0)%Z; cbn [negb];
          eexists _, [Lock agid; Store (OpDataNotification (CurrentAgreementId ag) (Name E));
                      Unlock agid];
          (split; [reflexivity|]);
          (split; [apply since_app; simpl; by rewrite <- ?app_assoc|]);
          (split; [done|]); right; exists agid; (split; [done|]); right; by exists ag.
      * destruct (AMessageId wi =? 0)%Z; cbn [negb]; eexists _, [Lock agid; Unlock agid];
          (split; [reflexivity|]); (split; [apply since_app; simpl; by rewrite <- ?app_assoc|]);
          (split; [done|]); right; exists agid; (split; [done|]); by left.
  - unfold bind, call, ret, when.
    destruct (AMessageId wi =? 0)%Z; cbn [negb]; eexists _, [];
      (split; [reflexivity|]); (split; [apply since_app; simpl; by rewrite ?app_nil_r|]);
      (split; [done|]); by left.
  - unfold bind, call, ret, when.
    destruct (AMessageId wi =? 0)%Z; cbn [negb]; eexists _, [];
      (split; [reflexivity|]); (split; [apply since_app; simpl; by rewrite ?app_nil_r|]);
      (split; [done|]); by left.
Qed.

(** X9: when the ack is valid and names an agreement with a live record, and
    the store does not fail, [HandleDataReceivedAck] records the receipt of
    data in that record, under the lock of the agreement id: the record is
    in the state DataReceived with the time of the receipt, its other
    timestamps and its identity are as before, and every other record is
    as it was. *)
Theorem HandleDataReceivedAck_records_data (wi : HandleDataReceivedAckWork) (w : World)
    (agid : string) (ag : Agreement) :
  noFaults E ->
  ValidateDataReceivedAck E (Ack wi) = Good (Some agid) ->
  lookupAgreement agid (Name E) true (agreements w) = Some ag ->
  CurrentAgreementId ag = agid ->
  exists w' a',
    HandleDataReceivedAck E wi w = (Ok tt, w') /\
    since w w'
    = [Lock agid; Store (OpDataNotification agid (Name E)); Unlock agid]
      ++ (if (AMessageId wi =? 0)%Z then [] else [DeleteMessage (AMessageId wi)]) /\
    agreements w' !! agid = Some a' /\
    State a' = DataReceived /\ data_received a' = now E /\
    created a' = created ag /\ proposed a' = proposed ag /\ replied a' = replied ag /\
    terminated a' = terminated ag /\ Archived a' = false /\
    CurrentAgreementId a' = agid /\ AgreementProtocol a' = Name E /\
    CounterPartyAddress a' = CounterPartyAddress ag /\
    (forall id, id <> agid -> agreements w' !! id = agreements w !! id).
Proof.
  intros HN Hv Hl Hid.
  destruct (lookupAgreement_visible _ _ _ _ _ Hl) as [Hm Hvis].
  unfold visible in Hvis. apply andb_true_iff in Hvis as [Hp Ha].
  apply bool_decide_eq_true in Hp. cbn [negb orb] in Ha. apply negb_true_iff in Ha.
  unfold HandleDataReceivedAck. rewrite Hv.
  unfold FindSingleAgreementByAgreementId, storeRead, DataNotification, updateAgreement,
    writeAgreements, bind, call, ret, when.
  rewrite HN. cbn [agreements log]. rewrite Hl, Hid, HN. cbn [agreements log]. rewrite Hl.
  exists (if negb (AMessageId wi =? 0)%Z
          then log (DeleteMessage (AMessageId wi))
                 (log (Unlock agid)
                    (setAgreements (<[agid := withData E ag]> (agreements w))
                       (log (Store (OpDataNotification agid (Name E))) (log (Lock agid) w))))
          else log (Unlock agid)
                 (setAgreements (<[agid := withData E ag]> (agreements w))
                    (log (Store (OpDataNotification agid (Name E))) (log (Lock agid) w)))),
    (withData E ag).
  split; [by destruct (AMessageId wi =? 0)%Z|].
  split; [apply since_app; destruct (AMessageId wi =? 0)%Z; simpl; by rewrite <- ?app_assoc|].
  split; [destruct (AMessageId wi =? 0)%Z; cbn [negb agreements log setAgreements];
          apply lookup_insert_eq|].
  repeat split; try done.
  intros id Hne. destruct (AMessageId wi =? 0)%Z; cbn [negb agreements log setAgreements];
    by rewrite lookup_insert_ne.
Qed.

(** ** The runs of the reply handler *)

Lemma bind_ret {A B} (a : A) (k : A -> M B) (w : World) : bind (ret a) k w = k a w.
Proof. reflexivity. Qed.

Lemma validateReply_validationCall (wi : HandleReply) :
  preserves (emitting validationCall) (validateReply E wi).
Proof.
  unfold validateReply, reconcileUsage. unfold_store.
  repeat preserves_step; solve_emitting.
Qed.

(** The run of [CancelAgreement]: its calls are calls of the cancellation
    path, and carry the reason. *)
Lemma CancelAgreement_calls (id : string) (reason : N) (w : World) :
  exists w' cancel, CancelAgreement E id reason w = (Ok tt, w') /\
    trace w' = trace w ++ cancel /\
    Forall cancelCall cancel /\ Forall (reasonIs reason) cancel.
Proof.
  destruct (CancelAgreement_runs cancelCall id reason (fun _ H => H) w)
    as ([] & w1 & H1 & e1 & T1 & F1).
  destruct (CancelAgreement_starts id reason w) as (w2 & rest & H2 & T2 & F2).
  rewrite H1 in H2. simplify_eq.
  exists w2, e1. repeat split; try done.
  rewrite T1 in T2. apply app_inv_head in T2. subst e1.
  by repeat constructor.
Qed.

Lemma CancelAgreementWithLock_calls (id : string) (reason : N) (w : World) :
  exists w' cancel, CancelAgreementWithLock E id reason w = (Ok tt, w') /\
    trace w' = trace w ++ [Lock id] ++ cancel ++ [Unlock id; DeleteAgreementLock id] /\
    Forall cancelCall cancel /\ Forall (reasonIs reason) cancel.
Proof.
  destruct (CancelAgreement_calls id reason (log (Lock id) w)) as (w1 & e1 & H1 & T1 & F1 & R1).
  unfold CancelAgreementWithLock. unfold call at 1. unfold bind at 1.
  rewrite (bind_ok _ _ _ _ _ H1). unfold call, bind.
  eexists _, e1. split; [reflexivity|]. split; [|done].
  simpl. rewrite T1. simpl. by rewrite <- !app_assoc.
Qed.

(** The run of [HandleAgreementReply] for a rejected proposal. *)
Lemma HandleAgreementReply_rejected (wi : HandleReply) (w : World) :
  ProposalAccepted (Reply wi) = false ->
  exists w' cancel,
    HandleAgreementReply E wi w = (Ok false, w') /\
    trace w' = trace w ++ [Lock (AgreementId (Reply wi))] ++ cancel
                 ++ [Unlock (AgreementId (Reply wi))] ++ deletion wi /\
    Forall cancelCall cancel /\
    Forall (reasonIs (GetTerminationCode E TERM_REASON_NEGATIVE_REPLY)) cancel.
Proof.
  intros Hacc. set (id := AgreementId (Reply wi)).
  destruct (CancelAgreement_calls id (GetTerminationCode E TERM_REASON_NEGATIVE_REPLY)
              (log (Lock id) w)) as (w1 & cancel & H1 & T1 & F1 & R1).
  unfold HandleAgreementReply. fold id.
  rewrite (bind_ok _ _ _ _ _ (call_run _ _)), Hacc.
  rewrite bind_assoc, (bind_ok _ _ _ _ _ H1).
  unfold ret at 1. unfold bind at 1.
  cbn [droppedLock deletedMessage ackReplyAsValid replyLocals0 negb when].
  rewrite (bind_ok _ _ _ _ _ (call_run _ _)), andb_true_r.
  rewrite (bind_ok _ _ _ _ _ (when_call _ _ _)).
  eexists _, cancel. split; [reflexivity|]. split; [|done].
  unfold deletion. destruct (MessageId wi =? 0)%Z; simpl; rewrite T1; simpl;
    rewrite <- ?app_assoc; done.
Qed.

(** The run of [HandleAgreementReply] for an accepted proposal, once the
    reply went through the validation. *)
Lemma HandleAgreementReply_validated (wi : HandleReply) (w w1 : World) (valid send : bool) :
  let id := AgreementId (Reply wi) in
  ProposalAccepted (Reply wi) = true ->
  validateReply E wi (log (Lock id) w) = (Ok (valid, send), w1) ->
  exists b w' evs,
    HandleAgreementReply E wi w = (Ok b, w') /\
    trace w' = trace w1 ++ evs /\
    if valid then
      match PostReplyResult E id with
      | Good _ =>
          b = true /\
          evs = acks E wi true ++ deletion wi ++ [Unlock id; PostReply id] /\
          agreements w' = agreements w1 /\ usages w' = usages w1
      | Err =>
          b = false /\
          exists cancel,
            evs = acks E wi true ++ deletion wi ++ [Unlock id; PostReply id]
                    ++ [Lock id] ++ cancel ++ [Unlock id; DeleteAgreementLock id]
                    ++ acks E wi false /\
            Forall cancelCall cancel /\
            Forall (reasonIs (GetTerminationCode E TERM_REASON_CANCEL_BC_WRITE_FAILED)) cancel
      end
    else
      b = false /\
      evs = (if send then acks E wi false else []) ++ [Unlock id] ++ deletion wi /\
      agreements w' = agreements w1 /\ usages w' = usages w1.
Proof.
  intros id Hacc Hv.
  unfold HandleAgreementReply. fold id.
  rewrite (bind_ok _ _ _ _ _ (call_run _ _)), Hacc.
  unfold positiveReply. rewrite !bind_assoc, (bind_ok _ _ _ _ _ Hv). cbn [fst snd].
  destruct valid.
  - destruct (sendAck_run wi true w1) as (wa & Ha & Ta & Aa & Ua).
    set (wd := if negb (MessageId wi =? 0)%Z then log (DeleteMessage (MessageId wi)) wa else wa).
    set (wc := log (PostReply id) (log (Unlock id) wd)).
    assert (Tc : trace wc = trace w1 ++ acks E wi true ++ deletion wi ++ [Unlock id; PostReply id]).
    { unfold wc, wd, deletion. destruct (MessageId wi =? 0)%Z; simpl; rewrite Ta, <- ?app_assoc; done. }
    assert (Ac : agreements wc = agreements w1 /\ usages wc = usages w1).
    { unfold wc, wd. by destruct (MessageId wi =? 0)%Z. }
    destruct Ac as [Ac Uc].
    unfold ackAndCommit. fold id.
    rewrite !bind_assoc, (bind_ok _ _ _ _ _ Ha).
    rewrite !bind_assoc, (bind_ok _ _ _ _ _ (when_call _ _ _)).
    rewrite !bind_assoc, (bind_ok _ _ _ _ _ (call_run _ _)).
    rewrite !bind_assoc, (bind_ok _ _ _ _ _ (call_run _ _)).
    fold wd. fold wc.
    destruct (PostReplyResult E id) as [[]|] eqn:Hpost.
    + rewrite bind_ret. cbn beta. cbn [ackReplyAsValid sendReply negb andb when].
      rewrite bind_assoc, !bind_ret. cbn beta.
      unfold id. rewrite finish_reply by done. fold id.
      exists true, wc, (acks E wi true ++ deletion wi ++ [Unlock id; PostReply id]).
      repeat split; done.
    + destruct (CancelAgreementWithLock_calls id
                  (GetTerminationCode E TERM_REASON_CANCEL_BC_WRITE_FAILED) wc)
        as (w2 & cancel & H2 & T2 & F2 & R2).
      rewrite !bind_assoc, (bind_ok _ _ _ _ _ H2).
      rewrite bind_ret. cbn beta. cbn [ackReplyAsValid sendReply negb andb when].
      destruct (sendAck_run wi false w2) as (w3 & H3 & T3 & A3 & U3).
      rewrite !bind_assoc, (bind_ok _ _ _ _ _ H3).
      rewrite !bind_ret. cbn beta.
      unfold id. rewrite finish_reply by done. fold id.
      eexists false, w3, _. split; [reflexivity|]. split; [|split; [done|]].
      * rewrite T3, T2, Tc, <- !app_assoc. reflexivity.
      * exists cancel. repeat split; try done.
  - rewrite bind_ret. cbn beta. cbn [ackReplyAsValid sendReply negb andb when].
    assert (Hnack : exists w2, when send (sendAck E wi false) w1 = (Ok tt, w2) /\
              trace w2 = trace w1 ++ (if send then acks E wi false else []) /\
              agreements w2 = agreements w1 /\ usages w2 = usages w1).
    { destruct send; [apply sendAck_run|]. exists w1. by rewrite app_nil_r. }
    destruct Hnack as (w2 & H2 & T2 & A2 & U2).
    rewrite !bind_assoc, (bind_ok _ _ _ _ _ H2).
    rewrite !bind_ret. cbn beta.
    cbn [droppedLock deletedMessage ackReplyAsValid negb when].
    rewrite (bind_ok _ _ _ _ _ (call_run _ _)), andb_true_r.
    rewrite (bind_ok _ _ _ _ _ (when_call _ _ _)).
    eexists false, _, _. split; [reflexivity|]. split; [|split; [done|split; [reflexivity|]]].
    + unfold deletion. destruct (MessageId wi =? 0)%Z; cbn [negb trace log];
        rewrite T2, <- ?app_assoc; reflexivity.
    + by destruct (negb (MessageId wi =? 0)%Z).
Qed.

(** Every run of [HandleAgreementReply] that returns is one of the four
    runs of [replyRun]. *)
Lemma HandleAgreementReply_replyRun (wi : HandleReply) (w w' : World) (b : bool) :
  HandleAgreementReply E wi w = (Ok b, w') -> replyRun E wi b (since w w').
Proof.
  intros H. set (id := AgreementId (Reply wi)).
  destruct (ProposalAccepted (Reply wi)) eqn:Hacc.
  - destruct (validateReply E wi (log (Lock id) w)) as [o w1] eqn:Hv.
    destruct (preserves_run _ _ _ _ _ (validateReply_validationCall wi) Hv) as (e1 & T1 & F1).
    destruct o as [[valid send]| | |].
    + destruct (HandleAgreementReply_validated wi w w1 valid send Hacc Hv)
        as (b0 & w0 & evs & Hrun & T & Hshape).
      rewrite Hrun in H. simplify_eq.
      assert (Hs : since w w' = [Lock id] ++ e1 ++ evs).
      { apply since_app. rewrite T, T1. simpl. by rewrite <- !app_assoc. }
      rewrite Hs. fold id in Hshape.
      destruct valid.
      * destruct (PostReplyResult E id) as [[]|] eqn:Hpost.
        -- destruct Hshape as (-> & -> & _). right. right. left.
           repeat split; try done. by exists e1.
        -- destruct Hshape as (-> & cancel & -> & F2 & R2). right. right. right.
           repeat split; try done. exists e1, cancel.
           repeat split; try done; by rewrite <- !app_assoc.
      * destruct Hshape as (-> & -> & _). right. left.
        repeat split; try done.
        exists e1, (if send then acks E wi false else []). repeat split; try done.
        destruct send; auto.
    + exfalso. revert H. unfold HandleAgreementReply, positiveReply. fold id.
      rewrite (bind_ok _ _ _ _ _ (call_run _ _)), Hacc.
      unfold bind. by rewrite Hv.
    + exfalso. revert H. unfold HandleAgreementReply, positiveReply. fold id.
      rewrite (bind_ok _ _ _ _ _ (call_run _ _)), Hacc.
      unfold bind. by rewrite Hv.
    + exfalso. revert H. unfold HandleAgreementReply, positiveReply. fold id.
      rewrite (bind_ok _ _ _ _ _ (call_run _ _)), Hacc.
      unfold bind. by rewrite Hv.
  - destruct (HandleAgreementReply_rejected wi w Hacc) as (w0 & cancel & Hrun & T & F & R).
    rewrite Hrun in H. simplify_eq. left. repeat split; try done.
    exists cancel. repeat split; try done. by apply since_app.
Qed.

Lemma filter_acks (f : Call -> bool) (wi : HandleReply) (accepted : bool) :
  (forall mt, f (Confirm accepted (AgreementId (Reply wi)) mt) = false) ->
  List.filter f (acks E wi accepted) = [].
Proof. intros H. unfold acks. destruct (CreateMessageTarget E _ _ _); simpl; by rewrite ?H. Qed.

Lemma filter_deletion (f : Call -> bool) (wi : HandleReply) :
  (forall m, f (DeleteMessage m) = false) -> List.filter f (deletion wi) = [].
Proof. intros H. unfold deletion. destruct (MessageId wi =? 0)%Z; simpl; by rewrite ?H. Qed.

Lemma filter_validation (f : Call -> bool) (l : list Call) :
  (forall c, validationCall c -> f c = false) -> Forall validationCall l -> List.filter f l = [].
Proof. intros H F. apply filter_none. eapply Forall_impl; [exact F | exact H]. Qed.

Lemma filter_cancel (f : Call -> bool) (l : list Call) :
  (forall c, cancelCall c -> f c = false) -> Forall cancelCall l -> List.filter f l = [].
Proof. intros H F. apply filter_none. eapply Forall_impl; [exact F | exact H]. Qed.

(** Decides a fact about every call of a kind by cases on the call. *)
Ltac by_call := intros [| | |[]| | | | | | | |[]]; done.

(** Filters a list of calls made of the parts of a run of the reply
    handler. *)
Ltac filter_parts :=
  rewrite ?List.filter_app;
  repeat match goal with
    | F : Forall cancelCall ?l |- context [List.filter ?f ?l] =>
        rewrite (filter_cancel f l ltac:(by_call) F)
    | F : Forall validationCall ?l |- context [List.filter ?f ?l] =>
        rewrite (filter_validation f l ltac:(by_call) F)
    | |- context [List.filter ?f (deletion ?wi)] => rewrite (filter_deletion f wi) by done
    | |- context [List.filter ?f (acks _ ?wi ?a)] => rewrite (filter_acks f wi a) by done
    end.

(** X10: a reply that rejects the proposal makes [HandleAgreementReply]
    cancel the agreement with the code of [TERM_REASON_NEGATIVE_REPLY]
    while it holds the lock it took (the lock is not taken a second time),
    release the lock, delete the message and return false.  It sends no
    ack and makes no commit.  When the agreement has a live record and the
    store does not fail, the record ends archived with that code. *)
Theorem HandleAgreementReply_negative_reply (wi : HandleReply) (w : World) :
  let id := AgreementId (Reply wi) in
  let code := GetTerminationCode E TERM_REASON_NEGATIVE_REPLY in
  ProposalAccepted (Reply wi) = false ->
  exists w' cancel,
    HandleAgreementReply E wi w = (Ok false, w') /\
    since w w' = [Lock id] ++ cancel ++ [Unlock id] ++ deletion wi /\
    Forall cancelCall cancel /\ Forall (reasonIs code) cancel /\
    List.filter isConfirm (since w w') = [] /\
    List.filter isPostReply (since w w') = [] /\
    List.filter isLockOp (since w w') = [Lock id; Unlock id] /\
    (forall ag, noFaults E ->
       lookupAgreement id (Name E) true (agreements w) = Some ag -> CurrentAgreementId ag = id ->
       exists a', agreements w' !! id = Some a' /\ Archived a' = true /\ TerminatedReason a' = code).
Proof.
  intros id code Hacc.
  destruct (HandleAgreementReply_rejected wi w Hacc) as (w' & cancel & Hrun & T & F & R).
  fold id code in T, R.
  exists w', cancel. split; [exact Hrun|].
  rewrite (since_app _ _ _ T). split; [done|]. split; [done|]. split; [done|].
  split; [|split; [|split]].
  - filter_parts; done.
  - filter_parts; done.
  - filter_parts; done.
  - intros ag HN Hl Hid.
    destruct (CancelAgreement_found id code (log (Lock id) w) ag Hl (HN _))
      as (w1 & ag1 & rest & Hrun1 & _ & _ & _ & Hstate).
    destruct (Hstate HN) as (_ & _ & _ & HA). specialize (HA Hid).
    revert Hrun. unfold HandleAgreementReply. fold id code.
    rewrite (bind_ok _ _ _ _ _ (call_run _ _)), Hacc.
    rewrite bind_assoc, (bind_ok _ _ _ _ _ Hrun1), bind_ret. cbn beta.
    cbn [droppedLock deletedMessage ackReplyAsValid replyLocals0 negb when].
    rewrite (bind_ok _ _ _ _ _ (call_run _ _)), andb_true_r.
    rewrite (bind_ok _ _ _ _ _ (when_call _ _ _)).
    intros Hrun. unfold ret in Hrun. simplify_eq.
    exists (withArchive code (GetTerminationReason E code) (withTimeout E ag)). split; [|done].
    destruct (negb (MessageId wi =? 0)%Z); cbn [agreements log]; rewrite HA;
      apply lookup_insert_eq.
Qed.

(** X11: a reply that accepts the proposal but cannot be matched (the store
    fails on the lookup, the agreement id has no live record, or the
    proposal or the policy saved with the record cannot be demarshalled)
    is answered with a negative ack, provided the message target of the
    sender can be created; the handler records nothing, cancels nothing,
    makes no commit, and returns false. *)
Theorem HandleAgreementReply_unmatched_reply (wi : HandleReply) (w : World) :
  let id := AgreementId (Reply wi) in
  ProposalAccepted (Reply wi) = true ->
  (storeFault E (OpFindSingleAgreementByAgreementId id (Name E) true) = true \/
   lookupAgreement id (Name E) true (agreements w) = None \/
   exists ag, lookupAgreement id (Name E) true (agreements w) = Some ag /\ replied ag = 0%Z /\
     (DemarshalProposal E (AgProposal ag) = Err \/
      exists proposal, DemarshalProposal E (AgProposal ag) = Good proposal /\
        DemarshalPolicy E (TsAndCs proposal) = Err)) ->
  exists w',
    HandleAgreementReply E wi w = (Ok false, w') /\
    since w w' = [Lock id] ++ acks E wi false ++ [Unlock id] ++ deletion wi /\
    agreements w' = agreements w /\ usages w' = usages w.
Proof.
  intros id Hacc Hcase.
  assert (Hv : validateReply E wi (log (Lock id) w) = (Ok (false, true), log (Lock id) w)).
  { unfold validateReply, FindSingleAgreementByAgreementId, storeRead. fold id. unfold bind at 1.
    destruct Hcase as [Hf | [Hl | (ag & Hl & Hr & Hd)]].
    - by rewrite Hf.
    - destruct (storeFault E _); [done|]. cbn [agreements log]. by rewrite Hl.
    - destruct (storeFault E _); [done|]. cbn [agreements log]. rewrite Hl.
      unfold AlreadyReceivedReply. rewrite Hr. cbn [Z.eqb negb].
      destruct Hd as [Hd | (proposal & Hd & Hp)]; [by rewrite Hd | by rewrite Hd, Hp]. }
  destruct (HandleAgreementReply_validated wi w _ false true Hacc Hv)
    as (b & w' & evs & Hrun & T & -> & -> & A & U).
  exists w'. split; [exact Hrun|]. repeat split; try done.
  apply since_app. rewrite T. simpl. by rewrite <- !app_assoc.
Qed.

(** X12: [HandleAgreementReply] never returns with the lock held.  Every
    run that returns starts by taking the lock of the agreement id of the
    reply and releases it exactly once; the only other operations on a
    lock are those of [CancelAgreementWithLock] after a failed commit,
    which takes the lock again, releases it and deletes it. *)
Theorem HandleAgreementReply_lock_discipline (wi : HandleReply) (w w' : World) (b : bool) :
  let id := AgreementId (Reply wi) in
  HandleAgreementReply E wi w = (Ok b, w') ->
  (exists rest, since w w' = Lock id :: rest) /\
  (List.filter isLockOp (since w w') = [Lock id; Unlock id] \/
   (List.filter isLockOp (since w w')
    = [Lock id; Unlock id; Lock id; Unlock id; DeleteAgreementLock id] /\
    ProposalAccepted (Reply wi) = true /\ PostReplyResult E id = Err /\ b = false)).
Proof.
  intros id H. apply HandleAgreementReply_replyRun in H. fold id in H.
  destruct H as [(Hacc & -> & cancel & -> & F & R)
                |[(Hacc & -> & validation & nack & -> & F & Hn)
                 |[(Hacc & -> & Hpost & validation & -> & F)
                  |(Hacc & -> & Hpost & validation & cancel & -> & F & Fc & R)]]].
  - split; [by eexists|]. left.
    filter_parts; done.
  - split; [by eexists|]. left.
    destruct Hn as [-> | ->]; filter_parts; done.
  - split; [by eexists|]. left.
    filter_parts; done.
  - split; [by eexists|]. right. split; [|done].
    filter_parts; done.
Qed.

(** X13: [HandleAgreementReply] returns true exactly when it invoked the
    ledger commit [PostReply] and the commit succeeded.  The commit is
    invoked at most once, and a run that returns true has cancelled
    nothing and sent no negative ack. *)
Theorem HandleAgreementReply_true_iff_committed (wi : HandleReply) (w w' : World) (b : bool) :
  let id := AgreementId (Reply wi) in
  HandleAgreementReply E wi w = (Ok b, w') ->
  (b = true <-> In (PostReply id) (since w w') /\ PostReplyResult E id = Good tt) /\
  (List.filter isPostReply (since w w') = [] \/
   List.filter isPostReply (since w w') = [PostReply id]) /\
  (b = true ->
   ProposalAccepted (Reply wi) = true /\
   List.filter isCancellation (since w w') = [] /\
   List.filter isNegativeAck (since w w') = []).
Proof.
  intros id H. apply HandleAgreementReply_replyRun in H. fold id in H.
  assert (Hin : forall l, List.filter isPostReply l = [] -> ~ In (PostReply id) l).
  { intros l Hl Hi. assert (Hi' : In (PostReply id) (List.filter isPostReply l))
      by (by apply List.filter_In). by rewrite Hl in Hi'. }
  destruct H as [(Hacc & -> & cancel & -> & F & R)
                |[(Hacc & -> & validation & nack & -> & F & Hn)
                 |[(Hacc & -> & Hpost & validation & -> & F)
                  |(Hacc & -> & Hpost & validation & cancel & -> & F & Fc & R)]]].
  - assert (Hp : List.filter isPostReply ([Lock id] ++ cancel ++ [Unlock id] ++ deletion wi) = []).
    { filter_parts; done. }
    split; [|split; [by left | done]].
    split; [done | intros [Hi _]; by apply Hin in Hi].
  - assert (Hp : List.filter isPostReply
                   ([Lock id] ++ validation ++ nack ++ [Unlock id] ++ deletion wi) = []).
    { destruct Hn as [-> | ->]; filter_parts; done. }
    split; [|split; [by left | done]].
    split; [done | intros [Hi _]; by apply Hin in Hi].
  - split; [|split].
    + split; [intros _ | done]. split; [|done].
      rewrite !in_app_iff. do 4 right. simpl. auto.
    + right.
      filter_parts; done.
    + intros _. split; [done|]. split.
      * filter_parts; done.
      * filter_parts; done.
  - split; [|split; [|done]].
    + split; [done | intros [_ Hg]; unfold id in *; congruence].
    + right.
      filter_parts; done.
Qed.

(** ** The workload usage record of a reply *)

Lemma updateUsage_run (op : StoreOp) (device name : string) (f : WorkloadUsage -> WorkloadUsage)
    (w : World) :
  exists r w', updateUsage E op device name f w = (Ok r, w') /\
    trace w' = trace w ++ [Store op] /\
    agreements w' = agreements w /\
    (forall k, k <> (device, name) -> usages w' !! k = usages w !! k) /\
    (noFaults E -> forall u, usages w !! (device, name) = Some u ->
       usages w' !! (device, name) = Some (f u)).
Proof.
  unfold updateUsage, writeUsages.
  destruct (storeFault E op) eqn:Hf.
  - eexists _, _. split; [reflexivity|]. repeat split; auto. intros; no_fault.
  - destruct (usages w !! (device, name)) as [u|] eqn:Hu;
      eexists _, _; (split; [reflexivity|]); cbn [trace agreements usages log setUsages];
      repeat split; auto.
    + intros k Hk. by rewrite lookup_insert_ne.
    + intros _ u' Hu'. simplify_eq. apply lookup_insert_eq.
    + intros _ u' Hu'. discriminate.
Qed.

(** X14: when the workload usage record of the sender and the policy exists,
    the reconciliation of a reply never creates a record and never
    invalidates the reply, whether or not the updates of the record
    succeed.  When the store does not fail, the record afterwards carries
    the agreement id of the reply, and the policy of the agreement if it
    had none; with retries disabled its priority and retry count are as
    they were; otherwise, if the priority of the workload in the terms and
    conditions is the priority of the record, the retry count is one more
    (as a Go int), and if it is another priority, the record takes that
    priority and its durations, and its retry count starts again from
    zero.  No other usage record changes. *)
Theorem reconcileUsage_existing_record (wi : HandleReply) (w : World) (agreement : Agreement)
    (pol consumerPolicy : Policy) (u : WorkloadUsage) (w0 : Workload) (rest : list Workload) :
  let device := SenderId wi in
  let name := HeaderName consumerPolicy in
  let id := AgreementId (Reply wi) in
  usages w !! (device, name) = Some u ->
  Workloads pol = w0 :: rest ->
  exists w',
    reconcileUsage E wi agreement pol consumerPolicy w = (Ok true, w') /\
    agreements w' = agreements w /\
    List.filter isNewWorkloadUsage (since w w') = [] /\
    (forall k, k <> (device, name) -> usages w' !! k = usages w !! k) /\
    (noFaults E ->
     exists u',
       usages w' !! (device, name) = Some u' /\
       UsCurrentAgreementId u' = id /\
       UsPolicy u' = (if bool_decide (UsPolicy u = "") then AgPolicy agreement else UsPolicy u) /\
       DisableRetry u' = DisableRetry u /\ ReqsNotMet u' = ReqsNotMet u /\
       if DisableRetry u then
         UsPriority u' = UsPriority u /\ RetryCount u' = RetryCount u /\
         FirstTryTime u' = FirstTryTime u
       else if bool_decide (PriorityValue (Priority w0) = UsPriority u) then
         UsPriority u' = UsPriority u /\ RetryCount u' = int_add (RetryCount u) 1 /\
         FirstTryTime u' = FirstTryTime u
       else
         UsPriority u' = PriorityValue (Priority w0) /\ RetryCount u' = 0%Z /\
         UsRetryDurationS u' = RetryDurationS (Priority w0) /\
         UsVerifiedDurationS u' = VerifiedDurationS (Priority w0) /\
         FirstTryTime u' = now E).
Proof.
  intros device name id Hu Hw.
  unfold reconcileUsage, FindSingleWorkloadUsageByDeviceAndPolicyName, storeRead.
  fold device name id. unfold bind at 1.
  destruct (storeFault E (OpFindSingleWorkloadUsageByDeviceAndPolicyName _ _)) eqn:Hf.
  { exists w. rewrite since_refl. repeat split; auto. intros; no_fault. }
  rewrite Hu, Hw.
  (* the policy of the record *)
  assert (H1 : exists w1,
            when (bool_decide (UsPolicy u = ""))
              (bind (UpdatePolicy E device name (AgPolicy agreement)) (fun _ => ret tt)) w
            = (Ok tt, w1) /\
            (exists e1, trace w1 = trace w ++ e1 /\ Forall (fun c => isNewWorkloadUsage c = false) e1) /\
            agreements w1 = agreements w /\
            (forall k, k <> (device, name) -> usages w1 !! k = usages w !! k) /\
            (noFaults E ->
             usages w1 !! (device, name)
             = Some (if bool_decide (UsPolicy u = "") then withPolicy (AgPolicy agreement) u else u))).
  { destruct (bool_decide (UsPolicy u = "")); cbn [when].
    - destruct (updateUsage_run (OpUpdatePolicy device name (AgPolicy agreement)) device name
                  (withPolicy (AgPolicy agreement)) w) as (r & w1 & Hr & T & A & K & N).
      exists w1. unfold UpdatePolicy. rewrite (bind_ok _ _ _ _ _ Hr).
      split; [done|]. split; [by exists [Store (OpUpdatePolicy device name (AgPolicy agreement))];
                               repeat constructor|].
      repeat split; auto.
    - exists w. split; [done|]. split; [exists []; by rewrite app_nil_r|]. repeat split; auto. }
  destruct H1 as (w1 & Hr1 & (e1 & T1 & F1) & A1 & K1 & N1).
  rewrite ?bind_assoc, (bind_ok _ _ _ _ _ Hr1).
  (* the priority, the retry count or the agreement id of the record *)
  set (f2 := if DisableRetry u then withAgreementId id
             else if bool_decide (PriorityValue (Priority w0) = UsPriority u)
                  then withRetryCount (int_add (RetryCount u) 1) id
                  else withPriority E (PriorityValue (Priority w0)) (RetryDurationS (Priority w0))
                         (VerifiedDurationS (Priority w0)) id).
  set (op2 := if DisableRetry u then OpUpdateWUAgreementId device name id
              else if bool_decide (PriorityValue (Priority w0) = UsPriority u)
                   then OpUpdateRetryCount device name (int_add (RetryCount u) 1) id
                   else OpUpdatePriority device name (PriorityValue (Priority w0))
                          (RetryDurationS (Priority w0)) (VerifiedDurationS (Priority w0)) id).
  destruct (updateUsage_run op2 device name f2 w1) as (r2 & w2 & Hr2 & T2 & A2 & K2 & N2).
  assert (Hop2 : isNewWorkloadUsage (Store op2) = false).
  { unfold op2. by repeat case_match. }
  exists w2. split; [|split; [congruence|split; [|split]]].
  - unfold UpdatePriority, UpdateRetryCount, UpdateWUAgreementId.
    unfold f2, op2 in Hr2.
    destruct (DisableRetry u); cbn [negb];
      [|destruct (bool_decide (PriorityValue (Priority w0) = UsPriority u)); cbn [negb]];
      rewrite ?bind_assoc, (bind_ok _ _ _ _ _ Hr2); reflexivity.
  - erewrite since_app; [|rewrite T2, T1, <- app_assoc; reflexivity].
    rewrite List.filter_app, (filter_none _ _ F1). cbn [List.filter app]. by rewrite Hop2.
  - intros k Hk. by rewrite K2, K1.
  - intros HN. specialize (N1 HN). specialize (N2 HN _ N1).
    eexists. split; [exact N2|]. unfold f2.
    destruct (bool_decide (UsPolicy u = "")), (DisableRetry u) eqn:Hd,
      (bool_decide (PriorityValue (Priority w0) = UsPriority u));
      cbn; rewrite ?Hd; repeat split; done.
Qed.

(** ** The initiation of an agreement *)

Lemma preserves_impl {A} (R R' : World -> World -> Prop) (m : M A) :
  (forall w w', R w w' -> R' w w') -> preserves R m -> preserves R' m.
Proof. intros HR H w. apply HR, H. Qed.

Lemma proposeAgreement_calls (agid bcType bcName bcOrg : string) (s : Selection) :
  preserves (emitting proposalCall) (proposeAgreement E agid bcType bcName bcOrg s).
Proof.
  unfold proposeAgreement. unfold_store. preserves_emitting.
Qed.

(** The run of [InitiateNewAgreement] under the lock: the selection of the
    workload, then the proposal. *)
Lemma negotiation_calls (fuel : nat) (agid bcType bcName bcOrg : string) (wi : InitiateAgreement)
    (w : World) :
  exists o w' selection proposal,
    callee (bind (selectWorkload E fuel agid wi)
              (fun s => proposeAgreement E agid bcType bcName bcOrg s)) w = (o, w') /\
    o <> Exit /\
    trace w' = trace w ++ selection ++ proposal /\
    Forall usageCall selection /\ Forall proposalCall proposal /\
    (proposal = [] \/ exists s w1, selectWorkload E fuel agid wi w = (Ok s, w1)).
Proof.
  unfold callee, bind.
  destruct (selectWorkload E fuel agid wi w) as [o w1] eqn:Hs.
  destruct (selectWorkload_run _ _ _ _ _ _ Hs) as (e1 & T1 & F1 & _).
  destruct o as [s| | |].
  - destruct (proposeAgreement E agid bcType bcName bcOrg s w1) as [o2 w2] eqn:Hp.
    destruct (preserves_run _ _ _ _ _ (proposeAgreement_calls agid bcType bcName bcOrg s) Hp)
      as (e2 & T2 & F2).
    destruct o2 as [[]| | |]; eexists _, w2, e1, e2;
      (split; [reflexivity|]); (split; [done|]);
      (split; [by rewrite T2, T1, app_assoc|]); repeat split; eauto.
  - eexists _, w1, e1, []. split; [reflexivity|]. split; [done|].
    rewrite app_nil_r. repeat split; auto.
  - eexists _, w1, e1, []. split; [reflexivity|]. split; [done|].
    rewrite app_nil_r. repeat split; auto.
  - eexists _, w1, e1, []. split; [reflexivity|]. split; [done|].
    rewrite app_nil_r. repeat split; auto.
Qed.

(** X15: [InitiateNewAgreement] never leaves the lock of the agreement id
    held.  When no agreement id can be generated, or the protocol handler
    for the ledger of the producer is not ready, it returns without a
    single call.  Otherwise its first call takes the lock of the generated
    agreement id and its last call releases it, however the function ends
    (also when it panics or the loop is cut off); in between come the
    changes of the workload usage table made by the selection of a
    workload and then the calls of the proposal, and no operation on a
    lock. *)
Theorem InitiateNewAgreement_lock_discipline (fuel : nat) (wi : InitiateAgreement) (w : World) :
  (InitiateNewAgreement E fuel wi w).1 <> Exit /\
  match GenerateAgreementId E with
  | Err => InitiateNewAgreement E fuel wi w = (Ok tt, w)
  | Good agid =>
      let '(bcType, bcName, bcOrg) := RequiresKnownBC E (ProducerPolicy wi) (Name E) in
      if AgreementProtocolHandler E bcType bcName bcOrg then
        exists selection proposal,
          since w (InitiateNewAgreement E fuel wi w).2
          = [Lock agid] ++ selection ++ proposal ++ [Unlock agid] /\
          Forall usageCall selection /\ Forall proposalCall proposal /\
          List.filter isLockOp (since w (InitiateNewAgreement E fuel wi w).2)
          = [Lock agid; Unlock agid]
      else InitiateNewAgreement E fuel wi w = (Ok tt, w)
  end.
Proof.
  unfold InitiateNewAgreement.
  destruct (GenerateAgreementId E) as [agid|]; [|done].
  destruct (RequiresKnownBC E _ _) as [[bcType bcName] bcOrg].
  destruct (AgreementProtocolHandler E _ _ _); cbn [negb]; [|done].
  rewrite (bind_ok _ _ _ _ _ (call_run _ _)). unfold defer.
  destruct (negotiation_calls fuel agid bcType bcName bcOrg wi (log (Lock agid) w))
    as (o & w' & selection & proposal & Hrun & Ho & T & F1 & F2 & _).
  rewrite Hrun. cbn [fst snd]. split; [exact Ho|].
  exists selection, proposal.
  assert (Hs : since w (log (Unlock agid) w') = [Lock agid] ++ selection ++ proposal ++ [Unlock agid]).
  { apply since_app. simpl. rewrite T. simpl. by rewrite <- !app_assoc. }
  rewrite Hs. repeat split; try done.
  rewrite !List.filter_app.
  rewrite (filter_none isLockOp selection), (filter_none isLockOp proposal); [done| |].
  - eapply Forall_impl; [exact F2|]. by intros [| | | | | | | | | | |[]].
  - eapply Forall_impl; [exact F1|]. by intros [| | | | | | | | | | |[]].
Qed.

Lemma incompleteHAGroup_true (producerPolicy : Policy) :
  incompleteHAGroup E producerPolicy = true <->
  exists partnerId, partnerId ∈ Partners producerPolicy /\ GetDevice E partnerId = Err.
Proof.
  unfold incompleteHAGroup. rewrite existsb_exists. split.
  - intros (p & Hin & He). exists p. split; [by apply list_elem_of_In|].
    by destruct (GetDevice E p).
  - intros (p & Hin & He). exists p. split; [by apply list_elem_of_In|]. by rewrite He.
Qed.

Lemma ignoreDevice_true (pol : Policy) :
  ignoreDevice E pol = true <->
  exists prop, prop ∈ Properties pol /\
    listContains E (IgnoreContractWithAttribs E) (PName prop) = true.
Proof.
  unfold ignoreDevice. rewrite existsb_exists. split.
  - intros (p & Hin & He). exists p. split; [by apply list_elem_of_In | done].
  - intros (p & Hin & He). exists p. split; [by apply list_elem_of_In | done].
Qed.

(** X16: once a workload is chosen, [InitiateNewAgreement] attempts no
    agreement with a device whose HA group is not complete (some partner
    named by the producer policy, as merged by then, cannot be obtained
    from the exchange) or that advertises a property of the configured list
    of ignored attributes: the function returns, the agreement table is as
    it was, the protocol is not initiated, and between the lock and its
    release there are only the changes of the workload usage table made by
    the selection. *)
Theorem InitiateNewAgreement_skips_device (fuel : nat) (wi : InitiateAgreement) (w w1 : World)
    (agid bcType bcName bcOrg : string) (s : Selection) :
  GenerateAgreementId E = Good agid ->
  RequiresKnownBC E (ProducerPolicy wi) (Name E) = (bcType, bcName, bcOrg) ->
  AgreementProtocolHandler E bcType bcName bcOrg = true ->
  selectWorkload E fuel agid wi (log (Lock agid) w) = (Ok s, w1) ->
  (exists partnerId, partnerId ∈ Partners (ProducerPolicy (item s)) /\
     GetDevice E partnerId = Err) \/
  (exists prop, prop ∈ Properties (ProducerPolicy (item s)) /\
     listContains E (IgnoreContractWithAttribs E) (PName prop) = true) ->
  InitiateNewAgreement E fuel wi w = (Ok tt, log (Unlock agid) w1) /\
  agreements (log (Unlock agid) w1) = agreements w /\
  exists selection,
    since w (log (Unlock agid) w1) = [Lock agid] ++ selection ++ [Unlock agid] /\
    Forall usageCall selection.
Proof.
  intros Hg Hbc Hph Hs Hskip.
  destruct (selectWorkload_run _ _ _ _ _ _ Hs) as (e1 & T1 & F1 & A1).
  split; [|split; [exact A1|]].
  - unfold InitiateNewAgreement. rewrite Hg, Hbc, Hph. cbn [negb].
    rewrite (bind_ok _ _ _ _ _ (call_run _ _)).
    unfold defer, callee. rewrite (bind_ok _ _ _ _ _ Hs).
    unfold proposeAgreement.
    destruct Hskip as [Hha | Hig].
    + apply incompleteHAGroup_true in Hha. by rewrite Hha.
    + apply ignoreDevice_true in Hig. rewrite Hig. by destruct (incompleteHAGroup E _).
  - exists e1. split; [|exact F1].
    apply since_app. simpl. rewrite T1. simpl. by rewrite <- !app_assoc.
Qed.

Lemma mergeProducers_asl (patterned : bool) (ms : list Microservice) (specs : list APISpec)
    (asl asl' : APISpecList) (merged merged' : option Policy) (w w' : World) :
  mergeProducers E patterned ms specs asl merged w = (Ok (asl', merged'), w') ->
  asl' = asl ++ specList E specs.
Proof.
  revert asl merged. induction specs as [|a specs IH]; intros asl merged; simpl.
  - unfold ret. intros H. simplify_eq. by rewrite app_nil_r.
  - intros H. rewrite (app_assoc asl [_] _ : asl ++ _ :: specList E specs = _).
    repeat case_match; try discriminate; by eapply IH.
Qed.

Lemma mergeProducers_plain (patterned : bool) (ms : list Microservice) (specs : list APISpec)
    (asl : APISpecList) (merged : option Policy) (w : World) :
  patterned = false \/ (forall a, a ∈ specs -> findMicroservice ms (ASpecRef a) = None) ->
  mergeProducers E patterned ms specs asl merged w = (Ok (asl ++ specList E specs, merged), w).
Proof.
  revert asl. induction specs as [|a specs IH]; intros asl H; simpl.
  - by rewrite app_nil_r.
  - rewrite (app_assoc asl [_] _ : asl ++ _ :: specList E specs = _).
    destruct H as [-> | H]; [apply IH; by left|].
    rewrite (H a) by apply list_elem_of_here.
    destruct patterned; apply IH; right; intros a' Ha'; apply H; by apply list_elem_of_further.
Qed.

Lemma mergeProducers_exit (patterned : bool) (ms : list Microservice) (specs : list APISpec)
    (asl : APISpecList) (merged : option Policy) (w : World) :
  match (mergeProducers E patterned ms specs asl merged w).1 with
  | Ok _ => True
  | Exit =>
      patterned = true /\
      exists a devMS, a ∈ specs /\ findMicroservice ms (ASpecRef a) = Some devMS /\
        (DemarshalPolicy E (MPolicy devMS) = Err \/
         exists p q, DemarshalPolicy E (MPolicy devMS) = Good q /\
           Are_Compatible_Producers E p q (NoDataIntervalS E) = Err)
  | _ => False
  end.
Proof.
  revert asl merged. induction specs as [|a specs IH]; intros asl merged; simpl; [done|].
  assert (Hnext : forall asl0 merged0,
            match (mergeProducers E patterned ms specs asl0 merged0 w).1 with
            | Ok _ => True
            | Exit =>
                patterned = true /\
                exists a0 devMS, a0 ∈ a :: specs /\ findMicroservice ms (ASpecRef a0) = Some devMS /\
                  (DemarshalPolicy E (MPolicy devMS) = Err \/
                   exists p q, DemarshalPolicy E (MPolicy devMS) = Good q /\
                     Are_Compatible_Producers E p q (NoDataIntervalS E) = Err)
            | _ => False
            end).
  { intros asl0 merged0. specialize (IH asl0 merged0).
    destruct (mergeProducers E patterned ms specs asl0 merged0 w).1; try done.
    destruct IH as (Hp & a0 & devMS & Hin & Hf & Hd). split; [done|].
    exists a0, devMS. split; [by apply list_elem_of_further | done]. }
  destruct patterned; [|apply Hnext].
  destruct (findMicroservice ms (ASpecRef a)) as [devMS|] eqn:Hf; [|apply Hnext].
  destruct (DemarshalPolicy E (MPolicy devMS)) as [pol|] eqn:Hd.
  - destruct merged as [p|]; [|apply Hnext].
    destruct (Are_Compatible_Producers E p pol (NoDataIntervalS E)) eqn:Hc; [apply Hnext|].
    cbn [fst exit]. split; [done|]. exists a, devMS.
    split; [apply list_elem_of_here|]. split; [done|]. right. by exists p, pol.
  - cbn [fst exit]. split; [done|]. exists a, devMS.
    split; [apply list_elem_of_here|]. split; [done|]. by left.
Qed.

(** X17: the loop of [InitiateNewAgreement] over the API specs of the
    workload definition never touches the store and never panics.  When
    it completes, the list it built holds one API specification for each
    API spec of the definition, in their order.  It completes, with the
    merged producer policy as it was, when the consumer policy belongs to
    no pattern or the device has no microservice for any of the specs.  It
    leaves the function only for a pattern, at a spec for which the device
    has a microservice whose policy cannot be demarshalled or cannot be
    merged with the policies merged so far. *)
Theorem mergeProducers_specs (patterned : bool) (ms : list Microservice) (specs : list APISpec)
    (asl : APISpecList) (merged : option Policy) (w : World) :
  (mergeProducers E patterned ms specs asl merged w).2 = w /\
  ((exists merged',
      (mergeProducers E patterned ms specs asl merged w).1 = Ok (asl ++ specList E specs, merged')) \/
   ((mergeProducers E patterned ms specs asl merged w).1 = Exit /\
    patterned = true /\
    exists a devMS, a ∈ specs /\ findMicroservice ms (ASpecRef a) = Some devMS /\
      (DemarshalPolicy E (MPolicy devMS) = Err \/
       exists p q, DemarshalPolicy E (MPolicy devMS) = Good q /\
         Are_Compatible_Producers E p q (NoDataIntervalS E) = Err))) /\
  (patterned = false \/ (forall a, a ∈ specs -> findMicroservice ms (ASpecRef a) = None) ->
   mergeProducers E patterned ms specs asl merged w = (Ok (asl ++ specList E specs, merged), w)).
Proof.
  split; [apply mergeProducers_pure|]. split; [|apply mergeProducers_plain].
  pose proof (mergeProducers_exit patterned ms specs asl merged w) as He.
  destruct (mergeProducers E patterned ms specs asl merged w) as [o w'] eqn:Hm.
  cbn [fst] in *. destruct o as [[asl' merged']| | |]; try done.
  - left. exists merged'. by rewrite (mergeProducers_asl _ _ _ _ _ _ _ _ _ Hm).
  - by right.
Qed.

(** X18: when the producer policy supports the API specs of the chosen
    workload, the iteration of the selection loop ends the loop: the
    workload is found, no call on the store is made, and the consumer
    policy of the work item is augmented with the details of the workload
    from the exchange.  Its API specs are those of the workload
    definition, and the chosen workload, in its place in the policy, has
    the deployment and the deployment signature of the first deployment of
    the definition and its torrent (empty when the definition has none);
    its priority and its identification, the other workloads and the rest
    of the policy are as they were. *)
Theorem selectStep_supported (agid : string) (ms : list Microservice) (s : Selection) (w : World)
    (i : nat) (wl : Workload) (details : WorkloadDefinition) (asl : APISpecList)
    (merged : option Policy) (d0 : WorkloadDeployment) (rest : list WorkloadDeployment)
    (torr : Torrent) :
  let wi := item s in
  let patterned := negb (bool_decide (PatternId (ConsumerPolicy wi) = "")) in
  let wi1 := withMerged patterned merged wi in
  chooseWorkload E wi w = (Ok (Some i), w) ->
  lastWorkload s <> Some i ->
  Workloads (ConsumerPolicy wi) !! i = Some wl ->
  GetWorkload E (WorkloadURL wl) (WOrg wl) (WVersion wl) (WArch wl) = Good (Some details) ->
  mergeProducers E patterned ms (DAPISpecs details) [] None w = (Ok (asl, merged), w) ->
  Supports E (APISpecs (ProducerPolicy wi1)) asl = true ->
  DWorkloads details = d0 :: rest ->
  (if bool_decide (DTorrent d0 = "") then torr = emptyTorrent
   else UnmarshalTorrent E (DTorrent d0) = Good torr) ->
  exists s' wl',
    selectStep E agid ms s w = (Ok s', w) /\
    foundWorkload s' = true /\ workload s' = Some i /\
    (forall fuel, selectLoop E fuel agid ms s' w = (Ok s', w)) /\
    ProducerPolicy (item s') = ProducerPolicy wi1 /\
    IDevice (item s') = IDevice wi /\ IOrg (item s') = IOrg wi /\
    HeaderName (ConsumerPolicy (item s')) = HeaderName (ConsumerPolicy wi) /\
    PatternId (ConsumerPolicy (item s')) = PatternId (ConsumerPolicy wi) /\
    APISpecs (ConsumerPolicy (item s')) = specList E (DAPISpecs details) /\
    length (Workloads (ConsumerPolicy (item s'))) = length (Workloads (ConsumerPolicy wi)) /\
    (forall j, j <> i ->
       Workloads (ConsumerPolicy (item s')) !! j = Workloads (ConsumerPolicy wi) !! j) /\
    Workloads (ConsumerPolicy (item s')) !! i = Some wl' /\
    Deployment wl' = DDeployment d0 /\ DeploymentSignature wl' = DDeploymentSignature d0 /\
    WTorrent wl' = torr /\ Priority wl' = Priority wl /\
    WorkloadURL wl' = WorkloadURL wl /\ WOrg wl' = WOrg wl /\
    WVersion wl' = WVersion wl /\ WArch wl' = WArch wl.
Proof.
  intros wi patterned wi1 Hchoose Hlast Hi Hget Hmerge Hsup Hd Htorr.
  assert (Hasl : asl = specList E (DAPISpecs details))
    by (by rewrite (mergeProducers_asl _ _ _ _ _ _ _ _ _ Hmerge)).
  set (wl' := withDeployment d0 torr wl).
  set (s' := mkSelection
               (withConsumerPolicy (augmented asl i wl' (ConsumerPolicy wi1)) wi1)
               true (Some i) (Some i)).
  exists s', wl'.
  assert (Hcp : ConsumerPolicy wi1 = ConsumerPolicy wi) by apply withMerged_consumer.
  split; [|split; [done|split; [done|split; [by intros [|fuel]|]]]].
  - unfold selectStep. fold wi patterned.
    rewrite (bind_ok _ _ _ _ _ Hchoose).
    rewrite (bool_decide_eq_false_2 _ Hlast), Hi, Hget.
    rewrite (bind_ok _ _ _ _ _ Hmerge). fold wi1. rewrite Hsup, Hd. cbn [negb].
    destruct (bool_decide (DTorrent d0 = "")); cbn [negb].
    + subst torr. reflexivity.
    + rewrite Htorr. reflexivity.
  - cbn [item s' withConsumerPolicy ProducerPolicy IDevice IOrg ConsumerPolicy augmented
           HeaderName PatternId APISpecs Workloads].
    rewrite Hcp.
    assert (Hlt : (i < length (Workloads (ConsumerPolicy wi)))%nat)
      by (by eapply lookup_lt_Some).
    repeat split; try done.
    + unfold wi1. apply withMerged_device.
    + unfold wi1, withMerged. by repeat case_match.
    + apply length_insert.
    + intros j Hj. by apply list_lookup_insert_ne.
    + by apply list_lookup_insert_eq.
Qed.

Lemma yields_bind_with {A B} (Q : A -> Prop) (Q' : B -> Prop) (m : M A) (k : A -> M B) :
  yields Q m -> (forall a, Q a -> yields Q' (k a)) -> yields Q' (bind m k).
Proof.
  intros Hm Hk w b w' Heq. unfold bind in Heq. specialize (Hm w).
  destruct (m w) as [[a| | |] w1]; try discriminate. eapply Hk; [by eapply Hm | exact Heq].
Qed.

Lemma selectStep_identity (agid : string) (ms : list Microservice) (s : Selection) :
  yields (fun s' => sameRequest (item s) (item s')) (selectStep E agid ms s).
Proof.
  unfold selectStep, withMerged, sameRequest.
  repeat yields_step; cbn [item]; repeat case_match; done.
Qed.

Lemma selectLoop_identity (fuel : nat) (agid : string) (ms : list Microservice) (s : Selection) :
  yields (fun s' => sameRequest (item s) (item s')) (selectLoop E fuel agid ms s).
Proof.
  revert s. induction fuel as [|fuel IH]; intros s; simpl.
  - destruct (foundWorkload s); [by apply yields_ret | apply yields_outOfFuel].
  - destruct (foundWorkload s); [by apply yields_ret|].
    eapply yields_bind_with; [apply selectStep_identity|].
    intros s1 (H1 & H2 & H3 & H4 & H5) w s2 w' Hrun.
    destruct (IH s1 w s2 w' Hrun) as (I1 & I2 & I3 & I4 & I5).
    unfold sameRequest. repeat split; congruence.
Qed.

Lemma selectWorkload_identity (fuel : nat) (agid : string) (wi : InitiateAgreement)
    (w w1 : World) (s : Selection) :
  selectWorkload E fuel agid wi w = (Ok s, w1) -> sameRequest wi (item s).
Proof.
  unfold selectWorkload. intros H. apply bind_inv in H as (ms & w0 & _ & H).
  exact (selectLoop_identity fuel agid ms _ _ _ _ H).
Qed.

(** The run of the proposal up to the initiation of the protocol, when the
    device is not skipped, the agreement id is new and the message target
    can be created. *)
Lemma proposeAgreement_initiates (agid bcType bcName bcOrg : string) (s : Selection) (w : World)
    (mt : ExchangeMessageTarget) :
  let wi := item s in
  let attempt :=
    OpAgreementAttempt agid (IOrg wi) (Id (IDevice wi)) (HeaderName (ConsumerPolicy wi))
      bcType bcName bcOrg (Name E) (PatternId (ConsumerPolicy wi)) (NodeH (ConsumerPolicy wi)) in
  let pending :=
    pendingAgreement E agid (IOrg wi) (Id (IDevice wi)) (HeaderName (ConsumerPolicy wi))
      bcType bcName bcOrg (Name E) (PatternId (ConsumerPolicy wi)) in
  noFaults E ->
  incompleteHAGroup E (ProducerPolicy wi) = false ->
  ignoreDevice E (ProducerPolicy wi) = false ->
  agreements w !! agid = None ->
  CreateMessageTarget E (Id (IDevice wi)) (PublicKey (IDevice wi)) (MsgEndPoint (IDevice wi))
  = Good mt ->
  proposeAgreement E agid bcType bcName bcOrg s w
  = match ProtocolInitiateAgreement E agid (ProducerPolicy wi) (ConsumerPolicy wi) (workload s) with
    | Err =>
        (Ok tt,
         mkWorld (agreements w) (usages w)
           (trace w ++ [Store attempt; ProtocolInitiate agid (workload s);
                        Store (OpDeleteAgreement agid (Name E))]))
    | Good proposal =>
        bind (PersistAgreement E wi proposal) (fun _ => ret tt)
          (mkWorld (<[agid := pending]> (agreements w)) (usages w)
             (trace w ++ [Store attempt; ProtocolInitiate agid (workload s)]))
    end.
Proof.
  intros wi attempt pending HN Hha Hig Hnone Hmt.
  unfold proposeAgreement. fold wi. rewrite Hha, Hig.
  unfold AgreementAttempt, writeAgreements. fold attempt pending. unfold bind at 1.
  rewrite HN, Hnone, Hmt.
  rewrite (bind_ok _ _ _ _ _ (call_run _ _)).
  assert (Hw : log (ProtocolInitiate agid (workload s))
                 (setAgreements (<[agid := pending]> (agreements w)) (log (Store attempt) w))
               = mkWorld (<[agid := pending]> (agreements w)) (usages w)
                   (trace w ++ [Store attempt; ProtocolInitiate agid (workload s)])).
  { unfold log, setAgreements. cbn [agreements usages trace]. by rewrite <- app_assoc. }
  rewrite Hw.
  destruct (ProtocolInitiateAgreement E agid _ _ _) as [proposal|]; [done|].
  unfold DeleteAgreement, writeAgreements, bind, ret. rewrite HN.
  cbn [agreements]. rewrite lookupAgreement_insert.
  unfold visible, pending, pendingAgreement. cbn [AgreementProtocol Archived negb orb].
  rewrite bool_decide_eq_true_2 by done. cbn [andb].
  unfold log, setAgreements. cbn [agreements usages trace].
  rewrite delete_insert_id by done. by rewrite <- app_assoc.
Qed.

(** X19: an initiation that the protocol handler refuses leaves no record.
    When the agreement id is new, the store does not fail and the message
    target is created, but the protocol handler fails to initiate the
    agreement, [InitiateNewAgreement] creates the pending record, calls
    the protocol handler, deletes the record again and releases the lock:
    the agreement table ends exactly as it was before the call. *)
Theorem InitiateNewAgreement_failed_initiation (fuel : nat) (wi : InitiateAgreement) (w w1 : World)
    (agid bcType bcName bcOrg : string) (s : Selection) (mt : ExchangeMessageTarget) :
  let attempt :=
    OpAgreementAttempt agid (IOrg (item s)) (Id (IDevice (item s)))
      (HeaderName (ConsumerPolicy (item s))) bcType bcName bcOrg (Name E)
      (PatternId (ConsumerPolicy (item s))) (NodeH (ConsumerPolicy (item s))) in
  noFaults E ->
  GenerateAgreementId E = Good agid ->
  RequiresKnownBC E (ProducerPolicy wi) (Name E) = (bcType, bcName, bcOrg) ->
  AgreementProtocolHandler E bcType bcName bcOrg = true ->
  selectWorkload E fuel agid wi (log (Lock agid) w) = (Ok s, w1) ->
  incompleteHAGroup E (ProducerPolicy (item s)) = false ->
  ignoreDevice E (ProducerPolicy (item s)) = false ->
  agreements w !! agid = None ->
  CreateMessageTarget E (Id (IDevice (item s))) (PublicKey (IDevice (item s)))
    (MsgEndPoint (IDevice (item s))) = Good mt ->
  ProtocolInitiateAgreement E agid (ProducerPolicy (item s)) (ConsumerPolicy (item s))
    (workload s) = Err ->
  exists w' selection,
    InitiateNewAgreement E fuel wi w = (Ok tt, w') /\
    agreements w' = agreements w /\
    since w w' = [Lock agid] ++ selection
                   ++ [Store attempt; ProtocolInitiate agid (workload s);
                       Store (OpDeleteAgreement agid (Name E)); Unlock agid] /\
    Forall usageCall selection.
Proof.
  intros attempt HN Hg Hbc Hph Hs Hha Hig Hnone Hmt Hpi.
  destruct (selectWorkload_run _ _ _ _ _ _ Hs) as (e1 & T1 & F1 & A1).
  assert (Hnone1 : agreements w1 !! agid = None) by (by rewrite A1).
  pose proof (proposeAgreement_initiates agid bcType bcName bcOrg s w1 mt HN Hha Hig Hnone1 Hmt)
    as Hp.
  rewrite Hpi in Hp.
  eexists _, e1. split; [|split; [|split; [|exact F1]]].
  - unfold InitiateNewAgreement. rewrite Hg, Hbc, Hph. cbn [negb].
    rewrite (bind_ok _ _ _ _ _ (call_run _ _)).
    unfold defer, callee. rewrite (bind_ok _ _ _ _ _ Hs), Hp. reflexivity.
  - cbn [agreements log]. exact A1.
  - apply since_app. cbn [trace log]. rewrite T1. cbn [trace log].
    rewrite <- !app_assoc. reflexivity.
Qed.

(** X20: a successful initiation.  When the agreement id is new, the store
    does not fail, the message target is created and the protocol handler
    returns the proposal for the agreement id, [InitiateNewAgreement]
    leaves the record of the agreement in the state Proposed, for the
    device, the organisation and the name of the consumer policy of the
    work item and the ledger of the producer, with the marshalled proposal
    and the marshalled consumer policy as augmented by the selection; the
    calls are the creation of the pending record, the initiation of the
    protocol for the chosen workload and the update of the record, under
    the lock. *)
Theorem InitiateNewAgreement_proposes (fuel : nat) (wi : InitiateAgreement) (w w1 : World)
    (agid bcType bcName bcOrg : string) (s : Selection) (mt : ExchangeMessageTarget)
    (proposal : Proposal) :
  let attempt :=
    OpAgreementAttempt agid (IOrg (item s)) (Id (IDevice (item s)))
      (HeaderName (ConsumerPolicy (item s))) bcType bcName bcOrg (Name E)
      (PatternId (ConsumerPolicy (item s))) (NodeH (ConsumerPolicy (item s))) in
  noFaults E ->
  GenerateAgreementId E = Good agid ->
  RequiresKnownBC E (ProducerPolicy wi) (Name E) = (bcType, bcName, bcOrg) ->
  AgreementProtocolHandler E bcType bcName bcOrg = true ->
  selectWorkload E fuel agid wi (log (Lock agid) w) = (Ok s, w1) ->
  incompleteHAGroup E (ProducerPolicy (item s)) = false ->
  ignoreDevice E (ProducerPolicy (item s)) = false ->
  agreements w !! agid = None ->
  CreateMessageTarget E (Id (IDevice (item s))) (PublicKey (IDevice (item s)))
    (MsgEndPoint (IDevice (item s))) = Good mt ->
  ProtocolInitiateAgreement E agid (ProducerPolicy (item s)) (ConsumerPolicy (item s))
    (workload s) = Good proposal ->
  PAgreementId proposal = agid ->
  exists w' selection a,
    InitiateNewAgreement E fuel wi w = (Ok tt, w') /\
    since w w' = [Lock agid] ++ selection
                   ++ [Store attempt; ProtocolInitiate agid (workload s);
                       Store (OpPersistAgreement agid (Name E)); Unlock agid] /\
    Forall usageCall selection /\
    agreements w' !! agid = Some a /\
    (forall id, id <> agid -> agreements w' !! id = agreements w !! id) /\
    State a = Proposed /\ Archived a = false /\
    CurrentAgreementId a = agid /\ AgreementProtocol a = Name E /\
    Org a = IOrg wi /\ DeviceId a = Id (IDevice wi) /\
    PolicyName a = HeaderName (ConsumerPolicy wi) /\
    BlockchainType a = bcType /\ BlockchainName a = bcName /\ BlockchainOrg a = bcOrg /\
    AgProposal a = MarshalProposal E proposal /\
    AgPolicy a = MarshalPolicy E (ConsumerPolicy (item s)) /\
    AgreementProtocolVersion a = PVersion proposal /\
    created a = now E /\ proposed a = now E /\ replied a = 0%Z.
Proof.
  intros attempt HN Hg Hbc Hph Hs Hha Hig Hnone Hmt Hpi Hid.
  destruct (selectWorkload_run _ _ _ _ _ _ Hs) as (e1 & T1 & F1 & A1).
  assert (Hnone1 : agreements w1 !! agid = None) by (by rewrite A1).
  pose proof (proposeAgreement_initiates agid bcType bcName bcOrg s w1 mt HN Hha Hig Hnone1 Hmt)
    as Hp.
  rewrite Hpi in Hp.
  unfold PersistAgreement, updateAgreement, writeAgreements, bind, ret in Hp.
  rewrite HN, Hid in Hp. cbn [agreements log] in Hp. rewrite lookupAgreement_insert in Hp.
  unfold visible, pendingAgreement in Hp. cbn [AgreementProtocol Archived negb orb] in Hp.
  rewrite bool_decide_eq_true_2 in Hp by done. cbn [andb] in Hp.
  destruct (selectWorkload_identity _ _ _ _ _ _ Hs) as (K1 & K0 & K3 & _). 
  assert (K2 : Id (IDevice (item s)) = Id (IDevice wi)) by (by rewrite K0).
  eexists _, e1, _. split; [|split; [|split; [exact F1|split; [|split]]]].
  - unfold InitiateNewAgreement. rewrite Hg, Hbc, Hph. cbn [negb].
    rewrite (bind_ok _ _ _ _ _ (call_run _ _)).
    unfold defer, callee. rewrite (bind_ok _ _ _ _ _ Hs), Hp. reflexivity.
  - apply since_app. cbn [trace log setAgreements]. rewrite T1. cbn [trace log].
    rewrite <- !app_assoc. reflexivity.
  - cbn [agreements log setAgreements]. apply lookup_insert_eq.
  - intros id Hne. cbn [agreements log setAgreements].
    rewrite !lookup_insert_ne by done. by rewrite A1.
  - cbn. rewrite ?K1, ?K2, ?K3. repeat split; done.
Qed.
End Properties.

(** ** The properties on concrete runs *)

Lemma CancelAgreement_defers_command_witness :
  lookupAgreement "a1" (Name ledgerDown) true (agreements (worldOf agreementV1)) = Some agreementV1 /\
  (CancelAgreement ledgerDown "a1" 3 (worldOf agreementV1)).1 = Ok tt /\
  count_occ Call_eq_dec (since (worldOf agreementV1) (CancelAgreement ledgerDown "a1" 3 (worldOf agreementV1)).2)
    (DeferCommand (mkAsyncCancelAgreement ASYNC_CANCEL "a1" "Basic" 3)) = 1%nat.
Proof.
  assert (Hl : lookupAgreement "a1" (Name ledgerDown) true (agreements (worldOf agreementV1))
               = Some agreementV1) by (vm_compute; reflexivity).
  split; [exact Hl|].
  destruct (CancelAgreement_defers_command ledgerDown "a1" 3 (worldOf agreementV1) agreementV1 Hl eq_refl)
    as (Hok & _ & _ & Hc).
  split; [exact Hok|]. apply Hc. vm_compute. reflexivity.
Defined.

(** C6 as stated fails: the ledger is not writable, the agreement names no
    ledger and has protocol version 2, and no command is deferred. *)
Lemma CancelAgreement_unwritable_not_deferred :
  lookupAgreement "a1" (Name ledgerDown) true (agreements (worldOf agreementV2)) = Some agreementV2 /\
  IsBlockchainWritable ledgerDown (BlockchainType agreementV2) (BlockchainName agreementV2)
    (BlockchainOrg agreementV2) = false /\
  (CancelAgreement ledgerDown "a1" 3 (worldOf agreementV2)).1 = Ok tt /\
  List.filter isDefer (since (worldOf agreementV2) (CancelAgreement ledgerDown "a1" 3 (worldOf agreementV2)).2) = [].
Proof. vm_compute. done. Qed.


Lemma HandleAgreementReply_deletes_message_once_witness :
  MessageId reply6 <> 0%Z /\
  List.filter isDeleteMessage
    (since (worldOf agreementV2) (HandleAgreementReply allUp reply6 (worldOf agreementV2)).2)
  = [DeleteMessage 6].
Proof.
  assert (Hm : MessageId reply6 <> 0%Z) by (vm_compute; discriminate).
  split; [exact Hm|].
  destruct (HandleAgreementReply_deletes_message_once allUp reply6 (worldOf agreementV2) Hm)
    as [Hd _].
  apply (Hd false). vm_compute. reflexivity.
Defined.

Lemma HandleAgreementReply_commit_order_witness :
  (validateReply commitFails reply5 (log (Lock "a1") (worldOf agreementV2))).1 = Ok (true, true) /\
  (HandleAgreementReply commitFails reply5 (worldOf agreementV2)).1 = Ok false /\
  (HandleAgreementReply allUp reply5 (worldOf agreementV2)).1 = Ok true.
Proof.
  split; [vm_compute; reflexivity|]. split.
  - destruct (HandleAgreementReply_commit_order commitFails reply5 (worldOf agreementV2)
                (validateReply commitFails reply5 (log (Lock "a1") (worldOf agreementV2))).2 true
                eq_refl ltac:(vm_compute; reflexivity)) as (wc & w' & _ & _ & _ & _ & H).
    change (PostReplyResult commitFails (AgreementId (Reply reply5))) with (@Err unit) in H.
    destruct H as [H _]. by rewrite H.
  - destruct (HandleAgreementReply_commit_order allUp reply5 (worldOf agreementV2)
                (validateReply allUp reply5 (log (Lock "a1") (worldOf agreementV2))).2 true
                eq_refl ltac:(vm_compute; reflexivity)) as (wc & w' & _ & _ & _ & _ & H).
    change (PostReplyResult allUp (AgreementId (Reply reply5))) with (Good tt) in H.
    by rewrite H.
Defined.

(** C1 as stated fails: the reply is validated and the ledger commit is
    invoked, but no ack was sent, because the message target of the sender
    could not be created. *)
Lemma HandleAgreementReply_commit_without_ack :
  (validateReply noTarget reply5 (log (Lock "a1") (worldOf agreementV2))).1 = Ok (true, true) /\
  (HandleAgreementReply noTarget reply5 (worldOf agreementV2)).1 = Ok true /\
  List.filter isPostReply
    (since (worldOf agreementV2) (HandleAgreementReply noTarget reply5 (worldOf agreementV2)).2)
  = [PostReply "a1"] /\
  List.filter isConfirm
    (since (worldOf agreementV2) (HandleAgreementReply noTarget reply5 (worldOf agreementV2)).2)
  = [].
Proof. vm_compute. done. Qed.

Lemma HandleAgreementReply_without_usage_witness :
  IsSame (outdated true) (Priority (workloadAt priorityOne "http://w1"))
    (Priority (workloadAt priorityTwo "http://w2")) = false /\
  (HandleAgreementReply (outdated true) reply5 (worldOf agreementV2)).1 = Ok false /\
  List.filter isConfirm
    (since (worldOf agreementV2) (HandleAgreementReply (outdated true) reply5 (worldOf agreementV2)).2)
  = [Confirm false "a1" (mkExchangeMessageTarget "D1" "key" "")].
Proof.
  destruct (HandleAgreementReply_without_usage (outdated true) reply5 (worldOf agreementV2) agreementV2
              (mkProposal "a1" "tsandcs" 2) twoPolicy onePolicy tt 0
              (workloadAt priorityOne "http://w1") (workloadAt priorityTwo "http://w2") []
              eq_refl eq_refl eq_refl eq_refl eq_refl eq_refl eq_refl eq_refl eq_refl
              eq_refl eq_refl eq_refl eq_refl eq_refl) as [Hd _].
  split; [reflexivity|].
  destruct (Hd eq_refl) as (w' & H & Hs & _).
  rewrite H. split; [reflexivity|]. cbn [snd]. rewrite Hs. reflexivity.
Defined.

(** C3 as stated fails: there is no workload usage record and the priorities
    differ, the ack is marked invalid, but no negative ack is sent, because
    the message target of the sender could not be created. *)
Lemma HandleAgreementReply_invalid_without_ack :
  usages (worldOf agreementV2) !! ("D1", "P") = None /\
  IsSame (outdated false) (Priority (workloadAt priorityOne "http://w1"))
    (Priority (workloadAt priorityTwo "http://w2")) = false /\
  (HandleAgreementReply (outdated false) reply5 (worldOf agreementV2)).1 = Ok false /\
  List.filter isConfirm
    (since (worldOf agreementV2) (HandleAgreementReply (outdated false) reply5 (worldOf agreementV2)).2)
  = [].
Proof. vm_compute. done. Qed.




(** C4 at a failing input: the store holds a usage record for (D1, P) from
    an earlier negotiation, and the only workload of P has an empty
    priority and is not supported by the device.  The loop chooses that
    workload twice; the run creates no usage record and no agreement, and
    yet its call of [DeleteWorkloadUsage] removes the record. *)
Theorem InitiateNewAgreement_deletes_earlier_usage :
  usages worldWithUsage !! ("D1", "P") = Some earlierUsage /\
  InitiateNewAgreement unsupported 5 requestEmpty worldWithUsage
  = (Ok tt,
     mkWorld ∅ ∅ [Lock "a1"; Store (OpDeleteWorkloadUsage "D1" "P"); Unlock "a1"]) /\
  List.filter isNewWorkloadUsage
    (since worldWithUsage (InitiateNewAgreement unsupported 5 requestEmpty worldWithUsage).2) = [] /\
  usages (InitiateNewAgreement unsupported 5 requestEmpty worldWithUsage).2 !! ("D1", "P") = None.
Proof. vm_compute. done. Qed.

(** Priority rollback: the workload of priority 1 is skipped, which leaves a
    usage record with [reqs_not_met], priority 1 and retry count 3; the
    loop then picks the workload of priority 2 and the agreement is
    initiated for it. *)
Example priority_rollback :
  exists w',
    InitiateNewAgreement rollback 5 requestRollback world0 = (Ok tt, w') /\
    since world0 w'
    = [Lock "a1";
       Store (OpNewWorkloadUsage "D1" [] "" "P" 1 3600 52 true "a1");
       Store (OpUpdateRetryCount "D1" "P" 3 "a1");
       Store (OpAgreementAttempt "a1" "myorg" "D1" "P" "" "" "" "Basic" "" "");
       ProtocolInitiate "a1" (Some 1%nat);
       Store (OpPersistAgreement "a1" "Basic");
       Unlock "a1"] /\
    usages w' !! ("D1", "P")
    = Some (mkWorkloadUsage "D1" [] "" "P" 1 3 3600 52 100 false true "a1") /\
    (exists a, agreements w' !! "a1" = Some a /\ State a = Proposed).
Proof. eexists. split; [vm_compute; reflexivity|]. vm_compute. eauto. Qed.

(** Commit failure: the reply is acked, the blockchain write fails, and the
    agreement is cancelled under a fresh lock and archived with the code of
    the failed write. *)
Example commit_failure :
  exists w',
    HandleAgreementReply commitFails reply5 (worldOf agreementV2) = (Ok false, w') /\
    since (worldOf agreementV2) w'
    = [Lock "a1";
       Store (OpPersistReply "a1" "Basic" "0xabc" 2);
       RecordConsumerAgreementState "a1" "Producer agreed";
       Store (OpNewWorkloadUsage "D1" [] "consumer" "P" 1 3600 52 false "a1");
       Confirm true "a1" (mkExchangeMessageTarget "D1" "key" "");
       DeleteMessage 5;
       Unlock "a1";
       PostReply "a1";
       Lock "a1";
       Store (OpAgreementTimedout "a1" "Basic");
       DeleteConsumerAgreement "a1";
       Store (OpUpdateWUAgreementId "D1" "P" "");
       TerminateAgreement "a1" 2;
       Store (OpArchiveAgreement "a1" "Basic" 2 "terminated");
       Unlock "a1";
       DeleteAgreementLock "a1";
       Confirm false "a1" (mkExchangeMessageTarget "D1" "key" "")] /\
    (exists a, agreements w' !! "a1" = Some a /\ Archived a = true /\ TerminatedReason a = 2%N).
Proof. eexists. split; [vm_compute; reflexivity|]. vm_compute. eauto. Qed.

(** ** Further properties on concrete runs *)

Lemma CancelAgreement_unknown_agreement_witness :
  agreements (worldOf agreementArchived) !! "a1" = Some agreementArchived /\
  since (worldOf agreementArchived) (CancelAgreement allUp "a1" 3 (worldOf agreementArchived)).2
  = [Store (OpAgreementTimedout "a1" "Basic"); DeleteConsumerAgreement "a1"].
Proof.
  split; [vm_compute; reflexivity|].
  destruct (CancelAgreement_unknown_agreement allUp "a1" 3 (worldOf agreementArchived))
    as (w' & H & Hs & _).
  - intros a Ha. left. vm_compute in Ha. by simplify_eq.
  - rewrite H. exact Hs.
Defined.

Lemma CancelAgreement_call_order_witness :
  lookupAgreement "a1" (Name ledgerDown) true (agreements (worldOf agreementV1)) = Some agreementV1 /\
  exists w',
    CancelAgreement ledgerDown "a1" 3 (worldOf agreementV1) = (Ok tt, w') /\
    since (worldOf agreementV1) w'
    = [Store (OpAgreementTimedout "a1" "Basic");
       DeleteConsumerAgreement "a1";
       Store (OpUpdateWUAgreementId "D1" "P" "");
       TerminateAgreement "a1" 3;
       DeferCommand (mkAsyncCancelAgreement ASYNC_CANCEL "a1" "Basic" 3);
       Store (OpArchiveAgreement "a1" "Basic" 3 "terminated")].
Proof.
  assert (Hl : lookupAgreement "a1" (Name ledgerDown) true (agreements (worldOf agreementV1))
               = Some agreementV1) by (vm_compute; reflexivity).
  split; [exact Hl|].
  destruct (CancelAgreement_call_order ledgerDown "a1" 3 (worldOf agreementV1) agreementV1 Hl eq_refl)
    as (w' & ag1 & rest & Hrun & _ & _ & Hs).
  exists w'. split; [exact Hrun|].
  assert (Hw : w' = (CancelAgreement ledgerDown "a1" 3 (worldOf agreementV1)).2) by (by rewrite Hrun).
  rewrite Hw. vm_compute. reflexivity.
Defined.

Lemma CancelAgreement_archives_witness :
  lookupAgreement "a1" (Name allUp) true (agreements (worldOf agreementV2)) = Some agreementV2 /\
  exists w' a',
    CancelAgreement allUp "a1" 3 (worldOf agreementV2) = (Ok tt, w') /\
    agreements w' !! "a1" = Some a' /\ Archived a' = true /\ TerminatedReason a' = 3%N.
Proof.
  assert (Hl : lookupAgreement "a1" (Name allUp) true (agreements (worldOf agreementV2))
               = Some agreementV2) by (vm_compute; reflexivity).
  split; [exact Hl|].
  destruct (CancelAgreement_archives allUp "a1" 3 (worldOf agreementV2) agreementV2
              (fun _ => eq_refl) Hl eq_refl)
    as (w' & a' & Hrun & Ha & Harch & _ & Hreason & _).
  by exists w', a'.
Defined.

Lemma CancelAgreement_releases_usage_witness :
  lookupAgreement "a1" (Name allUp) true (agreements worldUnmet) = Some agreementV2 /\
  usages worldUnmet !! ("D1", "P") = Some usageUnmet /\
  exists w',
    CancelAgreement allUp "a1" 3 worldUnmet = (Ok tt, w') /\
    usages w' !! ("D1", "P") = None.
Proof.
  assert (Hl : lookupAgreement "a1" (Name allUp) true (agreements worldUnmet) = Some agreementV2)
    by (vm_compute; reflexivity).
  split; [exact Hl|]. split; [vm_compute; reflexivity|].
  destruct (CancelAgreement_releases_usage allUp "a1" 3 worldUnmet agreementV2
              (fun _ => eq_refl) Hl)
    as (w' & Hrun & Hu & _).
  exists w'. split; [exact Hrun|]. etrans; [exact Hu | vm_compute; reflexivity].
Defined.

Lemma deferred_cancel_finds_record_witness :
  lookupAgreement "a1" (Name ledgerDown) true (agreements (worldOf agreementV1)) = Some agreementV1 /\
  exists w1 w2,
    CancelAgreement ledgerDown "a1" 3 (worldOf agreementV1) = (Ok tt, w1) /\
    ExternalCancel ledgerDown "a1" 3 w1 = (Ok tt, w2) /\
    since w1 w2 = [DeferCommand (mkAsyncCancelAgreement ASYNC_CANCEL "a1" "Basic" 3)].
Proof.
  assert (Hl : lookupAgreement "a1" (Name ledgerDown) true (agreements (worldOf agreementV1))
               = Some agreementV1) by (vm_compute; reflexivity).
  split; [exact Hl|].
  destruct (deferred_cancel_finds_record ledgerDown "a1" 3 (worldOf agreementV1) agreementV1 Hl eq_refl)
    as (w1 & ag' & w2 & Hrun & _ & _ & _ & _ & Hext & Hs).
  exists w1, w2. split; [exact Hrun|]. split; [exact Hext|]. exact Hs.
Defined.

Lemma HandleDataReceivedAck_records_data_witness :
  ValidateDataReceivedAck allUp "ack" = Good (Some "a1") /\
  exists w' a',
    HandleDataReceivedAck allUp (mkHandleDataReceivedAckWork "ack" "" "D1" "key" 7)
      (worldOf agreementReplied) = (Ok tt, w') /\
    since (worldOf agreementReplied) w'
    = [Lock "a1"; Store (OpDataNotification "a1" "Basic"); Unlock "a1"; DeleteMessage 7] /\
    agreements w' !! "a1" = Some a' /\ State a' = DataReceived /\ data_received a' = 100%Z.
Proof.
  split; [reflexivity|].
  destruct (HandleDataReceivedAck_records_data allUp
              (mkHandleDataReceivedAckWork "ack" "" "D1" "key" 7)
              (worldOf agreementReplied) "a1" agreementReplied
              (fun _ => eq_refl) eq_refl ltac:(vm_compute; reflexivity) eq_refl)
    as (w' & a' & Hrun & Hs & Ha & Hst & Hd & _).
  exists w', a'. repeat split; done.
Defined.

Lemma HandleAgreementReply_negative_reply_witness :
  ProposalAccepted (Reply reply6) = false /\
  exists w',
    HandleAgreementReply allUp reply6 (worldOf agreementV2) = (Ok false, w') /\
    List.filter isConfirm (since (worldOf agreementV2) w') = [] /\
    exists a', agreements w' !! "a1" = Some a' /\ Archived a' = true /\ TerminatedReason a' = 1%N.
Proof.
  split; [reflexivity|].
  destruct (HandleAgreementReply_negative_reply allUp reply6 (worldOf agreementV2) eq_refl)
    as (w' & cancel & Hrun & _ & _ & _ & Hc & _ & _ & Harch).
  exists w'. split; [exact Hrun|]. split; [exact Hc|].
  apply (Harch agreementV2 (fun _ => eq_refl)); vm_compute; reflexivity.
Defined.

Lemma HandleAgreementReply_unmatched_reply_witness :
  lookupAgreement "a1" (Name allUp) true (agreements world0) = None /\
  exists w',
    HandleAgreementReply allUp reply5 world0 = (Ok false, w') /\
    since world0 w'
    = [Lock "a1"; Confirm false "a1" (mkExchangeMessageTarget "D1" "key" ""); Unlock "a1";
       DeleteMessage 5].
Proof.
  assert (Hl : lookupAgreement "a1" (Name allUp) true (agreements world0) = None)
    by (vm_compute; reflexivity).
  split; [exact Hl|].
  destruct (HandleAgreementReply_unmatched_reply allUp reply5 world0 eq_refl (or_intror (or_introl Hl)))
    as (w' & Hrun & Hs & _).
  exists w'. split; [exact Hrun | exact Hs].
Defined.

Lemma HandleAgreementReply_lock_discipline_witness :
  (HandleAgreementReply commitFails reply5 (worldOf agreementV2)).1 = Ok false /\
  (List.filter isLockOp
     (since (worldOf agreementV2) (HandleAgreementReply commitFails reply5 (worldOf agreementV2)).2)
   = [Lock "a1"; Unlock "a1"] \/
   (List.filter isLockOp
      (since (worldOf agreementV2) (HandleAgreementReply commitFails reply5 (worldOf agreementV2)).2)
    = [Lock "a1"; Unlock "a1"; Lock "a1"; Unlock "a1"; DeleteAgreementLock "a1"] /\
    ProposalAccepted (Reply reply5) = true /\
    PostReplyResult commitFails "a1" = Err /\ false = false)).
Proof.
  split; [vm_compute; reflexivity|].
  apply (HandleAgreementReply_lock_discipline commitFails reply5 (worldOf agreementV2)
           (HandleAgreementReply commitFails reply5 (worldOf agreementV2)).2 false).
  vm_compute. reflexivity.
Defined.

Lemma HandleAgreementReply_true_iff_committed_witness :
  (HandleAgreementReply allUp reply5 (worldOf agreementV2)).1 = Ok true /\
  In (PostReply "a1")
    (since (worldOf agreementV2) (HandleAgreementReply allUp reply5 (worldOf agreementV2)).2) /\
  PostReplyResult allUp "a1" = Good tt.
Proof.
  split; [vm_compute; reflexivity|].
  destruct (HandleAgreementReply_true_iff_committed allUp reply5 (worldOf agreementV2)
              (HandleAgreementReply allUp reply5 (worldOf agreementV2)).2 true
              ltac:(vm_compute; reflexivity)) as [[H _] _].
  exact (H eq_refl).
Defined.

Lemma reconcileUsage_existing_record_witness :
  usages worldWithUsage !! ("D1", "P") = Some earlierUsage /\
  exists w' u',
    reconcileUsage allUp reply5 agreementV2 onePolicy onePolicy worldWithUsage = (Ok true, w') /\
    usages w' !! ("D1", "P") = Some u' /\
    RetryCount u' = 1%Z /\ UsCurrentAgreementId u' = "a1".
Proof.
  split; [vm_compute; reflexivity|].
  destruct (reconcileUsage_existing_record allUp reply5 worldWithUsage agreementV2 onePolicy
              onePolicy earlierUsage (workloadAt priorityOne "http://w1") []
              ltac:(vm_compute; reflexivity) eq_refl)
    as (w' & Hrun & _ & _ & _ & HN).
  destruct (HN (fun _ => eq_refl)) as (u' & Hu & Hid & _ & _ & _ & Hcase).
  exists w', u'. split; [exact Hrun|]. split; [exact Hu|]. split; [|exact Hid].
  vm_compute in Hcase. by destruct Hcase as (_ & Hr & _).
Defined.

Lemma InitiateNewAgreement_skips_device_witness :
  GetDevice partnerMissing "D2" = Err /\
  InitiateNewAgreement partnerMissing 2 requestHA world0
  = (Ok tt, log (Unlock "a1") (log (Lock "a1") world0)).
Proof.
  split; [reflexivity|].
  apply (InitiateNewAgreement_skips_device partnerMissing 2 requestHA world0 (log (Lock "a1") world0)
           "a1" "" "" ""
           (mkSelection
              (withConsumerPolicy
                 (augmented [] 0
                    (withDeployment (mkWorkloadDeployment "deploy" "sig" "") emptyTorrent
                       (workloadAt priorityOne "http://w1"))
                    onePolicy) requestHA)
              true (Some 0%nat) (Some 0%nat)));
    try reflexivity.
  left. exists "D2". split; [|reflexivity]. cbn. apply list_elem_of_here.
Defined.

Lemma selectStep_supported_witness :
  Supports allUp [] [] = true /\
  exists s' wl',
    selectStep allUp "a1" [] (mkSelection requestOne false None None) world0 = (Ok s', world0) /\
    foundWorkload s' = true /\
    Workloads (ConsumerPolicy (item s')) !! 0%nat = Some wl' /\
    Deployment wl' = "deploy" /\ DeploymentSignature wl' = "sig" /\
    Priority wl' = priorityOne.
Proof.
  split; [reflexivity|].
  destruct (selectStep_supported allUp "a1" [] (mkSelection requestOne false None None) world0
              0 (workloadAt priorityOne "http://w1")
              (mkWorkloadDefinition [] [mkWorkloadDeployment "deploy" "sig" ""]) [] None
              (mkWorkloadDeployment "deploy" "sig" "") [] emptyTorrent
              eq_refl ltac:(discriminate) eq_refl eq_refl eq_refl eq_refl eq_refl eq_refl)
    as (s' & wl' & Hrun & Hf & _ & _ & _ & _ & _ & _ & _ & _ & _ & _ & Hi & Hd & Hsig & _ & Hp & _).
  exists s', wl'. repeat split; done.
Defined.

Lemma InitiateNewAgreement_failed_initiation_witness :
  ProtocolInitiateAgreement refusing "a1" (ProducerPolicy requestOne)
    (ConsumerPolicy (item (selectedOne requestOne))) (Some 0%nat) = Err /\
  exists w',
    InitiateNewAgreement refusing 2 requestOne world0 = (Ok tt, w') /\
    agreements w' = agreements world0 /\
    since world0 w'
    = [Lock "a1";
       Store (OpAgreementAttempt "a1" "myorg" "D1" "P" "" "" "" "Basic" "" "");
       ProtocolInitiate "a1" (Some 0%nat);
       Store (OpDeleteAgreement "a1" "Basic");
       Unlock "a1"].
Proof.
  split; [reflexivity|].
  destruct (InitiateNewAgreement_failed_initiation refusing 2 requestOne world0
              (log (Lock "a1") world0) "a1" "" "" "" (selectedOne requestOne)
              (mkExchangeMessageTarget "D1" "key" "endpoint")
              (fun _ => eq_refl) eq_refl eq_refl eq_refl ltac:(vm_compute; reflexivity)
              eq_refl eq_refl eq_refl eq_refl eq_refl)
    as (w' & selection & Hrun & Ha & Hs & _).
  exists w'. split; [exact Hrun|]. split; [exact Ha|].
  assert (Hw : w' = (InitiateNewAgreement refusing 2 requestOne world0).2) by (by rewrite Hrun).
  rewrite Hw. vm_compute. reflexivity.
Defined.

Lemma InitiateNewAgreement_proposes_witness :
  agreements world0 !! "a1" = None /\
  exists w' a,
    InitiateNewAgreement allUp 2 requestOne world0 = (Ok tt, w') /\
    agreements w' !! "a1" = Some a /\
    State a = Proposed /\ DeviceId a = "D1" /\ PolicyName a = "P" /\ AgProposal a = "proposal".
Proof.
  split; [reflexivity|].
  destruct (InitiateNewAgreement_proposes allUp 2 requestOne world0
              (log (Lock "a1") world0) "a1" "" "" "" (selectedOne requestOne)
              (mkExchangeMessageTarget "D1" "key" "endpoint") (mkProposal "a1" "tsandcs" 2)
              (fun _ => eq_refl) eq_refl eq_refl eq_refl ltac:(vm_compute; reflexivity)
              eq_refl eq_refl eq_refl eq_refl eq_refl eq_refl)
    as (w' & selection & a & Hrun & _ & _ & Ha & _ & Hst & _ & _ & _ & _ & Hd & Hp & _ & _ & _ & Hpr & _).
  exists w', a. repeat split; done.
Defined.

(** * The workload resource of the command line *)

Section UserInputs.

Import cliexchange.

Lemma addDefault_lookup (envmap : gmap string string) (ui : UserInput) (k : string) :
  addDefault envmap ui !! k
  = match envmap !! k with
    | Some v => Some v
    | None => if givesDefault k ui then Some (DefaultValue ui) else None
    end.
Proof.
  unfold addDefault, givesDefault.
  destruct (decide (Name ui = k)) as [<-|Hne].
  - rewrite (bool_decide_eq_true_2 (Name ui = Name ui)) by done. cbn [andb].
    destruct (negb (bool_decide (Name ui = "")) && negb (bool_decide (DefaultValue ui = "")));
      [|by destruct (envmap !! Name ui)].
    destruct (envmap !! Name ui) eqn:Hl; [done|]. by rewrite lookup_insert_eq.
  - rewrite (bool_decide_eq_false_2 _ Hne). cbn [andb].
    destruct (negb (bool_decide (Name ui = "")) && negb (bool_decide (DefaultValue ui = "")));
      [|by destruct (envmap !! k)].
    destruct (envmap !! Name ui); [by destruct (envmap !! k)|].
    rewrite lookup_insert_ne by done. by destruct (envmap !! k).
Qed.

Lemma foldl_addDefault_lookup (uis : list UserInput) (envmap : gmap string string) (k : string) :
  foldl addDefault envmap uis !! k
  = match envmap !! k with
    | Some v => Some v
    | None => DefaultValue <$> List.find (givesDefault k) uis
    end.
Proof.
  revert envmap. induction uis as [|ui uis IH]; intros envmap; simpl.
  - by destruct (envmap !! k).
  - rewrite IH, addDefault_lookup.
    destruct (envmap !! k); [done|]. by destruct (givesDefault k ui).
Qed.

(** X21: [AddDefaultUserInputs] never modifies a variable that is already
    in the map: the map it is given is included in the map it leaves.  A
    variable that is not in the map is bound exactly when some user input
    of that name has a default, where neither the name nor the default is
    empty, and then to the default of the first such input; so the empty
    name is never bound and no variable is bound to the empty string.
    Running it again changes nothing. *)
Theorem AddDefaultUserInputs_defaults (w : WorkloadInput) (envmap : gmap string string) :
  (forall k,
     AddDefaultUserInputs w envmap !! k
     = match envmap !! k with
       | Some v => Some v
       | None => DefaultValue <$> List.find (givesDefault k) (UserInputs w)
       end) /\
  envmap ⊆ AddDefaultUserInputs w envmap /\
  (forall k v,
     AddDefaultUserInputs w envmap !! k = Some v -> envmap !! k = None ->
     k <> "" /\ v <> "" /\
     exists ui, ui ∈ UserInputs w /\ Name ui = k /\ DefaultValue ui = v) /\
  AddDefaultUserInputs w (AddDefaultUserInputs w envmap) = AddDefaultUserInputs w envmap.
Proof.
  unfold AddDefaultUserInputs.
  split; [intros k; apply foldl_addDefault_lookup|]. split; [|split].
  - apply map_subseteq_spec. intros k v Hk. by rewrite foldl_addDefault_lookup, Hk.
  - intros k v Hk Hnone. rewrite foldl_addDefault_lookup, Hnone in Hk.
    destruct (List.find (givesDefault k) (UserInputs w)) as [ui|] eqn:Hfind; [|discriminate].
    apply List.find_some in Hfind as [Hin Hg]. cbn in Hk. simplify_eq.
    unfold givesDefault in Hg.
    apply andb_true_iff in Hg as [Hg Hd]. apply andb_true_iff in Hg as [Hn He].
    apply bool_decide_eq_true in Hn. apply negb_true_iff, bool_decide_eq_false in He, Hd.
    split; [congruence|]. split; [done|].
    exists ui. split; [by apply list_elem_of_In | done].
  - apply map_eq. intros k. rewrite !foldl_addDefault_lookup.
    destruct (envmap !! k); [done|].
    by destruct (List.find (givesDefault k) (UserInputs w)).
Qed.

Lemma definedType_find (uis : list UserInput) (name : string) :
  definedType uis name
  = match List.find (givesType name) uis with
    | Some ui => Type_ ui
    | None => ""
    end.
Proof.
  induction uis as [|ui uis IH]; simpl; [done|].
  unfold givesType at 1. by destruct (bool_decide (Name ui = name) && _).
Qed.

(** X22: [DefinesVariable] returns a non-empty string exactly when some user
    input of the workload definition has the name and a non-empty type,
    and then it returns the type of the first such input (an input of
    that name without a type does not hide a later one); otherwise it
    returns the empty string. *)
Theorem DefinesVariable_type (w : WorkloadInput) (name : string) :
  (DefinesVariable w name <> "" <->
   exists ui, ui ∈ UserInputs w /\ Name ui = name /\ Type_ ui <> "") /\
  (DefinesVariable w name = "" \/
   exists before ui after,
     UserInputs w = before ++ ui :: after /\
     Name ui = name /\ DefinesVariable w name = Type_ ui /\
     forall ui', ui' ∈ before -> Name ui' <> name \/ Type_ ui' = "").
Proof.
  unfold DefinesVariable. rewrite definedType_find.
  assert (Hg : forall ui, givesType name ui = true <-> Name ui = name /\ Type_ ui <> "").
  { intros ui. unfold givesType.
    by rewrite andb_true_iff, negb_true_iff, bool_decide_eq_true, bool_decide_eq_false. }
  split.
  - destruct (List.find (givesType name) (UserInputs w)) as [ui|] eqn:Hfind.
    + apply List.find_some in Hfind as [Hin Hgt]. apply Hg in Hgt as [Hn Ht].
      split; [intros _; exists ui; split; [by apply list_elem_of_In | done] | done].
    + split; [done|]. intros (ui & Hin & Hn & Ht).
      apply list_elem_of_In in Hin.
      pose proof (List.find_none _ _ Hfind ui Hin) as Hnone.
      assert (Htrue : givesType name ui = true) by (by apply Hg). congruence.
  - induction (UserInputs w) as [|ui uis IH]; simpl; [by left|].
    destruct (givesType name ui) eqn:Hui.
    + right. exists [], ui, uis. apply Hg in Hui as [Hn Ht].
      repeat split; try done. intros ui' Hin. by apply elem_of_nil in Hin.
    + destruct IH as [IH | (before & ui0 & after & -> & Hn & Ht & Hb)]; [by left|].
      right. exists (ui :: before), ui0, after. repeat split; try done.
      intros ui' Hin. apply elem_of_cons in Hin as [-> | Hin]; [|by apply Hb].
      destruct (decide (Name ui = name)) as [Hname|]; [|by left].
      right. destruct (decide (Type_ ui = "")) as [|Htype]; [done|].
      assert (Htrue : givesType name ui = true) by (by apply Hg). congruence.
Qed.

End UserInputs.

(** * The registry of the ethereum blockchain worker *)

Section BlockchainRegistry.
Import ethblockchain.

Lemma worker_eq (w w' : EthBlockchainWorker) :
  exchangeURL w = exchangeURL w' -> exchangeId w = exchangeId w' ->
  exchangeToken w = exchangeToken w' -> horizonPubKeyFile w = horizonPubKeyFile w' ->
  instances w = instances w' -> neededBCs w = neededBCs w' ->
  Commands w = Commands w' -> Messages w = Messages w' -> w = w'.
Proof. destruct w, w'; simpl; intros; by subst. Qed.

Lemma setInstances_id (w : EthBlockchainWorker) : setInstances (instances w) w = w.
Proof. by destruct w. Qed.

(** X23: [NewBCInstanceState] never replaces an instance: for a name that
    is in the registry it returns nil and changes nothing.  For a new name
    it returns and registers a state that has only its name and org set,
    leaves the other instances alone, and [DeleteBCInstance] of that name
    gives back the worker as it was; a second [NewBCInstanceState] of the
    name, with whatever org, returns nil.  [DeleteBCInstance] of a name
    that is not registered changes nothing, and
    [AllBlockchainContainersStopped] holds exactly when no instance is
    registered. *)
Theorem NewBCInstanceState_registry (name org : string) (w : EthBlockchainWorker) :
  (is_Some (instances w !! name) ->
   NewBCInstanceState name org w = (None, w)) /\
  (instances w !! name = None ->
   exists w',
     NewBCInstanceState name org w = (Some (newInstance name org), w') /\
     instances w' !! name = Some (newInstance name org) /\
     (forall k, k <> name -> instances w' !! k = instances w !! k) /\
     AllBlockchainContainersStopped w' = false /\
     (forall org', NewBCInstanceState name org' w' = (None, w')) /\
     DeleteBCInstance name w' = w /\
     DeleteBCInstance name w = w) /\
  (AllBlockchainContainersStopped w = true <-> instances w = ∅).
Proof.
  split; [|split].
  - intros [i Hi]. unfold NewBCInstanceState. by rewrite Hi.
  - intros Hnone. unfold NewBCInstanceState. rewrite Hnone.
    eexists. split; [done|]. cbn.
    split; [by rewrite lookup_insert_eq|].
    split; [by intros k Hk; rewrite lookup_insert_ne|].
    split.
    { unfold AllBlockchainContainersStopped. apply bool_decide_eq_false. cbn.
      rewrite map_size_insert_None by done. lia. }
    split; [by intros org'; cbn; rewrite lookup_insert_eq|].
    split.
    + unfold DeleteBCInstance. cbn. rewrite lookup_insert_eq.
      apply worker_eq; cbn; try done.
      by rewrite delete_insert_eq, delete_id.
    + unfold DeleteBCInstance. by rewrite Hnone.
  - unfold AllBlockchainContainersStopped. rewrite bool_decide_eq_true.
    apply map_size_empty_iff.
Qed.

Lemma sendAll_eq (l : list (string * BCInstanceState)) (w : EthBlockchainWorker) :
  foldl (fun w '(name, i) => sendMessage (mkContainerStopMessage name (org i)) w) w l
  = mkEthBlockchainWorker (exchangeURL w) (exchangeId w) (exchangeToken w) (horizonPubKeyFile w)
      (instances w) (neededBCs w) (Commands w)
      (Messages w ++ ((fun '(name, i) => mkContainerStopMessage name (org i)) <$> l)).
Proof.
  revert w. induction l as [|[k i] l IH]; intros w; simpl.
  - rewrite app_nil_r. by destruct w.
  - rewrite IH. cbn. by rewrite <- app_assoc.
Qed.

Lemma sameInstances_refl (w w' : EthBlockchainWorker) :
  instances w' = instances w -> sameInstances w w'.
Proof.
  intros Heq k. rewrite Heq. destruct (instances w !! k); by constructor.
Qed.

Lemma sameInstances_update (w : EthBlockchainWorker) (k : string) (i i' : BCInstanceState) :
  instances w !! k = Some i -> name i' = name i -> org i' = org i ->
  sameInstances w (setInstances (<[k := i']> (instances w)) w).
Proof.
  intros Hi Hn Ho k'. cbn. destruct (decide (k' = k)) as [->|Hne].
  - rewrite lookup_insert_eq, Hi. by constructor.
  - rewrite lookup_insert_ne by done. destruct (instances w !! k'); by constructor.
Qed.

Lemma keyedByName_same (w w' : EthBlockchainWorker) :
  keyedByName w -> sameInstances w w' -> keyedByName w'.
Proof.
  intros Hk Hs k i' Hi'. specialize (Hs k). rewrite Hi' in Hs.
  inversion Hs as [i ? [Hn Ho] Hi|]; subst. rewrite Hn. by apply Hk.
Qed.

(** X24: the functions that change the state of an instance
    ([SetInstanceNotStarted], [SetServiceStarted], [SetColonusDir]), the
    report of the needed blockchains and [StopAllBlockchains] neither
    register nor remove an instance and leave the name and the org of every
    instance as they are; on a registry in which every instance is kept
    under its own name, so does [RestartContainer], and that property of
    the registry survives every function of the registry, also
    [NewBCInstanceState] and [DeleteBCInstance]. *)
Theorem registry_keeps_names {V} (w : EthBlockchainWorker) (n sn sp dir o : string) (t : Z)
    (cmd : ContainerShutdownCommand) (now : string -> string -> Z)
    (needed : gmap string (gmap string V)) :
  keyedByName w ->
  (sameInstances w (SetInstanceNotStarted n w) /\
   sameInstances w (SetServiceStarted n sn sp w) /\
   sameInstances w (SetColonusDir n dir w) /\
   sameInstances w (UpdatedNeededBlockchains now needed w) /\
   sameInstances w (StopAllBlockchains w) /\
   (forall k i',
      instances (RestartContainer t cmd w) !! k = Some i' ->
      exists i, instances w !! k = Some i /\ name i' = name i /\
                (org i' = org i \/ k = ContainerName cmd /\ org i' = Org cmd))) /\
  keyedByName (NewBCInstanceState n o w).2 /\
  keyedByName (DeleteBCInstance n w) /\
  keyedByName (SetInstanceNotStarted n w) /\
  keyedByName (SetServiceStarted n sn sp w) /\
  keyedByName (SetColonusDir n dir w) /\
  keyedByName (RestartContainer t cmd w) /\
  keyedByName (UpdatedNeededBlockchains now needed w) /\
  keyedByName (StopAllBlockchains w).
Proof.
  intros Hk.
  assert (H1 : sameInstances w (SetInstanceNotStarted n w)).
  { unfold SetInstanceNotStarted. destruct (instances w !! n) as [i|] eqn:Hi;
      [by eapply sameInstances_update | by apply sameInstances_refl]. }
  assert (H2 : sameInstances w (SetServiceStarted n sn sp w)).
  { unfold SetServiceStarted. destruct (instances w !! n) as [i|] eqn:Hi;
      [by eapply sameInstances_update | by apply sameInstances_refl]. }
  assert (H3 : sameInstances w (SetColonusDir n dir w)).
  { unfold SetColonusDir. destruct (instances w !! n) as [i|] eqn:Hi;
      [by eapply sameInstances_update | by apply sameInstances_refl]. }
  assert (H4 : sameInstances w (UpdatedNeededBlockchains now needed w))
    by (by apply sameInstances_refl).
  assert (H5 : sameInstances w (StopAllBlockchains w)).
  { apply sameInstances_refl. unfold StopAllBlockchains. by rewrite sendAll_eq. }
  assert (H6 : forall k i',
      instances (RestartContainer t cmd w) !! k = Some i' ->
      exists i, instances w !! k = Some i /\ name i' = name i /\
                (org i' = org i \/ k = ContainerName cmd /\ org i' = Org cmd)).
  { intros k i'. unfold RestartContainer.
    destruct (negb _); [by intros Hi; exists i'; auto|].
    destruct (instances w !! ContainerName cmd) as [i|] eqn:Hi;
      [|by intros Hi'; exists i'; auto].
    cbn. destruct (decide (k = ContainerName cmd)) as [->|Hne].
    - rewrite lookup_insert_eq. intros [= <-]. exists i. cbn.
      split; [done|]. split; [by rewrite (Hk _ _ Hi) | by right].
    - rewrite lookup_insert_ne by done. intros Hi'. exists i'. auto. }
  split; [done|].
  repeat split; try (by eapply keyedByName_same).
  - unfold NewBCInstanceState. destruct (instances w !! n) eqn:Hn; [done|].
    intros k i. cbn. destruct (decide (k = n)) as [->|Hne].
    + rewrite lookup_insert_eq. by intros [= <-].
    + rewrite lookup_insert_ne by done. apply Hk.
  - unfold DeleteBCInstance. destruct (instances w !! n) eqn:Hn; [|done].
    intros k i. cbn. destruct (decide (k = n)) as [->|Hne].
    + by rewrite lookup_delete_eq.
    + rewrite lookup_delete_ne by done. apply Hk.
  - intros k i' Hi'. destruct (H6 _ _ Hi') as (i & Hi & Hn & _).
    rewrite Hn. by apply Hk.
Qed.

Lemma markNeeded_since (ts : Z) (org name : string) (m : gmap string (gmap string Z))
    (o n : string) :
  markNeeded ts org name m !! o ≫= (.!! n)
  = if decide (o = org /\ n = name) then Some ts else m !! o ≫= (.!! n).
Proof.
  unfold markNeeded. destruct (decide (o = org)) as [->|Hne].
  - rewrite lookup_insert_eq. cbn. destruct (decide (n = name)) as [->|Hn].
    + rewrite lookup_insert_eq. by rewrite decide_True.
    + rewrite lookup_insert_ne by done. rewrite decide_False by tauto.
      destruct (m !! org) as [names|] eqn:Hm; cbn.
      * by rewrite Hm.
      * by rewrite lookup_insert_eq.
  - rewrite decide_False by tauto.
    destruct (m !! org); by rewrite ?lookup_insert_ne by done.
Qed.

Lemma markNeeded_orgs (ts : Z) (org name : string) (m : gmap string (gmap string Z))
    (o : string) :
  is_Some (markNeeded ts org name m !! o) <-> o = org \/ is_Some (m !! o).
Proof.
  unfold markNeeded. destruct (decide (o = org)) as [->|Hne].
  - rewrite lookup_insert_eq. split; [by left | by eexists].
  - destruct (m !! org); rewrite ?lookup_insert_ne by done; tauto.
Qed.

Lemma markNames_since {V} (now : string -> string -> Z) (org : string)
    (l : list (string * V)) (m : gmap string (gmap string Z)) (o n : string) :
  foldl (fun m '(name, _) => markNeeded (now org name) org name m) m l !! o ≫= (.!! n)
  = if decide (o = org /\ n ∈ l.*1) then Some (now org n) else m !! o ≫= (.!! n).
Proof.
  revert m. induction l as [|[k v] l IH]; intros m; simpl.
  - rewrite decide_False; [done|]. intros [_ Hin]. by apply elem_of_nil in Hin.
  - rewrite IH. destruct (decide (o = org /\ n ∈ l.*1)) as [[-> Hin]|Hnot].
    + rewrite decide_True; [done|]. split; [done|]. by apply elem_of_cons; right.
    + rewrite markNeeded_since. destruct (decide (o = org /\ n = k)) as [[-> ->]|Hnk].
      * rewrite decide_True; [done|]. split; [done|]. by apply elem_of_cons; left.
      * rewrite decide_False; [done|]. intros [-> Hin].
        apply elem_of_cons in Hin as [->|Hin]; tauto.
Qed.

Lemma markNames_orgs {V} (now : string -> string -> Z) (org : string)
    (l : list (string * V)) (m : gmap string (gmap string Z)) (o : string) :
  is_Some (foldl (fun m '(name, _) => markNeeded (now org name) org name m) m l !! o)
  <-> (o = org /\ l <> []) \/ is_Some (m !! o).
Proof.
  revert m. induction l as [|[k v] l IH]; intros m; simpl.
  - split; [by right | by intros [[_ ?]|?]].
  - rewrite IH, markNeeded_orgs. split.
    + intros [[-> _]|[->|Hm]]; [by left | by left | by right].
    + intros [[-> _]|Hm]; [by right; left | by right; right].
Qed.

Lemma markAll_since {V} (now : string -> string -> Z)
    (l : list (string * list (string * V))) (m : gmap string (gmap string Z)) (o n : string) :
  markAll now l m !! o ≫= (.!! n)
  = if decide (Exists (fun x => x.1 = o /\ n ∈ x.2.*1) l) then Some (now o n)
    else m !! o ≫= (.!! n).
Proof.
  unfold markAll. revert m. induction l as [|[org names] l IH]; intros m; cbn [foldl].
  - rewrite decide_False; [done|]. by intros H; apply Exists_nil in H.
  - rewrite IH. destruct (decide (Exists _ l)) as [Hex|Hnot].
    + rewrite decide_True; [done|]. by apply Exists_cons; right.
    + rewrite markNames_since. destruct (decide (o = org /\ n ∈ names.*1)) as [[-> Hin]|Hno].
      * rewrite decide_True; [done|]. by apply Exists_cons; left.
      * rewrite decide_False; [done|]. intros Hex. apply Exists_cons in Hex as [[<- Hin]|Hex];
          [by apply Hno | by apply Hnot].
Qed.

Lemma markAll_orgs {V} (now : string -> string -> Z)
    (l : list (string * list (string * V))) (m : gmap string (gmap string Z)) (o : string) :
  is_Some (markAll now l m !! o)
  <-> Exists (fun x => x.1 = o /\ x.2 <> []) l \/ is_Some (m !! o).
Proof.
  unfold markAll. revert m. induction l as [|[org names] l IH]; intros m; cbn [foldl].
  - split; [by right|]. intros [H|H]; [by apply Exists_nil in H | done].
  - rewrite IH, markNames_orgs, Exists_cons. cbn. split.
    + intros [H|[[-> H]|H]]; [by left; right | by left; left | by right].
    + intros [[[<- H]|H]|H]; [by right; left | by left | by right; right].
Qed.

Lemma reported_Exists {V} (needed : gmap string (gmap string V)) (o n : string) :
  Exists (fun x : string * list (string * V) => x.1 = o /\ n ∈ x.2.*1)
    (map_to_list (map_to_list <$> needed))
  <-> reported needed o n.
Proof.
  rewrite Exists_exists. unfold reported. split.
  - intros ([o' names] & Hin & Ho & Hn). cbn in Ho, Hn. subst o'.
    apply elem_of_map_to_list in Hin. rewrite lookup_fmap in Hin.
    destruct (needed !! o) as [nm|] eqn:Hnm; [|done]. cbn in Hin. simplify_eq.
    exists nm. split; [done|].
    apply list_elem_of_fmap in Hn as ([n' v] & -> & Hv).
    apply elem_of_map_to_list in Hv. by exists v.
  - intros (nm & Hnm & [v Hv]). exists (o, map_to_list nm). split.
    + apply elem_of_map_to_list. by rewrite lookup_fmap, Hnm.
    + split; [done|]. cbn. apply list_elem_of_fmap. exists (n, v).
      split; [done|]. by apply elem_of_map_to_list.
Qed.

Lemma NeedContainer_since (t : Z) (org name : string) (w : EthBlockchainWorker) (ts : Z) :
  neededSince w org name = Some ts ->
  NeedContainer t org name w = (ts =? 0)%Z || (t <=? uint64_add ts 300)%Z.
Proof.
  unfold neededSince, NeedContainer. destruct (neededBCs w !! org) as [names|]; [|done].
  cbn. by intros ->.
Qed.

Lemma UpdatedNeededBlockchains_reported {V} (now : string -> string -> Z)
    (needed : gmap string (gmap string V)) (w : EthBlockchainWorker) (org name : string) :
  reported needed org name ->
  neededSince (UpdatedNeededBlockchains now needed w) org name = Some (now org name).
Proof.
  intros Hr. unfold neededSince, UpdatedNeededBlockchains. cbn.
  rewrite markAll_since, decide_True; [done|]. by apply reported_Exists.
Qed.

Lemma UpdatedNeededBlockchains_unreported {V} (now : string -> string -> Z)
    (needed : gmap string (gmap string V)) (w : EthBlockchainWorker) (org name : string) :
  ~ reported needed org name ->
  neededSince (UpdatedNeededBlockchains now needed w) org name = neededSince w org name.
Proof.
  intros Hr. unfold neededSince, UpdatedNeededBlockchains. cbn.
  rewrite markAll_since, decide_False; [done|]. intros Hex. by apply Hr, reported_Exists.
Qed.

Lemma UpdatedNeededBlockchains_orgs {V} (now : string -> string -> Z)
    (needed : gmap string (gmap string V)) (w : EthBlockchainWorker) (org : string) :
  is_Some (neededBCs (UpdatedNeededBlockchains now needed w) !! org)
  <-> is_Some (neededBCs w !! org) \/ exists name, reported needed org name.
Proof.
  unfold UpdatedNeededBlockchains. cbn. rewrite markAll_orgs.
  rewrite Exists_exists. split.
  - intros [([o names] & Hin & Ho & Hne)|H]; [|by left]. right. cbn in Ho, Hne. subst o.
    apply elem_of_map_to_list in Hin. rewrite lookup_fmap in Hin.
    destruct (needed !! org) as [nm|] eqn:Hnm; [|done]. cbn in Hin. simplify_eq.
    destruct (map_to_list nm) as [|[n v] l] eqn:Hl; [done|].
    exists n, nm. split; [done|]. exists v. apply elem_of_map_to_list.
    rewrite Hl. by apply elem_of_cons; left.
  - intros [H|(name & nm & Hnm & [v Hv])]; [by right|]. left.
    exists (org, map_to_list nm). split.
    + apply elem_of_map_to_list. by rewrite lookup_fmap, Hnm.
    + split; [done|]. cbn. apply elem_of_map_to_list in Hv.
      intros Hnil. rewrite Hnil in Hv. by apply elem_of_nil in Hv.
Qed.

(** X25: after [UpdatedNeededBlockchains], every blockchain of the report
    has the time of the report as its time stamp, whatever it was before,
    and the time stamp of every other blockchain is as before; the
    instances and the queues are not touched.  So [NeedContainer] holds for
    a reported blockchain exactly when the clock (as a uint64) is at most
    300 seconds after the report, in uint64 arithmetic, or the report was
    made at time 0: for a report at a time [ts] with [0 < ts] and
    [ts + 300 < 2^64] it holds up to [ts + 300] and not after.  An org has
    an entry afterwards when it had one or the report names a blockchain of
    it, and then [NeedContainer] also holds, at any time, for the names of
    that org that have no time stamp. *)
Theorem UpdatedNeededBlockchains_needed {V} (now : string -> string -> Z)
    (needed : gmap string (gmap string V)) (w : EthBlockchainWorker) :
  let w' := UpdatedNeededBlockchains now needed w in
  (forall org name,
     reported needed org name ->
     neededSince w' org name = Some (now org name) /\
     (forall t, NeedContainer t org name w'
                = (now org name =? 0)%Z || (t <=? uint64_add (now org name) 300)%Z) /\
     (forall t, (0 < now org name)%Z -> (now org name + 300 < 2 ^ 64)%Z ->
                NeedContainer t org name w' = true <-> (t <= now org name + 300)%Z)) /\
  (forall org name,
     ~ reported needed org name -> neededSince w' org name = neededSince w org name) /\
  (forall org,
     is_Some (neededBCs w' !! org)
     <-> is_Some (neededBCs w !! org) \/ exists name, reported needed org name) /\
  (forall org name t,
     is_Some (neededBCs w' !! org) -> neededSince w' org name = None ->
     NeedContainer t org name w' = true) /\
  instances w' = instances w /\ Commands w' = Commands w /\ Messages w' = Messages w.
Proof.
  intros w'. split; [|split; [|split; [|split]]].
  - intros org name Hr.
    assert (Hs : neededSince w' org name = Some (now org name))
      by (by apply UpdatedNeededBlockchains_reported).
    split; [done|]. split; [intros t; by apply NeedContainer_since|].
    intros t Hpos Hmax. rewrite (NeedContainer_since _ _ _ _ _ Hs).
    unfold uint64_add. rewrite Z.mod_small by lia.
    rewrite orb_true_iff, Z.eqb_eq, Z.leb_le. lia.
  - intros org name. apply UpdatedNeededBlockchains_unreported.
  - apply UpdatedNeededBlockchains_orgs.
  - intros org name t [names Hnames]. unfold neededSince, NeedContainer.
    rewrite Hnames. cbn. by intros ->.
  - done.
Qed.

Lemma RestartContainer_unneeded (t : Z) (cmd : ContainerShutdownCommand)
    (w : EthBlockchainWorker) :
  NeedContainer t (ContainerName cmd) (Org cmd) w = false -> RestartContainer t cmd w = w.
Proof. intros Hn. unfold RestartContainer. by rewrite Hn. Qed.

Lemma RestartContainer_changes (t : Z) (cmd : ContainerShutdownCommand)
    (w : EthBlockchainWorker) :
  RestartContainer t cmd w <> w ->
  NeedContainer t (ContainerName cmd) (Org cmd) w = true /\
  is_Some (instances w !! ContainerName cmd).
Proof.
  unfold RestartContainer. destruct (NeedContainer _ _ _ _); [|done]. cbn.
  destruct (instances w !! ContainerName cmd); [by eauto | done].
Qed.

(** X26: [RestartContainer] asks [NeedContainer] with the container name
    in the place of the org and the org in the place of the name, while
    [UpdatedNeededBlockchains] files a report under the org, then the name.
    So after a report, a container is restarted only if it is registered
    and its name is a first key of the needed blockchains: it was one
    before, or the report names a blockchain of an org of that name.
    Otherwise the worker stays as it is, also when the report has just
    filed the container's blockchain under its org, so that
    [NeedContainer] of the org and the name holds.  When the report names
    the org as a blockchain of the container name, and the time is within
    300 seconds of the report, a registered container is restarted: its
    state is replaced by a fresh one and one new client command with the
    exchange URL, id and token of the worker is queued. *)
Theorem RestartContainer_after_report {V} (now : string -> string -> Z)
    (needed : gmap string (gmap string V)) (w : EthBlockchainWorker) (t : Z)
    (cmd : ContainerShutdownCommand) :
  let w' := UpdatedNeededBlockchains now needed w in
  (RestartContainer t cmd w' <> w' ->
   is_Some (instances w !! ContainerName cmd) /\
   (is_Some (neededBCs w !! ContainerName cmd) \/
    exists name, reported needed (ContainerName cmd) name)) /\
  (neededBCs w !! ContainerName cmd = None ->
   (forall name, ~ reported needed (ContainerName cmd) name) ->
   RestartContainer t cmd w' = w' /\
   (reported needed (Org cmd) (ContainerName cmd) ->
    (t <= uint64_add (now (Org cmd) (ContainerName cmd)) 300)%Z ->
    NeedContainer t (Org cmd) (ContainerName cmd) w' = true)) /\
  (reported needed (ContainerName cmd) (Org cmd) ->
   is_Some (instances w !! ContainerName cmd) ->
   (t <= uint64_add (now (ContainerName cmd) (Org cmd)) 300)%Z ->
   instances (RestartContainer t cmd w')
   = <[ContainerName cmd := newInstance (ContainerName cmd) (Org cmd)]> (instances w) /\
   Commands (RestartContainer t cmd w')
   = Commands w ++ [mkNewClientCommand (ContainerName cmd) (Org cmd) (exchangeURL w)
                      (exchangeId w) (exchangeToken w)] /\
   neededBCs (RestartContainer t cmd w') = neededBCs w' /\
   Messages (RestartContainer t cmd w') = Messages w).
Proof.
  intros w'. split; [|split].
  - intros Hch. apply RestartContainer_changes in Hch as [Hneed Hi]. split; [done|].
    apply (UpdatedNeededBlockchains_orgs now). fold w'.
    unfold NeedContainer in Hneed. by destruct (neededBCs w' !! ContainerName cmd).
  - intros Hnone Hnot. split.
    + apply RestartContainer_unneeded. unfold NeedContainer.
      destruct (neededBCs w' !! ContainerName cmd) as [names|] eqn:Hk; [|done].
      assert (Hs : is_Some (neededBCs w' !! ContainerName cmd)) by (by rewrite Hk).
      apply UpdatedNeededBlockchains_orgs in Hs as [[? Hs]|[name Hr]];
        [congruence | by destruct (Hnot name)].
    + intros Hr Ht.
      rewrite (NeedContainer_since t _ _ w' (now (Org cmd) (ContainerName cmd)))
        by (by apply UpdatedNeededBlockchains_reported).
      apply orb_true_iff. right. by apply Z.leb_le.
  - intros Hr [i Hi] Ht. unfold RestartContainer.
    rewrite (NeedContainer_since t _ _ w' (now (ContainerName cmd) (Org cmd)))
      by (by apply UpdatedNeededBlockchains_reported).
    replace (t <=? _)%Z with true by (symmetry; by apply Z.leb_le).
    rewrite orb_true_r. cbn [negb]. cbn. by rewrite Hi.
Qed.

(** X27: [StopAllBlockchains] empties the needed blockchains and sends one
    stop message for each registered instance, with the name under which
    it is registered and its org, after the messages that were already
    queued; it does not remove an instance and queues no command.
    Afterwards [NeedContainer] holds for no org and name at any time, so
    [RestartContainer] restarts nothing until blockchains are reported as
    needed again. *)
Theorem StopAllBlockchains_stops_all (w : EthBlockchainWorker) :
  let w' := StopAllBlockchains w in
  neededBCs w' = ∅ /\ instances w' = instances w /\ Commands w' = Commands w /\
  (exists msgs,
     Messages w' = Messages w ++ msgs /\ NoDup msgs /\
     length msgs = size (instances w) /\
     forall m, m ∈ msgs <->
               exists i, instances w !! StopContainerName m = Some i /\ StopOrg m = org i) /\
  (forall t org name, NeedContainer t org name w' = false) /\
  (forall t cmd, RestartContainer t cmd w' = w').
Proof.
  intros w'. unfold w', StopAllBlockchains. rewrite sendAll_eq. cbn.
  split; [done|]. split; [done|]. split; [done|]. split; [|split].
  - eexists. split; [done|]. split; [|split].
    + apply (NoDup_fmap_1 StopContainerName). rewrite <- list_fmap_compose.
      erewrite list_fmap_ext; [apply (NoDup_fst_map_to_list (instances w))|].
      by intros ? [k i] ?.
    + by rewrite length_fmap, length_map_to_list.
    + intros m. rewrite list_elem_of_fmap. split.
      * intros ([k i] & -> & Hin). apply elem_of_map_to_list in Hin. by exists i.
      * intros (i & Hi & Ho). exists (StopContainerName m, i).
        split; [destruct m; cbn in *; by subst|]. by apply elem_of_map_to_list.
  - done.
  - intros t cmd. by apply RestartContainer_unneeded.
Qed.


Lemma registry_keeps_names_witness :
  let w := mkEthBlockchainWorker "https://exchange" "IBM/agbot" "token" "/etc/horizon/key.pem"
             {["bluehorizon" := newInstance "bluehorizon" "IBM"]}
             {["bluehorizon" := {["IBM" := 100%Z]}]} [] [] in
  let cmd := mkContainerShutdownCommand "bluehorizon" "IBM" in
  keyedByName w /\
  RestartContainer 200 cmd w <> w /\
  keyedByName (RestartContainer 200 cmd w) /\
  keyedByName (NewBCInstanceState "private" "IBM" w).2.
Proof.
  intros w cmd.
  assert (Hk : keyedByName w).
  { intros k i Hi. cbn in Hi. apply lookup_singleton_Some in Hi as [<- <-]. done. }
  split; [exact Hk|]. split.
  { intros Heq. apply (f_equal (fun w => length (Commands w))) in Heq.
    vm_compute in Heq. discriminate. }
  pose proof (registry_keeps_names (V:=bool) w "private" "eth" "8545" "/root/eth" "IBM" 200 cmd
                (fun _ _ => 150%Z) ∅ Hk) as (_ & Hnew & _ & _ & _ & _ & Hrestart & _).
  split; [exact Hrestart | exact Hnew].
Defined.

End BlockchainRegistry.

(** * The pull of the images of a deployment *)

Section ImagePull.
Import Stdlib.Strings.Ascii.
Import torrent.

Context {A : Type} (noAuth : A).

Lemma Split_occurs (s : string) (sep : ascii) :
  match Split s sep with
  | [] => False
  | [piece] => piece = s /\ occurs sep s = false
  | _ :: _ :: _ => occurs sep s = true
  end.
Proof.
  induction s as [|c s IH]; simpl; [done|].
  destruct (Ascii.eqb c sep) eqn:Hc; simpl.
  - by destruct (Split s sep).
  - destruct (Split s sep) as [|piece [|piece' pieces]]; [done| |done].
    destruct IH as [-> Hno]. done.
Qed.

Lemma Split_concat (s : string) (sep : ascii) :
  String.concat (String sep EmptyString) (Split s sep) = s /\
  Forall (fun piece => occurs sep piece = false) (Split s sep).
Proof.
  induction s as [|c s [IHc IHf]]; simpl; [by split; [|repeat constructor]|].
  pose proof (Split_occurs s sep) as Hne.
  destruct (Ascii.eqb c sep) eqn:Hc.
  - apply Ascii.eqb_eq in Hc as ->. split; [|by constructor].
    destruct (Split s sep) as [|piece pieces]; [done|]. by rewrite <- IHc.
  - destruct (Split s sep) as [|piece pieces]; [done|]. split.
    + rewrite <- IHc. by destruct pieces.
    + inversion IHf; subst. constructor; [|done]. simpl. by rewrite Hc.
Qed.

Lemma pullLoop_S (fuel : nat) (client : Client) (image : string)
    (opts : PullImageOptions) (auth : A) (n : Z) (t : list Event) :
  (0 <= n <= 2)%Z ->
  pullLoop (S fuel) client image opts auth n t
  = match client t opts auth with
    | None => (None, t ++ [PullImage opts auth None])
    | Some err =>
        if bool_decide (n = 2%Z)
        then (Some (Returns (Some (lastError image err))),
              t ++ [PullImage opts auth (Some err)])
        else pullLoop fuel client image opts auth (n + 1)
               ((t ++ [PullImage opts auth (Some err)]) ++ [Sleep pullAttemptDelayS])
    end.
Proof.
  intros Hn. cbn [pullLoop]. unfold maxPullAttempts.
  replace (n <=? 3)%Z with true by (symmetry; apply Z.leb_le; lia).
  destruct (client t opts auth) as [err|]; [|done].
  replace (int_add n 1) with (n + 1)%Z.
  2:{ unfold int_add, wrap_int. rewrite Z.mod_small; lia. }
  destruct (decide (n = 2%Z)) as [->|Hne].
  - by rewrite bool_decide_eq_true_2.
  - rewrite bool_decide_eq_false_2 by done.
    replace (n + 1 =? 3)%Z with false by (symmetry; apply Z.eqb_neq; lia). done.
Qed.

Lemma pullLoop_attempts (fuel : nat) (client : Client) (image : string)
    (opts : PullImageOptions) (auth : A) (t : list Event) :
  (3 <= fuel)%nat ->
  exists added,
    (pullLoop fuel client image opts auth 0 t).2 = t ++ added /\
    (length (List.filter isPull added) <= 3)%nat /\
    match (pullLoop fuel client image opts auth 0 t).1 with
    | None =>
        exists errs, (length errs <= 2)%nat /\
                     added = retries opts auth errs ++ [PullImage opts auth None]
    | Some (Returns (Some e)) =>
        exists e1 e2 e3,
          added = retries opts auth [e1; e2] ++ [PullImage opts auth (Some e3)] /\
          e = lastError image e3
    | Some _ => False
    end.
Proof.
  intros Hfuel. destruct fuel as [|[|[|fuel]]]; [lia..|].
  rewrite pullLoop_S by lia.
  destruct (client t opts auth) as [e1|] eqn:H1.
  2:{ exists [PullImage opts auth None]. cbn. split; [done|]. split; [lia|].
      exists []. split; [cbn; lia | done]. }
  rewrite bool_decide_eq_false_2 by lia. rewrite pullLoop_S by lia.
  match goal with
  | |- context [client ?h opts auth] => destruct (client h opts auth) as [e2|] eqn:H2
  end.
  2:{ exists (retries opts auth [e1] ++ [PullImage opts auth None]). cbn.
      rewrite <- !app_assoc. split; [done|]. split; [lia|].
      exists [e1]. split; [cbn; lia | done]. }
  rewrite bool_decide_eq_false_2 by lia. rewrite pullLoop_S by lia.
  match goal with
  | |- context [client ?h opts auth] => destruct (client h opts auth) as [e3|] eqn:H3
  end.
  2:{ exists (retries opts auth [e1; e2] ++ [PullImage opts auth None]). cbn.
      rewrite <- !app_assoc. split; [done|]. split; [lia|].
      exists [e1; e2]. split; [cbn; lia | done]. }
  rewrite bool_decide_eq_true_2 by lia.
  exists (retries opts auth [e1; e2] ++ [PullImage opts auth (Some e3)]). cbn.
  rewrite <- !app_assoc. split; [done|]. split; [lia|]. by exists e1, e2, e3.
Qed.

Lemma fetched_app_l (t1 t2 : list (Event (AuthConfiguration := A))) (service : Service) :
  fetched t1 service -> fetched (t1 ++ t2) service.
Proof.
  intros (repository & tag & rest & auth & Hs & Hin).
  exists repository, tag, rest, auth. split; [done|]. apply elem_of_app. by left.
Qed.

Lemma fetched_app_r (t1 t2 : list (Event (AuthConfiguration := A))) (service : Service) :
  fetched t2 service -> fetched (t1 ++ t2) service.
Proof.
  intros (repository & tag & rest & auth & Hs & Hin).
  exists repository, tag, rest, auth. split; [done|]. apply elem_of_app. by right.
Qed.

Lemma pullServices_end (fuel : nat) (client : Client) (configs : gmap string A)
    (services : list (string * Service)) (t0 : list Event) :
  (3 <= fuel)%nat ->
  exists added,
    (pullServices noAuth fuel client configs services t0).2 = t0 ++ added /\
    (length (List.filter isPull added) <= 3 * length services)%nat /\
    servicesEnd noAuth configs services
      (pullServices noAuth fuel client configs services t0).1 added.
Proof.
  intros Hfuel. revert t0. induction services as [|[name service] services IH]; intros t0.
  - exists []. cbn. rewrite app_nil_r. by repeat split.
  - cbn [pullServices]. pose proof (Split_occurs (Image service) ":") as Hsplit.
    destruct (Split (Image service) ":") as [|repository [|tag rest]] eqn:Himage; [done| |].
    + exists []. cbn. rewrite app_nil_r. split; [done|]. split; [lia|].
      exists [], name, service, services. by destruct Hsplit.
    + set (opts := mkPullImageOptions repository tag).
      set (auth := chooseAuth noAuth configs repository).
      destruct (pullLoop_attempts fuel client (Image service) opts auth t0 Hfuel)
        as (a1 & Ht1 & Hn1 & Hend1).
      destruct (pullLoop fuel client (Image service) opts auth 0 t0) as [[r|] t1];
        cbn in Ht1, Hend1; subst t1.
      * exists a1. cbn. split; [done|]. split; [lia|].
        destruct r as [[e|]| |]; try done.
        destruct Hend1 as (e1 & e2 & e3 & -> & ->).
        exists [], name, service, services, repository, tag, rest, e1, e2, e3, [].
        by repeat split.
      * destruct Hend1 as (errs & Herrs & ->).
        destruct (IH (t0 ++ retries opts auth errs ++ [PullImage opts auth None]))
          as (a2 & Ht2 & Hn2 & Hend2).
        set (a1 := retries opts auth errs ++ [PullImage opts auth None]) in *.
        exists (a1 ++ a2). rewrite Ht2, app_assoc. split; [done|]. split.
        { rewrite List.filter_app, length_app. cbn [length]. lia. }
        assert (Hhere : fetched a1 service).
        { exists repository, tag, rest, auth. split; [done|].
          apply elem_of_app. right. by apply list_elem_of_here. }
        destruct (pullServices noAuth fuel client configs services (t0 ++ a1)).1
          as [[e|]| |]; cbn in Hend2 |- *.
        -- destruct Hend2 as (before & n & s & after & rp & tg & rs & e1 & e2 & e3 & tr
                              & -> & Hb & Hs & -> & ->).
           exists ((name, service) :: before), n, s, after, rp, tg, rs, e1, e2, e3, (a1 ++ tr).
           split; [done|]. split.
           { cbn. constructor; [by apply fetched_app_l|].
             eapply Forall_impl; [exact Hb|]. intros x. apply fetched_app_r. }
           split; [done|]. split; [by rewrite <- !app_assoc | done].
        -- constructor; [by apply fetched_app_l|].
           eapply Forall_impl; [exact Hend2|]. intros x. apply fetched_app_r.
        -- destruct Hend2 as (before & n & s & after & -> & Hb & Hno).
           exists ((name, service) :: before), n, s, after. split; [done|]. split; [|done].
           cbn. constructor; [by apply fetched_app_l|].
           eapply Forall_impl; [exact Hb|]. intros x. apply fetched_app_r.
        -- done.
Qed.

Lemma pullLoop_events (fuel : nat) (client : Client) (image : string)
    (opts : PullImageOptions) (auth : A) (n : Z) (t : list Event) :
  exists added,
    (pullLoop fuel client image opts auth n t).2 = t ++ added /\
    Forall (fun ev => forall o a e, ev = PullImage o a e -> o = opts /\ a = auth) added.
Proof.
  assert (Hpull : forall err o a e,
            PullImage opts auth err = PullImage o a e -> o = opts /\ a = auth)
    by (intros; by simplify_eq).
  revert n t. induction fuel as [|fuel IH]; intros n t; cbn [pullLoop].
  - exists []. by rewrite app_nil_r.
  - destruct (n <=? maxPullAttempts)%Z; [|exists []; by rewrite app_nil_r].
    destruct (client t opts auth) as [err|].
    + destruct (negb _).
      * destruct (IH (int_add n 1)
                    ((t ++ [PullImage opts auth (Some err)]) ++ [Sleep pullAttemptDelayS]))
          as (added & -> & Hall).
        exists ([PullImage opts auth (Some err); Sleep pullAttemptDelayS] ++ added).
        split; [by rewrite <- !app_assoc|].
        apply Forall_app. split; [|done].
        apply List.Forall_cons; [apply Hpull|].
        apply List.Forall_cons; [done|]. apply List.Forall_nil.
      * exists [PullImage opts auth (Some err)]. split; [done|].
        apply List.Forall_cons; [apply Hpull | apply List.Forall_nil].
    + exists [PullImage opts auth None]. split; [done|].
      apply List.Forall_cons; [apply Hpull | apply List.Forall_nil].
Qed.

Lemma pullServices_events (fuel : nat) (client : Client) (configs : gmap string A)
    (services : list (string * Service)) (t0 : list Event) :
  exists added,
    (pullServices noAuth fuel client configs services t0).2 = t0 ++ added /\
    Forall (fun ev => forall o a e, ev = PullImage o a e ->
              exists name service rest,
                (name, service) ∈ services /\
                Split (Image service) ":" = Repository o :: Tag o :: rest /\
                a = chooseAuth noAuth configs (Repository o)) added.
Proof.
  revert t0. induction services as [|[name service] services IH]; intros t0.
  - exists []. cbn. by rewrite app_nil_r.
  - cbn [pullServices].
    destruct (Split (Image service) ":") as [|repository [|tag rest]] eqn:Himage;
      [exists []; cbn; by rewrite app_nil_r..|].
    destruct (pullLoop_events fuel client (Image service)
                (mkPullImageOptions repository tag)
                (chooseAuth noAuth configs repository) 0 t0) as (a1 & Ht1 & Hall1).
    assert (Hhere : Forall (fun ev => forall o a e, ev = PullImage o a e ->
              exists name' service' rest',
                (name', service') ∈ (name, service) :: services /\
                Split (Image service') ":" = Repository o :: Tag o :: rest' /\
                a = chooseAuth noAuth configs (Repository o)) a1).
    { eapply Forall_impl; [exact Hall1|]. intros ev Hev o a e ->.
      destruct (Hev o a e eq_refl) as [-> ->].
      exists name, service, rest. split; [by apply list_elem_of_here | done]. }
    destruct (pullLoop fuel client (Image service) _ _ 0 t0) as [[r|] t1];
      cbn in Ht1; subst t1.
    + by exists a1.
    + destruct (IH (t0 ++ a1)) as (a2 & -> & Hall2).
      exists (a1 ++ a2). split; [by rewrite app_assoc|].
      apply Forall_app. split; [done|].
      eapply Forall_impl; [exact Hall2|]. intros ev Hev o a e ->.
      destruct (Hev o a e eq_refl) as (n & s & rs & Hin & Hs & Ha).
      exists n, s, rs. split; [by apply list_elem_of_further | done].
Qed.

Lemma chooseAuth_lookup (configs : gmap string A) (repository : string) :
  exists domain pieces,
    Split repository "/" = domain :: pieces /\
    chooseAuth noAuth configs repository = default noAuth (configs !! domain).
Proof.
  pose proof (Split_occurs repository "/") as Hne. unfold chooseAuth.
  destruct (Split repository "/") as [|domain pieces]; [done|]. clear Hne.
  exists domain, pieces. split; [done|].
  rewrite <- (list_to_map_to_list configs) at 2.
  pose proof (NoDup_fst_map_to_list configs) as Hnodup.
  generalize dependent (map_to_list configs). intros l. generalize noAuth.
  induction l as [|[d c] l IH]; intros a Hnodup; [done|].
  cbn [foldl list_to_map]. cbn in Hnodup. apply NoDup_cons in Hnodup as [Hd Hnodup].
  rewrite IH by done. rewrite list_to_map_cons. destruct (decide (domain = d)) as [->|Hne].
  - rewrite bool_decide_eq_true_2 by done. rewrite lookup_insert_eq. cbn.
    by rewrite (not_elem_of_list_to_map_1 _ _ Hd).
  - rewrite bool_decide_eq_false_2 by done. by rewrite lookup_insert_ne.
Qed.

Lemma augment_union (authFromFile configs : gmap string A) :
  augment authFromFile configs = configs ∪ authFromFile.
Proof.
  apply map_eq. intros k. unfold augment.
  rewrite <- (list_to_map_to_list authFromFile) at 2.
  generalize (map_to_list authFromFile). intros l. revert configs.
  induction l as [|[k' v'] l IH]; intros configs.
  - cbn. by rewrite (right_id ∅ (∪)).
  - cbn [foldl]. rewrite list_to_map_cons, IH, !lookup_union.
    destruct (decide (k = k')) as [->|Hne].
    + rewrite lookup_insert_eq. destruct (configs !! k') eqn:Hk.
      * rewrite Hk. by destruct (list_to_map l !! k').
      * rewrite lookup_insert_eq. by destruct (list_to_map l !! k').
    + rewrite lookup_insert_ne by done.
      destruct (configs !! k'); by rewrite ?lookup_insert_ne by done.
Qed.

(** X28: with fuel for three rounds of the loop, [pullImageFromRepos]
    makes at most three times as many pulls as there are services, and it
    ends in one of three ways.  It returns nil, and then the image of
    every service was pulled without an error.  Or it returns an error:
    then for one service three pulls in a row failed, with a sleep of 15
    seconds after the first and after the second but none after the third,
    which is the last event; the services before that one were fetched;
    the error is the one of the third pull, wrapped in a
    [PkgSourceFetchAuthError] if it is a docker error of status 500 whose
    message contains the text cred.  Or it panics with an index out of
    range: then the image of one service has no colon, and the services
    before that one were fetched. *)
Theorem pullImageFromRepos_attempts (fuel : nat) (DockerCredFilePath : string)
    (defaultCredsThere : bool) (dockerCredsFromConfigFile : string -> option (gmap string A))
    (client : Client) (authConfigs : gmap string A) (services : list (string * Service)) :
  (3 <= fuel)%nat ->
  let run := pullImageFromRepos noAuth fuel DockerCredFilePath defaultCredsThere
               dockerCredsFromConfigFile client authConfigs services in
  (length (List.filter isPull (trace run)) <= 3 * length services)%nat /\
  match result run with
  | Returns None => Forall (fetched (trace run)) services.*2
  | Returns (Some e) =>
      exists before name service after repository tag rest e1 e2 e3 tr,
        services = before ++ (name, service) :: after /\
        Forall (fetched tr) before.*2 /\
        Split (Image service) ":" = repository :: tag :: rest /\
        trace run
        = tr ++ retries (mkPullImageOptions repository tag)
                  (chooseAuth noAuth (Configs run) repository) [e1; e2]
             ++ [PullImage (mkPullImageOptions repository tag)
                   (chooseAuth noAuth (Configs run) repository) (Some e3)] /\
        e = lastError (Image service) e3 /\
        (e = e3 \/
         exists status message msg,
           e3 = DockerError status message /\ status = 500%Z /\
           Contains message "cred" = true /\ e = PkgSourceFetchAuthError msg e3)
  | IndexOutOfRange =>
      exists before name service after,
        services = before ++ (name, service) :: after /\
        Forall (fetched (trace run)) before.*2 /\
        occurs ":" (Image service) = false
  | NoFuel => False
  end.
Proof.
  intros Hfuel run. unfold run, pullImageFromRepos.
  set (configs := if negb (bool_decide (_ = "")) then _ else authConfigs).
  destruct (pullServices_end fuel client configs services [] Hfuel)
    as (added & Ht & Hn & Hend).
  destruct (pullServices noAuth fuel client configs services []) as [r t].
  cbn in Ht, Hend. subst t. cbn. split; [done|].
  destruct r as [[e|]| |]; try exact Hend.
  destruct Hend as (before & name & service & after & repository & tag & rest
                    & e1 & e2 & e3 & tr & H1 & H2 & H3 & H4 & H5).
  exists before, name, service, after, repository, tag, rest, e1, e2, e3, tr.
  repeat (split; [done|]). subst e. unfold lastError.
  destruct e3 as [status message| |]; [|by left..].
  destruct (status =? 500)%Z eqn:Hstatus; [|by left].
  destruct (Contains message "cred") eqn:Hcred; [|by left].
  right. apply Z.eqb_eq in Hstatus. by eexists status, message, _.
Qed.

(** X29: [pullImageFromRepos] only augments the credentials it is given:
    every incoming entry keeps its value, and the entries of the
    credentials file are added for the other keys.  The file is the
    configured one if one is configured, and the default one only if none
    is configured and it is there; a file that cannot be read adds nothing
    and is no error.  Every pull is for the image of one of the services:
    the repository is the text of the image before its first colon and the
    tag is the text between the first and the second colon, if there is a
    second, so neither has a colon and what follows a second colon is
    dropped.  The pull uses the credentials that the augmented
    configurations have for the text of the repository before its first
    slash, and the zero credentials if they have none. *)
Theorem pullImageFromRepos_credentials (fuel : nat) (DockerCredFilePath : string)
    (defaultCredsThere : bool) (dockerCredsFromConfigFile : string -> option (gmap string A))
    (client : Client) (authConfigs : gmap string A) (services : list (string * Service)) :
  let run := pullImageFromRepos noAuth fuel DockerCredFilePath defaultCredsThere
               dockerCredsFromConfigFile client authConfigs services in
  let augmented file :=
    match dockerCredsFromConfigFile file with
    | Some authFromFile => authConfigs ∪ authFromFile
    | None => authConfigs
    end in
  (DockerCredFilePath <> "" -> Configs run = augmented DockerCredFilePath) /\
  (DockerCredFilePath = "" -> defaultCredsThere = true ->
   Configs run = augmented "/root/.docker/config.json") /\
  (DockerCredFilePath = "" -> defaultCredsThere = false -> Configs run = authConfigs) /\
  authConfigs ⊆ Configs run /\
  (forall opts auth e,
     PullImage opts auth e ∈ trace run ->
     (exists name service rest,
        (name, service) ∈ services /\
        Image service = String.concat ":" (Repository opts :: Tag opts :: rest) /\
        occurs ":" (Repository opts) = false /\ occurs ":" (Tag opts) = false) /\
     (exists domain pieces,
        Split (Repository opts) "/" = domain :: pieces /\
        auth = default noAuth (Configs run !! domain))).
Proof.
  intros run augmented.
  assert (Hconfigs : Configs run
    = if negb (bool_decide (DockerCredFilePath = "")) then augmented DockerCredFilePath
      else if defaultCredsThere then augmented "/root/.docker/config.json"
      else authConfigs).
  { unfold run, pullImageFromRepos, augmented.
    destruct (pullServices _ _ _ _ _ _) as [r t]. cbn.
    destruct (decide (DockerCredFilePath = "")) as [->|Hpath].
    - rewrite (bool_decide_eq_true_2 ("" = "")) by done. cbn [negb].
      destruct defaultCredsThere; [|done].
      rewrite bool_decide_eq_false_2 by done. cbn [negb].
      destruct (dockerCredsFromConfigFile _); [apply augment_union | done].
    - rewrite !(bool_decide_eq_false_2 (DockerCredFilePath = "")) by done. cbn [negb].
      destruct (dockerCredsFromConfigFile _); [apply augment_union | done]. }
  assert (Hsub : forall file, authConfigs ⊆ augmented file).
  { intros file. unfold augmented.
    destruct (dockerCredsFromConfigFile file); [apply map_union_subseteq_l | done]. }
  split; [|split; [|split; [|split]]].
  - intros Hpath. by rewrite Hconfigs, bool_decide_eq_false_2.
  - intros -> ->. by rewrite Hconfigs.
  - intros -> ->. by rewrite Hconfigs.
  - rewrite Hconfigs. destruct (negb _); [done|]. by destruct defaultCredsThere.
  - intros opts auth e Hin.
    assert (Hev : exists name service rest,
               (name, service) ∈ services /\
               Split (Image service) ":" = Repository opts :: Tag opts :: rest /\
               auth = chooseAuth noAuth (Configs run) (Repository opts)).
    { revert Hin. unfold run, pullImageFromRepos.
      set (configs := if negb (bool_decide (_ = "")) then _ else authConfigs).
      destruct (pullServices_events fuel client configs services []) as (added & Ht & Hall).
      destruct (pullServices noAuth fuel client configs services []) as [r t].
      cbn in Ht. subst t. cbn. intros Hin.
      rewrite Forall_forall in Hall. by apply (Hall _ Hin opts auth e). }
    destruct Hev as (name & service & rest & Hsvc & Hsplit & ->).
    destruct (Split_concat (Image service) ":") as [Hconcat Hfree].
    rewrite Hsplit in Hconcat, Hfree. split.
    + exists name, service, rest. split; [done|]. split; [done|].
      inversion Hfree as [|? ? Hr Hfree']; subst. by inversion Hfree'; subst.
    + apply chooseAuth_lookup.
Qed.

End ImagePull.

Section ImagePullRuns.
Import torrent.

Lemma pullImageFromRepos_attempts_witness :
  let run := pullImageFromRepos "" 3 "" false (fun _ => None)
               (fun _ _ _ => Some (DockerError 500 "no basic auth credentials"))
               {["registry.example.com" := "token"]}
               [("geth", mkService "registry.example.com/geth:1.0");
                ("colonus", mkService "registry.example.com/colonus:2.1")] in
  (3 <= 3)%nat /\
  (length (List.filter isPull (trace run)) <= 3 * 2)%nat /\
  result run <> NoFuel /\
  result run <> Returns None.
Proof.
  intros run.
  pose proof (pullImageFromRepos_attempts "" 3 "" false (fun _ => None)
                (fun _ _ _ => Some (DockerError 500 "no basic auth credentials"))
                {["registry.example.com" := "token"]}
                [("geth", mkService "registry.example.com/geth:1.0");
                 ("colonus", mkService "registry.example.com/colonus:2.1")]
                (le_n 3)) as [Hn Hend].
  fold run in Hn, Hend. split; [apply le_n|]. split; [exact Hn|]. split.
  - intros Heq. by rewrite Heq in Hend.
  - intros Heq. rewrite Heq in Hend. apply Forall_inv in Hend.
    destruct Hend as (repository & tag & rest & auth & _ & Hin).
    vm_compute in Hin. clear -Hin.
    repeat (apply elem_of_cons in Hin as [Hin|Hin]; [discriminate|]).
    by apply elem_of_nil in Hin.
Defined.

End ImagePullRuns.
